(** * Celestial Unification Framework: the deterministic evolution engine

    A shallow embedding of the simulation core of
    [QCelestial Unification Framework v7.0.py] (and of the union-find that
    v8.0 shares with it), with the properties the specification states
    about it, followed by further properties of the same code and of the
    classes that are new in v8.0.

    Reading conventions.
    - Python integers are [Z]; numpy [int64] arrays are [list Z] (no value
      handled here leaves the [int64] range); numpy [float64] values are
      the kernel's binary64 [float]s.
    - An exception leaves the mutations made before it in place, so a
      method is a function from the object's state to an outcome and the
      state it leaves behind.
    - Recursion is bounded by the interpreter: [find] takes the number of
      frames it may still open and raises [RecursionError] without it.
    - Names the file calls but does not define (the numeric kernels,
      [Multiverse], the metric) and calls into numpy, scipy and sklearn
      whose result is not fixed by the file are fields of a class of
      collaborators. [Config.VOID_ENTROPY_RANGE] is read as the range
      [Config.__init__] stores. *)

From Stdlib Require Import ZArith Lia Bool PrimFloat.
From Stdlib Require Uint63.
From stdpp Require Import base option list strings pretty gmap.

Set Warnings "-inexact-float".
Local Open Scope Z_scope.

(** ** Python: exceptions and stateful methods *)

Inductive exn : Type :=
| IndexError
| RecursionError
| ValueError
| ZeroDivisionError.

Inductive outcome (A : Type) : Type :=
| Ok (a : A)
| Raise (e : exn).
Arguments Ok {A} a.
Arguments Raise {A} e.

Definition is_ok {A} (o : outcome A) : bool :=
  match o with Ok _ => true | Raise _ => false end.

(** A method of an object with state [S]: the outcome and the state left. *)
Definition M (S A : Type) : Type := S -> outcome A * S.

Definition ret {S A} (a : A) : M S A := fun s => (Ok a, s).
Definition raise {S A} (e : exn) : M S A := fun s => (Raise e, s).
Definition bind {S A B} (m : M S A) (k : A -> M S B) : M S B :=
  fun s => match m s with
           | (Ok a, s') => k a s'
           | (Raise e, s') => (Raise e, s')
           end.
Definition gets {S A} (f : S -> A) : M S A := fun s => (Ok (f s), s).
Definition modify {S} (f : S -> S) : M S unit := fun s => (Ok tt, f s).
Definition lift {S A} (o : outcome A) : M S A := fun s => (o, s).

Notation "x <- m ;; k" := (bind m (fun x => k))
  (at level 100, m at next level, right associativity).
Notation "m ;;; k" := (bind m (fun _ => k))
  (at level 100, right associativity).

(** A method of a component run on the object that owns it. *)
Definition zoom {S T A} (get : S -> T) (set : T -> S -> S) (m : M T A) : M S A :=
  fun s => let '(o, t) := m (get s) in (o, set t s).

(** ** numpy: one-dimensional indexing *)

(** [a[i]]: an index in [-n, n) addresses a cell, negative ones from the
    end; any other raises [IndexError]. *)
Definition norm_index (n : nat) (i : Z) : option nat :=
  if (0 <=? i) && (i <? Z.of_nat n) then Some (Z.to_nat i)
  else if (- Z.of_nat n <=? i) && (i <? 0) then Some (Z.to_nat (Z.of_nat n + i))
  else None.

Definition getitem {A} (a : list A) (i : Z) : outcome A :=
  match norm_index (length a) i with
  | Some k => match a !! k with Some v => Ok v | None => Raise IndexError end
  | None => Raise IndexError
  end.

Definition setitem {A} (a : list A) (i : Z) (v : A) : outcome (list A) :=
  match norm_index (length a) i with
  | Some k => Ok (<[k:=v]> a)
  | None => Raise IndexError
  end.

(** [np.arange(n)] and [np.zeros(n, dtype=int)]. *)
Definition arange (n : nat) : list Z := Z.of_nat <$> seq 0 n.
Definition zeros (n : nat) : list Z := replicate n 0.

(** ** TopologicalPhaseUnionFind (v7.0 lines 69-95, v8.0 lines 91-111) *)

Module TopologicalPhaseUnionFind.

Record t : Type := mk {
  parent : list Z;
  z2_charge : list Z;
  z4_charge : list Z
}.

Definition set_parent (p : list Z) (u : t) : t :=
  mk p (z2_charge u) (z4_charge u).
Definition set_z2_charge (c : list Z) (u : t) : t :=
  mk (parent u) c (z4_charge u).
Definition set_z4_charge (c : list Z) (u : t) : t :=
  mk (parent u) (z2_charge u) c.

(** [self.parent[i]] and [self.parent[i] = v], and the same for the
    charge arrays. *)
Definition parent_get (i : Z) : M t Z :=
  fun u => (getitem (parent u) i, u).
Definition parent_set (i v : Z) : M t unit :=
  fun u => match setitem (parent u) i v with
           | Ok p => (Ok tt, set_parent p u)
           | Raise e => (Raise e, u)
           end.
Definition z2_get (i : Z) : M t Z :=
  fun u => (getitem (z2_charge u) i, u).
Definition z2_set (i v : Z) : M t unit :=
  fun u => match setitem (z2_charge u) i v with
           | Ok c => (Ok tt, set_z2_charge c u)
           | Raise e => (Raise e, u)
           end.
Definition z4_get (i : Z) : M t Z :=
  fun u => (getitem (z4_charge u) i, u).
Definition z4_set (i v : Z) : M t unit :=
  fun u => match setitem (z4_charge u) i v with
           | Ok c => (Ok tt, set_z4_charge c u)
           | Raise e => (Raise e, u)
           end.

(** [__init__(self, n)] *)
Definition init (n : nat) : t := mk (arange n) (zeros n) (zeros n).

(** [find(self, i)]; [depth] is the number of frames still available.
<<
    if self.parent[i] == i: return i
    self.parent[i] = self.find(self.parent[i])
    return self.parent[i]
>> *)
Fixpoint find (depth : nat) (i : Z) : M t Z :=
  match depth with
  | O => raise RecursionError
  | S depth' =>
      p <- parent_get i ;;
      if p =? i then ret i
      else
        p <- parent_get i ;;
        r <- find depth' p ;;
        parent_set i r ;;;
        parent_get i
  end.

(** [union(self, i, j)]
<<
    root_i, root_j = self.find(i), self.find(j)
    if root_i != root_j:
        self.parent[root_j] = root_i
        self.z2_charge[root_i] = (self.z2_charge[root_i] + self.z2_charge[root_j]) % 2
        self.z4_charge[root_i] = (self.z4_charge[root_i] + self.z4_charge[root_j]) % 4
        return True
    return False
>> *)
Definition union (depth : nat) (i j : Z) : M t bool :=
  root_i <- find depth i ;;
  root_j <- find depth j ;;
  if negb (root_i =? root_j) then
    parent_set root_j root_i ;;;
    a_i <- z2_get root_i ;;
    a_j <- z2_get root_j ;;
    z2_set root_i ((a_i + a_j) mod 2) ;;;
    b_i <- z4_get root_i ;;
    b_j <- z4_get root_j ;;
    z4_set root_i ((b_i + b_j) mod 4) ;;;
    ret true
  else ret false.

(** [add_node(self, rng)]; [a] and [b] are the values drawn by
    [rng.integers(0, 2)] and [rng.integers(0, 4)]. *)
Definition add_node (a b : Z) (u : t) : t :=
  let new_idx := Z.of_nat (length (parent u)) in
  mk (parent u ++ [new_idx]) (z2_charge u ++ [a]) (z4_charge u ++ [b]).

End TopologicalPhaseUnionFind.

Module UF := TopologicalPhaseUnionFind.

(** *** Representatives and conserved totals *)

(** [reaches p h k r]: following [p] from node [k] ends, after [h] steps,
    at the node [r] that is its own parent. *)
Inductive reaches (p : list Z) : nat -> nat -> nat -> Prop :=
| reaches_root k :
    p !! k = Some (Z.of_nat k) -> reaches p 0 k k
| reaches_step h k q r :
    p !! k = Some (Z.of_nat q) -> q <> k -> reaches p h q r ->
    reaches p (S h) k r.

(** Node [k] is a current representative. *)
Definition is_root (p : list Z) (k : nat) : bool :=
  bool_decide (p !! k = Some (Z.of_nat k)).

Fixpoint zsum (f : nat -> Z) (n : nat) : Z :=
  match n with
  | O => 0
  | S m => zsum f m + f m
  end.

(** The sum of [w] over the current representatives. *)
Definition root_sum (p : list Z) (w : nat -> Z) : Z :=
  zsum (fun k => if is_root p k then w k else 0) (length p).

Definition charge_at (c : list Z) (k : nat) : Z := default 0 (c !! k).

(** The sum over all current representatives of a charge, modulo [m]. *)
Definition total_charge (m : Z) (p c : list Z) : Z :=
  root_sum p (charge_at c) mod m.

Definition count_roots (p : list Z) : Z := root_sum p (fun _ => 1).

(** A client's calls; an exception is caught by the caller and the object
    is used further. *)
Inductive call : Type :=
| Union (i j : Z)
| AddNode (a b : Z).

Fixpoint run (depth : nat) (calls : list call) (u : UF.t) : UF.t :=
  match calls with
  | [] => u
  | Union i j :: rest => run depth rest (snd (UF.union depth i j u))
  | AddNode a b :: rest => run depth rest (UF.add_node a b u)
  end.

(** The charges each node was created with, in node order: the [n] nodes
    of the constructor carry zeros, an added node the values drawn. *)
Fixpoint created (calls : list call) : list (Z * Z) :=
  match calls with
  | [] => []
  | Union _ _ :: rest => created rest
  | AddNode a b :: rest => (a, b) :: created rest
  end.

Definition singleton_charges (n : nat) (calls : list call) : list (Z * Z) :=
  replicate n (0, 0) ++ created calls.

Definition sum_list_Z (l : list Z) : Z := foldr Z.add 0 l.


(** ** numpy on float vectors *)

(** [np.zeros(n)] *)
Definition np_zeros (n : Z) : outcome (list float) :=
  if n <? 0 then Raise ValueError else Ok (replicate (Z.to_nat n) 0%float).

(** [a + b] on one-dimensional arrays: equal lengths, or one of length 1
    that is broadcast; anything else raises [ValueError]. *)
Definition np_add (a b : list float) : outcome (list float) :=
  if (length a =? length b)%nat then Ok (zip_with PrimFloat.add a b)
  else match a, b with
       | [x], _ => Ok ((fun y => x + y)%float <$> b)
       | _, [y] => Ok ((fun x => x + y)%float <$> a)
       | _, _ => Raise ValueError
       end.

(** [a += b]: the result keeps the shape of [a]. *)
Definition np_iadd (a b : list float) : outcome (list float) :=
  if (length a =? length b)%nat then Ok (zip_with PrimFloat.add a b)
  else match b with
       | [y] => Ok ((fun x => x + y)%float <$> a)
       | _ => Raise ValueError
       end.

(** [c * a] for a Python float [c]. *)
Definition np_scale (c : float) (a : list float) : list float :=
  (fun x => c * x)%float <$> a.

(** [np.abs(a) > eps] *)
Definition np_abs_gt (a : list float) (eps : float) : list bool :=
  (fun x => eps <? abs x)%float <$> a.

(** [a[mask]] for a boolean mask of the length of [a]. *)
Fixpoint take_mask {A} (mask : list bool) (a : list A) : list A :=
  match mask, a with
  | true :: mask', x :: a' => x :: take_mask mask' a'
  | false :: mask', _ :: a' => take_mask mask' a'
  | _, _ => []
  end.

(** [a[mask] = vals]: the selected cells take the values in order. *)
Fixpoint put_mask {A} (mask : list bool) (a vals : list A) : list A :=
  match mask, a with
  | true :: mask', x :: a' =>
      match vals with
      | v :: vals' => v :: put_mask mask' a' vals'
      | [] => x :: put_mask mask' a' []
      end
  | false :: mask', x :: a' => x :: put_mask mask' a' vals
  | _, _ => a
  end.

(** [a[mask] += b[mask]]; a mask of another length than [a] raises
    [IndexError]. *)
Definition np_masked_iadd (a : list float) (mask : list bool) (b : list float)
  : outcome (list float) :=
  if (length mask =? length a)%nat && (length mask =? length b)%nat then
    match np_iadd (take_mask mask a) (take_mask mask b) with
    | Ok vals => Ok (put_mask mask a vals)
    | Raise e => Raise e
    end
  else Raise IndexError.

(** [np.clip(x, lo, hi)], numpy's clip loop: a NaN stays, otherwise the
    larger of [x] and [lo], then the smaller of that and [hi]. *)
Definition clip_max (a b : float) : float :=
  if is_nan a || (b <? a)%float then a else b.
Definition clip_min (a b : float) : float :=
  if is_nan a || (a <? b)%float then a else b.
Definition np_clip1 (x lo hi : float) : float := clip_min (clip_max x lo) hi.
Definition np_clip (a : list float) (lo hi : float) : list float :=
  (fun x => np_clip1 x lo hi) <$> a.

(** [np.roll(a, shift)] *)
Definition np_roll {A} (a : list A) (shift : Z) : list A :=
  match length a with
  | O => a
  | n =>
      let k := Z.to_nat (shift mod Z.of_nat n) in
      drop (n - k) a ++ take (n - k) a
  end.

(** [np.array_split(a, sections)]: [len(a) % sections] chunks of
    [len(a) // sections + 1] items, then the rest of [len(a) // sections]. *)
Fixpoint split_sizes {A} (sizes : list nat) (a : list A) : list (list A) :=
  match sizes with
  | [] => []
  | k :: sizes' => take k a :: split_sizes sizes' (drop k a)
  end.

Definition np_array_split {A} (a : list A) (sections : nat) : list (list A) :=
  let each := (length a / sections)%nat in
  let extras := (length a mod sections)%nat in
  split_sizes (replicate extras (S each) ++ replicate (sections - extras) each) a.

(** ** Python containers and formatting *)

(** [range(n)] *)
Definition py_range (n : Z) : list Z := Z.of_nat <$> seq 0 (Z.to_nat n).

(** [d.append(x)] on a [deque(maxlen=m)]. *)
Definition deque_append {A} (maxlen : Z) (x : A) (d : list A) : list A :=
  let d' := d ++ [x] in
  drop (length d' - Z.to_nat maxlen) d'.

(** [f"{n:04d}"] *)
Definition zero_pad (width : nat) (digits : string) : string :=
  String.concat "" (replicate (width - String.length digits) "0") +:+ digits.

Definition format_04d (n : Z) : string :=
  if n <? 0 then "-" +:+ zero_pad 3 (pretty (Z.to_N (- n)))
  else zero_pad 4 (pretty (Z.to_N n)).

(** [for x in l: body(x)] *)
Fixpoint for_each {S A} (l : list A) (body : A -> M S unit) : M S unit :=
  match l with
  | [] => ret tt
  | x :: l' => body x ;;; for_each l' body
  end.

(** ** Collaborators *)

(** The objects of libraries the simulation holds: a seeded
    [np.random.Generator], numpy's process-wide legacy generator (the one
    behind [np.random.rand]), the [Multiverse] and the sklearn tree. *)
Class Types : Type := {
  Generator : Type;
  RandomState : Type;
  Multiverse : Type;
  DecisionTreeClassifier : Type
}.

(** Library calls whose value the file does not fix. A draw returns the
    value and the generator advanced. *)
Class Library `{Types} : Type := {
  (** frames [find] may open before the interpreter raises *)
  recursion_depth : nat;
  (** [np.random.default_rng(seed)] *)
  default_rng : Z -> Generator;
  (** [rng.uniform(lo, hi)] and [rng.uniform(lo, hi, size=n)] *)
  rng_uniform : float -> float -> Generator -> float * Generator;
  rng_uniform_array : float -> float -> Z -> Generator -> outcome (list float) * Generator;
  (** [rng.integers(lo, hi, size=n)] and [rng.integers(hi)] *)
  rng_integers_array : Z -> Z -> Z -> Generator -> outcome (list Z) * Generator;
  rng_integers : Z -> Generator -> Z * Generator;
  (** [rng.random()] *)
  rng_random : Generator -> float * Generator;
  (** [rng.normal(mu, sigma)] and [rng.normal(mu, sigma, size=n)] *)
  rng_normal : float -> float -> Generator -> float * Generator;
  rng_normal_array : float -> float -> Z -> Generator -> list float * Generator;
  (** [rng.choice(items, p=p)]: the position of the item drawn *)
  rng_choice_p : nat -> list float -> Generator -> outcome nat * Generator;
  (** [np.sum], [np.mean], [np.std] *)
  np_sum : list float -> float;
  np_mean : list float -> float;
  np_std : list float -> float;
  (** [np.real(op @ v)] for a complex matrix given by rows of (re, im) *)
  np_real_matmul : list (list (float * float)) -> list float -> outcome (list float);
  (** v7.0 lines 288-296: [node_count] tensors of shape (bond, 2, bond)
      drawn with [np.random.rand] and contracted with a copy of the
      stability vector through [np.einsum] and [np.mean]. *)
  mps_sweep : Z -> Z -> list float -> RandomState -> outcome (list float) * RandomState;
  (** [DecisionTreeClassifier(max_depth=3)], and [fit] followed by
      [feature_importances_] *)
  tree_new : Z -> DecisionTreeClassifier;
  tree_fit : DecisionTreeClassifier -> list float -> list float -> list bool ->
             outcome (DecisionTreeClassifier * list float);
  (** [f"{x:.2f}"] *)
  format_2f : float -> string
}.

(** ** AGIEntity and Simulation: the objects *)

Record AGIEntity : Type := mkAGIEntity {
  agi_id : string;
  origin : Z;
  strength : float;
  strategy : string;
  ethical_state : list float;
  historical_alignment : list float;
  pauli_weights : list float
}.

Definition set_strength (v : float) (a : AGIEntity) : AGIEntity :=
  mkAGIEntity (agi_id a) (origin a) v (strategy a) (ethical_state a) (historical_alignment a) (pauli_weights a).
Definition set_ethical_state (v : list float) (a : AGIEntity) : AGIEntity :=
  mkAGIEntity (agi_id a) (origin a) (strength a) (strategy a) v (historical_alignment a) (pauli_weights a).
Definition set_pauli_weights (v : list float) (a : AGIEntity) : AGIEntity :=
  mkAGIEntity (agi_id a) (origin a) (strength a) (strategy a) (ethical_state a) (historical_alignment a) v.

(** [Config], v7.0 lines 45-63. *)
Record Config : Type := mkConfig {
  PAGE_COUNT : Z;
  CYCLE_LIMIT : Z;
  SEED : Z;
  NUM_PARALLEL_UNIVERSES : Z;
  ENTANGLEMENT_PROBABILITY : float;
  ENTANGLEMENT_STABILITY_WEIGHT : float;
  VOID_THRESHOLD : float;
  USE_MULTIPROCESSING : bool;
  VOID_ENTROPY_RANGE : float * float;
  TREND_HISTORY_LENGTH : Z;
  ADAPTIVE_TIMESTEP_ENABLED : bool;
  MPS_BOND_DIMENSION : Z
}.

(** [Config.__init__(self, args)] *)
Definition Config_init (page_count seed num_parallel_universes : Z)
    (entanglement_probability entanglement_stability_weight void_threshold : float)
    (use_multiprocessing : bool) : Config :=
  mkConfig page_count 100000 seed num_parallel_universes
    entanglement_probability entanglement_stability_weight void_threshold
    use_multiprocessing ((-0.5)%float, 0.5%float) 50 true 4.

(** The attributes of a [Simulation]; [usm] exists only once [update] has
    set it. *)
Record Simulation {T : Types} : Type := mkSimulation {
  config : Config;
  rng : Generator;
  cycle : Z;
  node_count : Z;
  stability : list float;
  sentience : list float;
  archetype_ids : list Z;
  emotion_ids : list Z;
  bosons : list Z;
  fermions : list Z;
  uf : UF.t;
  multiverse : Multiverse;
  agi_entities : list AGIEntity;
  void_entropy : float;
  event_log : list string;
  void_entropy_trend : list float;
  usm_trend : list float;
  free_energy : float;
  energy_leakage : float;
  eqgm_model : DecisionTreeClassifier;
  eqgm_features : list string;
  halt : bool;
  usm : option float
}.
Arguments mkSimulation {T}.

Definition set_rng `{Types} (v : Generator) (s : Simulation) : Simulation :=
  mkSimulation (config s) v (cycle s) (node_count s) (stability s) (sentience s) (archetype_ids s) (emotion_ids s) (bosons s) (fermions s) (uf s) (multiverse s) (agi_entities s) (void_entropy s) (event_log s) (void_entropy_trend s) (usm_trend s) (free_energy s) (energy_leakage s) (eqgm_model s) (eqgm_features s) (halt s) (usm s).
Definition set_cycle `{Types} (v : Z) (s : Simulation) : Simulation :=
  mkSimulation (config s) (rng s) v (node_count s) (stability s) (sentience s) (archetype_ids s) (emotion_ids s) (bosons s) (fermions s) (uf s) (multiverse s) (agi_entities s) (void_entropy s) (event_log s) (void_entropy_trend s) (usm_trend s) (free_energy s) (energy_leakage s) (eqgm_model s) (eqgm_features s) (halt s) (usm s).
Definition set_node_count `{Types} (v : Z) (s : Simulation) : Simulation :=
  mkSimulation (config s) (rng s) (cycle s) v (stability s) (sentience s) (archetype_ids s) (emotion_ids s) (bosons s) (fermions s) (uf s) (multiverse s) (agi_entities s) (void_entropy s) (event_log s) (void_entropy_trend s) (usm_trend s) (free_energy s) (energy_leakage s) (eqgm_model s) (eqgm_features s) (halt s) (usm s).
Definition set_stability `{Types} (v : list float) (s : Simulation) : Simulation :=
  mkSimulation (config s) (rng s) (cycle s) (node_count s) v (sentience s) (archetype_ids s) (emotion_ids s) (bosons s) (fermions s) (uf s) (multiverse s) (agi_entities s) (void_entropy s) (event_log s) (void_entropy_trend s) (usm_trend s) (free_energy s) (energy_leakage s) (eqgm_model s) (eqgm_features s) (halt s) (usm s).
Definition set_sentience `{Types} (v : list float) (s : Simulation) : Simulation :=
  mkSimulation (config s) (rng s) (cycle s) (node_count s) (stability s) v (archetype_ids s) (emotion_ids s) (bosons s) (fermions s) (uf s) (multiverse s) (agi_entities s) (void_entropy s) (event_log s) (void_entropy_trend s) (usm_trend s) (free_energy s) (energy_leakage s) (eqgm_model s) (eqgm_features s) (halt s) (usm s).
Definition set_archetype_ids `{Types} (v : list Z) (s : Simulation) : Simulation :=
  mkSimulation (config s) (rng s) (cycle s) (node_count s) (stability s) (sentience s) v (emotion_ids s) (bosons s) (fermions s) (uf s) (multiverse s) (agi_entities s) (void_entropy s) (event_log s) (void_entropy_trend s) (usm_trend s) (free_energy s) (energy_leakage s) (eqgm_model s) (eqgm_features s) (halt s) (usm s).
Definition set_emotion_ids `{Types} (v : list Z) (s : Simulation) : Simulation :=
  mkSimulation (config s) (rng s) (cycle s) (node_count s) (stability s) (sentience s) (archetype_ids s) v (bosons s) (fermions s) (uf s) (multiverse s) (agi_entities s) (void_entropy s) (event_log s) (void_entropy_trend s) (usm_trend s) (free_energy s) (energy_leakage s) (eqgm_model s) (eqgm_features s) (halt s) (usm s).
Definition set_bosons `{Types} (v : list Z) (s : Simulation) : Simulation :=
  mkSimulation (config s) (rng s) (cycle s) (node_count s) (stability s) (sentience s) (archetype_ids s) (emotion_ids s) v (fermions s) (uf s) (multiverse s) (agi_entities s) (void_entropy s) (event_log s) (void_entropy_trend s) (usm_trend s) (free_energy s) (energy_leakage s) (eqgm_model s) (eqgm_features s) (halt s) (usm s).
Definition set_fermions `{Types} (v : list Z) (s : Simulation) : Simulation :=
  mkSimulation (config s) (rng s) (cycle s) (node_count s) (stability s) (sentience s) (archetype_ids s) (emotion_ids s) (bosons s) v (uf s) (multiverse s) (agi_entities s) (void_entropy s) (event_log s) (void_entropy_trend s) (usm_trend s) (free_energy s) (energy_leakage s) (eqgm_model s) (eqgm_features s) (halt s) (usm s).
Definition set_uf `{Types} (v : UF.t) (s : Simulation) : Simulation :=
  mkSimulation (config s) (rng s) (cycle s) (node_count s) (stability s) (sentience s) (archetype_ids s) (emotion_ids s) (bosons s) (fermions s) v (multiverse s) (agi_entities s) (void_entropy s) (event_log s) (void_entropy_trend s) (usm_trend s) (free_energy s) (energy_leakage s) (eqgm_model s) (eqgm_features s) (halt s) (usm s).
Definition set_multiverse `{Types} (v : Multiverse) (s : Simulation) : Simulation :=
  mkSimulation (config s) (rng s) (cycle s) (node_count s) (stability s) (sentience s) (archetype_ids s) (emotion_ids s) (bosons s) (fermions s) (uf s) v (agi_entities s) (void_entropy s) (event_log s) (void_entropy_trend s) (usm_trend s) (free_energy s) (energy_leakage s) (eqgm_model s) (eqgm_features s) (halt s) (usm s).
Definition set_agi_entities `{Types} (v : list AGIEntity) (s : Simulation) : Simulation :=
  mkSimulation (config s) (rng s) (cycle s) (node_count s) (stability s) (sentience s) (archetype_ids s) (emotion_ids s) (bosons s) (fermions s) (uf s) (multiverse s) v (void_entropy s) (event_log s) (void_entropy_trend s) (usm_trend s) (free_energy s) (energy_leakage s) (eqgm_model s) (eqgm_features s) (halt s) (usm s).
Definition set_void_entropy `{Types} (v : float) (s : Simulation) : Simulation :=
  mkSimulation (config s) (rng s) (cycle s) (node_count s) (stability s) (sentience s) (archetype_ids s) (emotion_ids s) (bosons s) (fermions s) (uf s) (multiverse s) (agi_entities s) v (event_log s) (void_entropy_trend s) (usm_trend s) (free_energy s) (energy_leakage s) (eqgm_model s) (eqgm_features s) (halt s) (usm s).
Definition set_event_log `{Types} (v : list string) (s : Simulation) : Simulation :=
  mkSimulation (config s) (rng s) (cycle s) (node_count s) (stability s) (sentience s) (archetype_ids s) (emotion_ids s) (bosons s) (fermions s) (uf s) (multiverse s) (agi_entities s) (void_entropy s) v (void_entropy_trend s) (usm_trend s) (free_energy s) (energy_leakage s) (eqgm_model s) (eqgm_features s) (halt s) (usm s).
Definition set_void_entropy_trend `{Types} (v : list float) (s : Simulation) : Simulation :=
  mkSimulation (config s) (rng s) (cycle s) (node_count s) (stability s) (sentience s) (archetype_ids s) (emotion_ids s) (bosons s) (fermions s) (uf s) (multiverse s) (agi_entities s) (void_entropy s) (event_log s) v (usm_trend s) (free_energy s) (energy_leakage s) (eqgm_model s) (eqgm_features s) (halt s) (usm s).
Definition set_usm_trend `{Types} (v : list float) (s : Simulation) : Simulation :=
  mkSimulation (config s) (rng s) (cycle s) (node_count s) (stability s) (sentience s) (archetype_ids s) (emotion_ids s) (bosons s) (fermions s) (uf s) (multiverse s) (agi_entities s) (void_entropy s) (event_log s) (void_entropy_trend s) v (free_energy s) (energy_leakage s) (eqgm_model s) (eqgm_features s) (halt s) (usm s).
Definition set_free_energy `{Types} (v : float) (s : Simulation) : Simulation :=
  mkSimulation (config s) (rng s) (cycle s) (node_count s) (stability s) (sentience s) (archetype_ids s) (emotion_ids s) (bosons s) (fermions s) (uf s) (multiverse s) (agi_entities s) (void_entropy s) (event_log s) (void_entropy_trend s) (usm_trend s) v (energy_leakage s) (eqgm_model s) (eqgm_features s) (halt s) (usm s).
Definition set_energy_leakage `{Types} (v : float) (s : Simulation) : Simulation :=
  mkSimulation (config s) (rng s) (cycle s) (node_count s) (stability s) (sentience s) (archetype_ids s) (emotion_ids s) (bosons s) (fermions s) (uf s) (multiverse s) (agi_entities s) (void_entropy s) (event_log s) (void_entropy_trend s) (usm_trend s) (free_energy s) v (eqgm_model s) (eqgm_features s) (halt s) (usm s).
Definition set_eqgm_model `{Types} (v : DecisionTreeClassifier) (s : Simulation) : Simulation :=
  mkSimulation (config s) (rng s) (cycle s) (node_count s) (stability s) (sentience s) (archetype_ids s) (emotion_ids s) (bosons s) (fermions s) (uf s) (multiverse s) (agi_entities s) (void_entropy s) (event_log s) (void_entropy_trend s) (usm_trend s) (free_energy s) (energy_leakage s) v (eqgm_features s) (halt s) (usm s).
Definition set_eqgm_features `{Types} (v : list string) (s : Simulation) : Simulation :=
  mkSimulation (config s) (rng s) (cycle s) (node_count s) (stability s) (sentience s) (archetype_ids s) (emotion_ids s) (bosons s) (fermions s) (uf s) (multiverse s) (agi_entities s) (void_entropy s) (event_log s) (void_entropy_trend s) (usm_trend s) (free_energy s) (energy_leakage s) (eqgm_model s) v (halt s) (usm s).
Definition set_halt `{Types} (v : bool) (s : Simulation) : Simulation :=
  mkSimulation (config s) (rng s) (cycle s) (node_count s) (stability s) (sentience s) (archetype_ids s) (emotion_ids s) (bosons s) (fermions s) (uf s) (multiverse s) (agi_entities s) (void_entropy s) (event_log s) (void_entropy_trend s) (usm_trend s) (free_energy s) (energy_leakage s) (eqgm_model s) (eqgm_features s) v (usm s).
Definition set_usm `{Types} (v : option float) (s : Simulation) : Simulation :=
  mkSimulation (config s) (rng s) (cycle s) (node_count s) (stability s) (sentience s) (archetype_ids s) (emotion_ids s) (bosons s) (fermions s) (uf s) (multiverse s) (agi_entities s) (void_entropy s) (event_log s) (void_entropy_trend s) (usm_trend s) (free_energy s) (energy_leakage s) (eqgm_model s) (eqgm_features s) (halt s) v.

(** Modelled from the spec: the numeric kernels, the metric and
    [Multiverse] are called by v7.0 and defined nowhere in it (it refers
    to v6.0 for them). Section 4.5 of the specification treats a kernel as
    a pure function of the current state with a delta vector as value; the
    one kernel that is handed the generator returns it advanced. *)
Class Kernels `{Types} : Type := {
  unified_field_tensor_vec : list float -> list float -> list float;
  entropic_resonance_vec : list float -> Generator -> list float * Generator;
  quantum_amplified_update : list float -> list float;
  entropy_field_propagation : list float -> float -> list float;
  consciousness_phase_optimized : list Z -> list Z -> list Z -> list float;
  utopian_stability_metric : Simulation -> float;
  (** [Multiverse(1, n, rng)] and [multiverse.update(rng)] *)
  Multiverse_init : Z -> Z -> Generator -> Multiverse * Generator;
  Multiverse_update : Multiverse -> Generator -> Multiverse * Generator
}.

(** A draw from the simulation's generator. *)
Definition draw `{Types} {A} (f : Generator -> A * Generator) : M Simulation A :=
  fun s => let '(x, g) := f (rng s) in (Ok x, set_rng g s).

Definition draw_checked `{Types} {A} (f : Generator -> outcome A * Generator)
  : M Simulation A :=
  fun s => let '(x, g) := f (rng s) in (x, set_rng g s).

(** ** AGIEntity (v7.0 lines 98-149) *)

Module AGIEntity.

Definition sigma_x : list (list (float * float)) :=
  [ [(0, 0); (0, 0); (1, 0)];
    [(0, 0); (1, 0); (0, 0)];
    [(1, 0); (0, 0); (0, 0)] ]%float.
Definition sigma_y : list (list (float * float)) :=
  [ [(0, 0); (0, -1); (0, 0)];
    [(0, 1); (0, 0); (0, 0)];
    [(0, 0); (0, 0); (1, 0)] ]%float.
Definition sigma_z : list (list (float * float)) :=
  [ [(1, 0); (0, 0); (0, 0)];
    [(0, 0); (-1, 0); (0, 0)];
    [(0, 0); (0, 0); (1, 0)] ]%float.

(** [_get_proposed_adjustment(self, sim)] *)
Definition _get_proposed_adjustment (self : AGIEntity) : outcome float :=
  if String.eqb (strategy self) "cooperative" then
    match getitem (ethical_state self) 2 with
    | Ok e2 => Ok ((e2 - 0.5) * 0.01)%float
    | Raise e => Raise e
    end
  else Ok 0%float.

(** [_is_harmful(self, adjustment, sim)] *)
Definition _is_harmful `{Types} (self : AGIEntity) (adjustment : float)
    (sim : Simulation) : outcome bool :=
  if Z.of_nat (length (stability sim)) <=? origin self then Ok true
  else match getitem (stability sim) (origin self) with
       | Ok x => Ok (x + adjustment <? 0.1)%float
       | Raise e => Raise e
       end.

(** [_update_ape_ethics(self, rng)], on the entity and the generator. *)
Definition _update_ape_ethics `{Library} : M (AGIEntity * Generator) unit :=
  noise <- (fun '(a, g) =>
              let '(v, g') := rng_normal_array 0 0.01 3 g in (Ok v, (a, g'))) ;;
  w <- gets (fun '(a, _) => pauli_weights a) ;;
  w <- lift (np_iadd w noise) ;;
  modify (fun '(a, g) => (set_pauli_weights w a, g)) ;;;
  let w := np_clip w 0 1 in
  modify (fun '(a, g) => (set_pauli_weights w a, g)) ;;;
  let total := np_sum w in
  let w := (fun x => x / total)%float <$> w in
  modify (fun '(a, g) => (set_pauli_weights w a, g)) ;;;
  k <- (fun '(a, g) => let '(k, g') := rng_choice_p 3 w g in (k, (a, g'))) ;;
  let op := match k with O => sigma_x | 1%nat => sigma_y | _ => sigma_z end in
  e <- gets (fun '(a, _) => ethical_state a) ;;
  new_state <- lift (np_real_matmul op e) ;;
  modify (fun '(a, g) => (set_ethical_state (np_clip new_state 0 1) a, g)).

(** [update(self, sim)], on the entity and the simulation. *)
Definition update `{Library} : M (AGIEntity * Simulation) unit :=
  self <- gets fst ;;
  proposed_adjustment <- lift (_get_proposed_adjustment self) ;;
  sim <- gets snd ;;
  harmful <- lift (_is_harmful self proposed_adjustment sim) ;;
  if harmful then ret tt
  else
    zoom (fun '(a, s) => (a, rng s)) (fun '(a, g) '(_, s) => (a, set_rng g s))
      _update_ape_ethics ;;;
    self <- gets fst ;;
    sim <- gets snd ;;
    x <- lift (getitem (stability sim) (origin self)) ;;
    st <- lift (setitem (stability sim) (origin self)
                  (np_clip1 (x + proposed_adjustment) 0 1)) ;;
    modify (fun '(a, s) => (a, set_stability st s)) ;;;
    self <- gets fst ;;
    e2 <- lift (getitem (ethical_state self) 2) ;;
    let grown := (strength self + 0.001 * (1 + e2))%float in
    modify (fun '(a, s) =>
              (set_strength (if (grown <? 1)%float then grown else 1%float) a, s)).

End AGIEntity.

(** ** Simulation (v7.0 lines 152-327) *)

Module Simulation.

(** [log_event(self, event_type, message)] *)
Definition event_line (c : Z) (event_type message : string) : string :=
  "[C" +:+ format_04d c +:+ "] " +:+ event_type +:+ ": " +:+ message.

Definition log_event `{Types} (event_type message : string) : M Simulation unit :=
  modify (fun s =>
    set_event_log
      (deque_append 20 (event_line (cycle s) event_type message) (event_log s)) s).

(** The seed of [reset]: ten modular squarings. *)
Definition vdf_seed (seed : Z) : Z :=
  Nat.iter 10 (fun b => (b ^ 2) mod (2 ^ 32 - 1)) seed.

(** [reset(self)] *)
Definition reset `{Library} `{!Kernels} : M Simulation unit :=
  cfg <- gets config ;;
  modify (set_rng (default_rng (vdf_seed (SEED cfg)))) ;;;
  modify (set_cycle 0) ;;;
  modify (set_node_count (PAGE_COUNT cfg)) ;;;
  n <- gets node_count ;;
  st <- draw_checked (rng_uniform_array 0.4 0.7 n) ;;
  modify (set_stability st) ;;;
  z <- lift (np_zeros n) ;;
  modify (set_sentience z) ;;;
  a <- draw_checked (rng_integers_array 0 8 n) ;;
  modify (set_archetype_ids a) ;;;
  a <- draw_checked (rng_integers_array 0 8 n) ;;
  modify (set_emotion_ids a) ;;;
  a <- draw_checked (rng_integers_array 1 6 n) ;;
  modify (set_bosons a) ;;;
  a <- draw_checked (rng_integers_array 1 6 n) ;;
  modify (set_fermions a) ;;;
  modify (set_uf (UF.init (Z.to_nat n))) ;;;
  mv <- draw (Multiverse_init 1 (NUM_PARALLEL_UNIVERSES cfg)) ;;
  modify (set_multiverse mv) ;;;
  modify (set_agi_entities []) ;;;
  ve <- draw (rng_uniform (fst (VOID_ENTROPY_RANGE cfg)) (snd (VOID_ENTROPY_RANGE cfg))) ;;
  modify (set_void_entropy ve) ;;;
  modify (set_event_log []) ;;;
  (if TREND_HISTORY_LENGTH cfg <? 0 then raise ValueError else ret tt) ;;;
  modify (set_void_entropy_trend []) ;;;
  modify (set_usm_trend []) ;;;
  modify (set_free_energy 1000%float) ;;;
  modify (set_energy_leakage 0%float) ;;;
  modify (set_eqgm_model (tree_new 3)) ;;;
  modify (set_eqgm_features []) ;;;
  modify (set_halt false) ;;;
  log_event "System" "Reality initialized (v7.0 God-Tier).".

(** [_fractal_light_cone_skip(self)] *)
Definition _fractal_light_cone_skip `{Library} : M Simulation bool :=
  st <- gets stability ;;
  let variances := np_std <$> np_array_split st 4 in
  if (np_mean variances <? 0.005)%float then
    c <- gets cycle ;;
    (if c mod 20 =? 0 then log_event "Scheduler" "Fractal skip triggered."
     else ret tt) ;;;
    ret true
  else ret false.

(** Lines 235-239 of [update]: the sum of the kernels' deltas. *)
Definition stability_adjustment `{Library} `{!Kernels} : M Simulation (list float) :=
  n <- gets node_count ;;
  adj <- lift (np_zeros n) ;;
  s <- gets id ;;
  adj <- lift (np_iadd adj (unified_field_tensor_vec (stability s) (sentience s))) ;;
  k <- draw (entropic_resonance_vec (stability s)) ;;
  adj <- lift (np_iadd adj k) ;;
  adj <- lift (np_iadd adj (quantum_amplified_update (stability s))) ;;
  adj <- lift (np_iadd adj (entropy_field_propagation (stability s) (void_entropy s))) ;;
  ret adj.

(** Lines 242-243 of [update], the sparsity gate: only the entries whose
    delta exceeds 1e-5 in magnitude are written. *)
Definition dirac_sparse_apply (st stability_adj : list float) : outcome (list float) :=
  let mask := np_abs_gt stability_adj 1e-5 in
  np_masked_iadd st mask stability_adj.

(** The delta applied to every entry, as the specification words it and
    as v8.0 line 268 does: [self.stability += stability_adj]. *)
Definition full_apply (st stability_adj : list float) : outcome (list float) :=
  np_iadd st stability_adj.

(** [update_entanglement(self)]; the process-wide numpy generator is the
    second component of the state. *)
Definition entangle_node `{Library} (i : Z) : M Simulation unit :=
  x <- draw rng_random ;;
  p <- gets (fun s => ENTANGLEMENT_PROBABILITY (config s)) ;;
  if (x <? p)%float then
    n <- gets node_count ;;
    j <- draw (rng_integers n) ;;
    if negb (i =? j) then
      zoom uf set_uf (UF.union recursion_depth i j) ;;; ret tt
    else ret tt
  else ret tt.

Definition on_sim `{Types} {A} (m : M Simulation A) : M (Simulation * RandomState) A :=
  zoom fst (fun s w => (s, snd w)) m.

Definition update_entanglement `{Library} : M (Simulation * RandomState) unit :=
  n <- on_sim (gets node_count) ;;
  on_sim (for_each (py_range n) entangle_node) ;;;
  cfg <- on_sim (gets config) ;;
  st <- on_sim (gets stability) ;;
  state_vector <- zoom snd (fun g w => (fst w, g))
                    (mps_sweep (MPS_BOND_DIMENSION cfg) n st) ;;
  c <- on_sim (gets cycle) ;;
  (if n =? 0 then raise ZeroDivisionError else ret tt) ;;;
  let coherent_field := np_roll state_vector (c mod n) in
  let w := ENTANGLEMENT_STABILITY_WEIGHT cfg in
  st <- on_sim (gets stability) ;;
  blended <- lift (np_add (np_scale (1 - w) st) (np_scale w coherent_field)) ;;
  on_sim (modify (set_stability blended)).

(** [_update_eqgm(self)] *)
Definition _update_eqgm `{Library} : M Simulation unit :=
  s <- gets id ;;
  if (length (usm_trend s) <? 20)%nat then ret tt
  else
    let last_but_one (l : list float) :=
      drop (length l - 20) (take (length l - 1) l) in
    let labels :=
      (fun x => x <? 0.1)%float <$> drop (length (usm_trend s) - 19) (usm_trend s) in
    fitted <- lift (tree_fit (eqgm_model s) (last_but_one (usm_trend s))
                      (last_but_one (void_entropy_trend s)) labels) ;;
    modify (set_eqgm_model (fst fitted)) ;;;
    i0 <- lift (getitem (snd fitted) 0) ;;
    i1 <- lift (getitem (snd fitted) 1) ;;
    modify (set_eqgm_features
              ["USM Trend: " +:+ format_2f i0; "VE Trend: " +:+ format_2f i1]).

(** [update_emergence(self)]: [pass] in v7.0. *)
Definition update_emergence `{Types} : M Simulation unit := ret tt.

(** [for agi in self.agi_entities: agi.update(self)], entity [k] of the
    list. *)
Definition update_agi `{Library} (k : nat) : M Simulation unit :=
  fun s =>
    match agi_entities s !! k with
    | None => (Ok tt, s)
    | Some a =>
        let '(o, (a', s')) := AGIEntity.update (a, s) in
        (o, set_agi_entities (<[k:=a']> (agi_entities s')) s')
    end.

(** Lines 260-266 of [update]: the thermodynamic ledger. *)
Definition trl_update `{Library} (stability_adj : list float) : M Simulation unit :=
  let energy_cost := np_sum (abs <$> stability_adj) in
  modify (fun s => set_free_energy (free_energy s - energy_cost)%float s) ;;;
  fe <- gets free_energy ;;
  if (fe <? 0)%float then
    modify (set_energy_leakage (abs fe)) ;;;
    modify (set_halt true) ;;;
    log_event "TRL" "Thermodynamic collapse! Free energy exhausted."
  else ret tt.

(** Lines 241-246 of [update]: the gated write, the clamp, and the
    sentience of the cycle. *)
Definition apply_adjustment `{Library} `{!Kernels} (stability_adj : list float)
  : M Simulation unit :=
  st <- gets stability ;;
  st <- lift (dirac_sparse_apply st stability_adj) ;;
  modify (set_stability st) ;;;
  modify (fun s => set_stability (np_clip (stability s) 0 1) s) ;;;
  modify (fun s =>
    set_sentience
      (consciousness_phase_optimized (bosons s) (fermions s) (emotion_ids s)) s).

(** Line 249 of [update]: [for agi in self.agi_entities: agi.update(self)]. *)
Definition update_agis `{Library} : M Simulation unit :=
  agis <- gets agi_entities ;;
  for_each (seq 0 (length agis)) update_agi.

(** Line 251 of [update]: [self.multiverse.update(self.rng)]. *)
Definition update_multiverse `{Library} `{!Kernels} : M Simulation unit :=
  mv <- gets multiverse ;;
  mv <- draw (Multiverse_update mv) ;;
  modify (set_multiverse mv).

(** Lines 253-254 of [update]: the drift of the void entropy and its clamp. *)
Definition update_void_entropy `{Library} : M Simulation unit :=
  ve <- gets void_entropy ;;
  m <- gets (fun s => np_mean (stability s)) ;;
  noise <- draw (rng_normal 0 0.001) ;;
  modify (set_void_entropy (ve + (0.01 * (m - 0.5) + noise))%float) ;;;
  modify (fun s =>
    set_void_entropy
      (np_clip1 (void_entropy s) (fst (VOID_ENTROPY_RANGE (config s)))
         (snd (VOID_ENTROPY_RANGE (config s)))) s).

(** Lines 256-258 of [update]: one record for each trend. *)
Definition record_trends `{Types} `{!Kernels} : M Simulation unit :=
  modify (fun s =>
    set_void_entropy_trend
      (deque_append (TREND_HISTORY_LENGTH (config s)) (void_entropy s)
         (void_entropy_trend s)) s) ;;;
  modify (fun s => set_usm (Some (utopian_stability_metric s)) s) ;;;
  u <- gets usm ;;
  modify (fun s =>
    set_usm_trend
      (deque_append (TREND_HISTORY_LENGTH (config s)) (default 0%float u)
         (usm_trend s)) s).

(** [update(self)] *)
Definition update `{Library} `{!Kernels} : M (Simulation * RandomState) unit :=
  halted <- on_sim (gets halt) ;;
  if halted then ret tt
  else
    skip <- on_sim _fractal_light_cone_skip ;;
    if skip then ret tt
    else
      on_sim (modify (fun s => set_cycle (cycle s + 1) s)) ;;;
      stability_adj <- on_sim stability_adjustment ;;
      on_sim (apply_adjustment stability_adj) ;;;
      update_entanglement ;;;
      on_sim update_agis ;;;
      on_sim update_emergence ;;;
      on_sim update_multiverse ;;;
      on_sim update_void_entropy ;;;
      on_sim record_trends ;;;
      on_sim (trl_update stability_adj) ;;;
      c <- on_sim (gets cycle) ;;
      if c mod 100 =? 0 then on_sim _update_eqgm else ret tt.

End Simulation.

(** ** The main loop's commands *)

(** What the main loop does to the simulation: a cycle, or the [r] key. *)
Inductive command : Type :=
| Step
| ResetKey.

Definition exec `{Library} `{!Kernels} (c : command) : M (Simulation * RandomState) unit :=
  match c with
  | Step => Simulation.update
  | ResetKey => Simulation.on_sim Simulation.reset
  end.

Fixpoint exec_all `{Library} `{!Kernels} (cs : list command)
    (w : Simulation * RandomState) : Simulation * RandomState :=
  match cs with
  | [] => w
  | c :: cs' => exec_all cs' (snd (exec c w))
  end.

(** [Simulation(config)]: [reset] on an object that has its [config] only;
    the other attributes do not exist yet and [reset] reads none of them. *)
Definition blank `{Library} `{!Kernels} (cfg : Config) : Simulation :=
  mkSimulation cfg (default_rng 0) 0 0 [] [] [] [] [] [] (UF.init 0)
    (fst (Multiverse_init 1 0 (default_rng 0))) [] 0%float [] [] [] 0%float 0%float
    (tree_new 3) [] false None.

Definition Simulation_init `{Library} `{!Kernels} (cfg : Config) : outcome unit * Simulation :=
  Simulation.reset (blank cfg).

(** Each entry is 0, 1, strictly between them, or NaN. *)
Definition unit_or_nan (x : float) : bool :=
  is_nan x
  || (((0 <? x)%float || Leibniz.eqb x 0%float)
      && ((x <? 1)%float || Leibniz.eqb x 1%float)).

(** ** A reference instance of the collaborators

    Stand-ins that compute, for the executable examples: a counter as
    seeded generator, a scale factor as state of the process-wide
    generator, textbook reductions. *)

Definition float_of_Z (z : Z) : float := of_uint63 (Uint63.of_Z z).

Definition ref_unit (g : Z) : float :=
  (float_of_Z ((g * 37) mod 100) / 100)%float.

Definition ref_sum (a : list float) : float := foldl PrimFloat.add 0%float a.

Definition ref_mean (a : list float) : float :=
  (ref_sum a / float_of_Z (Z.of_nat (length a)))%float.

Definition ref_std (a : list float) : float :=
  let m := ref_mean a in
  sqrt (ref_mean ((fun x => (x - m) * (x - m))%float <$> a)).

Definition ref_real_matmul (m : list (list (float * float))) (v : list float)
  : outcome (list float) :=
  Ok ((fun row => ref_sum (zip_with (fun c x => fst c * x)%float row v)) <$> m).

Definition ref_types : Types :=
  {| Generator := Z; RandomState := float; Multiverse := unit;
     DecisionTreeClassifier := unit |}.

Definition ref_library : @Library ref_types :=
  {| recursion_depth := 1000;
     default_rng := fun seed => seed : @Generator ref_types;
     rng_uniform := fun lo hi g => ((lo + (hi - lo) * ref_unit g)%float, g + 1);
     rng_uniform_array := fun lo hi n g =>
       if n <? 0 then (Raise ValueError, g)
       else (Ok ((fun i => (lo + (hi - lo) * ref_unit (g + i))%float) <$> py_range n),
             g + n);
     rng_integers_array := fun lo hi n g =>
       if n <? 0 then (Raise ValueError, g)
       else (Ok ((fun i => lo + (g + i) mod (hi - lo)) <$> py_range n), g + n);
     rng_integers := fun hi g => (g mod hi, g + 1);
     rng_random := fun g => (ref_unit g, g + 1);
     rng_normal := fun mu sigma g => (mu, g + 1);
     rng_normal_array := fun mu sigma n g => (replicate (Z.to_nat n) mu, g + n);
     rng_choice_p := fun n p g => (Ok (Z.to_nat (g mod Z.of_nat n)), g + 1);
     np_sum := ref_sum;
     np_mean := ref_mean;
     np_std := ref_std;
     np_real_matmul := ref_real_matmul;
     mps_sweep := fun bond n st (g : @RandomState ref_types) =>
       (Ok (np_scale g st), g);
     tree_new := fun _ => tt : @DecisionTreeClassifier ref_types;
     tree_fit := fun t _ _ _ => Ok (t, [0.5; 0.5]%float);
     format_2f := fun _ => "0.50" |}.

Definition ref_kernels : @Kernels ref_types :=
  {| unified_field_tensor_vec := fun st _ => (fun x => 0.01 * (0.5 - x))%float <$> st;
     entropic_resonance_vec := fun st g => ((fun _ => 0%float) <$> st, g);
     quantum_amplified_update := fun st => (fun _ => 0%float) <$> st;
     entropy_field_propagation := fun st _ => (fun _ => 0%float) <$> st;
     consciousness_phase_optimized := fun b _ _ => (fun _ => 0%float) <$> b;
     utopian_stability_metric := fun s => ref_mean (@stability ref_types s);
     Multiverse_init := fun _ _ g => (tt : @Multiverse ref_types, g);
     Multiverse_update := fun mv g => (mv, g) |}.

(** The configuration of the examples: eight nodes, seed 42, coupling
    weight 0.2; and the simulation constructed from it. *)
Definition ref_config : Config := Config_init 8 42 1 0.05 0.2 0.5 false.

Definition ref_start : @Simulation ref_types :=
  snd (@Simulation_init ref_types ref_library ref_kernels ref_config).

Abbreviation ref_update := (@Simulation.update ref_types ref_library ref_kernels).

Abbreviation ref_run cs g :=
  (@exec_all ref_types ref_library ref_kernels cs (ref_start, g)).

(** ** Invariants and frames used by the proofs *)

(** *** The parent forest *)

(** Every node leads to a representative. *)
Definition forest (p : list Z) : Prop :=
  forall k, (k < length p)%nat -> exists h r, reaches p h k r.

(** No path is longer than the number of merged-away nodes. *)
Definition shallow (p : list Z) : Prop :=
  forall h k r, reaches p h k r ->
    Z.of_nat h + count_roots p <= Z.of_nat (length p).

(** [p'] is [p] with some paths shortened: same nodes, same
    representatives, same representative of every node. *)
Definition refines (p p' : list Z) : Prop :=
  length p' = length p /\
  (forall k, is_root p' k = is_root p k) /\
  (forall h k r, reaches p h k r ->
     exists h', (h' <= h)%nat /\ reaches p' h' k r).

(** The frames a call of [find] on index [i] needs above the length of
    the path: a negative index is never its own parent and costs one. *)
Definition extra_frame (i : Z) : nat := if i <? 0 then 1%nat else 0%nat.

(** The state invariant of the structure. *)
Definition consistent (u : UF.t) : Prop :=
  forest (UF.parent u) /\ shallow (UF.parent u) /\
  length (UF.z2_charge u) = length (UF.parent u) /\
  length (UF.z4_charge u) = length (UF.parent u).

(** The assignments of a merge of representative [b] into [a]. *)
Definition merge_roots (root_i root_j : Z) : M UF.t bool :=
  UF.parent_set root_j root_i ;;;
  a_i <- UF.z2_get root_i ;;
  a_j <- UF.z2_get root_j ;;
  UF.z2_set root_i ((a_i + a_j) mod 2) ;;;
  b_i <- UF.z4_get root_i ;;
  b_j <- UF.z4_get root_j ;;
  UF.z4_set root_i ((b_i + b_j) mod 4) ;;;
  ret true.

Definition merged (a b : nat) (u : UF.t) : UF.t :=
  UF.mk (<[b:=Z.of_nat a]> (UF.parent u))
    (<[a:=(charge_at (UF.z2_charge u) a + charge_at (UF.z2_charge u) b) mod 2]>
       (UF.z2_charge u))
    (<[a:=(charge_at (UF.z4_charge u) a + charge_at (UF.z4_charge u) b) mod 4]>
       (UF.z4_charge u)).

(** *** What a method leaves alone *)

(** [keeps proj m]: whatever its outcome, [m] leaves [proj] of the state
    as it was. *)
Definition keeps {S A X} (proj : S -> X) (m : M S A) : Prop :=
  forall s, proj (snd (m s)) = proj s.

(** The attributes of the cycle counter, the ledger and the trends. *)
Definition ledger `{Types} (s : Simulation) :=
  (config s, cycle s, halt s, free_energy s, energy_leakage s,
   void_entropy_trend s, usm_trend s).

(** [preserves P m]: whatever its outcome, [m] leaves a state in [P] in
    [P]. *)
Definition preserves {S A} (P : S -> Prop) (m : M S A) : Prop :=
  forall s, P s -> P (snd (m s)).

Definition no_agis `{Types} (s : Simulation) : Prop := agi_entities s = [].

(** ** The union-find under a client's calls: counts and a worst case *)

(** How many of the [union] calls in [calls] returned [True]. *)
Fixpoint merges (depth : nat) (calls : list call) (u : UF.t) : nat :=
  match calls with
  | [] => 0
  | Union i j :: rest =>
      ((match fst (UF.union depth i j u) with Ok true => 1 | _ => 0 end)
       + merges depth rest (snd (UF.union depth i j u)))%nat
  | AddNode a b :: rest => merges depth rest (UF.add_node a b u)
  end.

(** What [add_node] draws: [rng.integers(0, 2)] and [rng.integers(0, 4)]. *)
Definition draws_in_range (c : call) : Prop :=
  match c with
  | Union _ _ => True
  | AddNode a b => 0 <= a < 2 /\ 0 <= b < 4
  end.

(** [union(1, 0)], [union(2, 1)], ..., [union(n, n - 1)]. *)
Definition chain_calls (n : nat) : list call :=
  (fun k => Union (Z.of_nat (S k)) (Z.of_nat k)) <$> seq 0 n.

(** The parent array after the first [k] calls of [chain_calls] on [m]
    nodes: nodes below [k] point to their successor. *)
Definition chain_parent (k m : nat) : list Z :=
  (fun x => Z.of_nat (if decide (x < k)%nat then S x else x)) <$> seq 0 m.

(** ** Attributes compared across simulations *)

(** The configuration with another seed. *)
Definition with_seed (seed : Z) (c : Config) : Config :=
  mkConfig (PAGE_COUNT c) (CYCLE_LIMIT c) seed (NUM_PARALLEL_UNIVERSES c)
    (ENTANGLEMENT_PROBABILITY c) (ENTANGLEMENT_STABILITY_WEIGHT c)
    (VOID_THRESHOLD c) (USE_MULTIPROCESSING c) (VOID_ENTROPY_RANGE c)
    (TREND_HISTORY_LENGTH c) (ADAPTIVE_TIMESTEP_ENABLED c) (MPS_BOND_DIMENSION c).

Definition set_config `{Types} (v : Config) (s : Simulation) : Simulation :=
  mkSimulation v (rng s) (cycle s) (node_count s) (stability s) (sentience s)
    (archetype_ids s) (emotion_ids s) (bosons s) (fermions s) (uf s)
    (multiverse s) (agi_entities s) (void_entropy s) (event_log s)
    (void_entropy_trend s) (usm_trend s) (free_energy s) (energy_leakage s)
    (eqgm_model s) (eqgm_features s) (halt s) (usm s).

(** ** Invariants of the simulation *)

(** [leads P m Q]: from a state in [P], [m] ends in a state in [Q],
    whatever its outcome. *)
Definition leads {S A} (P : S -> Prop) (m : M S A) (Q : S -> Prop) : Prop :=
  forall s, P s -> Q (snd (m s)).

(** Every charge of the structure is zero. *)
Definition uncharged (u : UF.t) : Prop :=
  Forall (fun x => x = 0) (UF.z2_charge u) /\
  Forall (fun x => x = 0) (UF.z4_charge u).

(** The halt flag tells whether the free energy is negative, and the
    leakage is the overdraft. *)
Definition ledger_sound `{Types} (s : Simulation) : Prop :=
  if halt s then
    (free_energy s <? 0)%float = true /\ energy_leakage s = abs (free_energy s)
  else
    (free_energy s <? 0)%float = false /\ energy_leakage s = 0%float.

(** The histories respect the lengths of their deques. *)
Definition histories_sound `{Types} (s : Simulation) : Prop :=
  TREND_HISTORY_LENGTH (config s) = 50 /\
  (length (event_log s) <= 20)%nat /\
  (length (usm_trend s) <= 50)%nat /\
  length (void_entropy_trend s) = length (usm_trend s).

(** The attributes [update] has no assignment for. *)
Definition fixed_attributes `{Types} (s : Simulation) :=
  (config s, node_count s, archetype_ids s, emotion_ids s, bosons s,
   fermions s).

(** * v8.0: the configuration, value alignment, the entities, emergence

    The classes of [QCelestial Unification Framework v8.0.py] that differ
    from v7.0. v8.0 copies the parsed arguments into the configuration by
    name, so the attributes of a configuration are a dictionary here. *)

Module V8.

(** ** Config (v8.0 lines 68-79) and the parser (lines 359-371) *)

(** The values of the arguments and of the constants. *)
Inductive value : Type :=
| VInt (z : Z)
| VFloat (x : float)
| VBool (b : bool)
| VStr (s : string)
| VStrs (l : list string)
| VRange (lo hi : float).

(** [vars(args)], and the [__dict__] of a [Config]. *)
Abbreviation namespace := (gmap string value).

(** [parser.parse_args()]: one entry for each [add_argument], under the
    name of the option. *)
Definition parse_args (page_count seed num_parallel_universes : Z)
    (entanglement_probability entanglement_stability_weight void_threshold : float)
    (use_gpu use_multiprocessing : bool) (quantum_backend : string)
    (use_curses_ui : bool) : namespace :=
  <["page_count" := VInt page_count]>
  (<["seed" := VInt seed]>
  (<["num_parallel_universes" := VInt num_parallel_universes]>
  (<["entanglement_probability" := VFloat entanglement_probability]>
  (<["entanglement_stability_weight" := VFloat entanglement_stability_weight]>
  (<["void_threshold" := VFloat void_threshold]>
  (<["use_gpu" := VBool use_gpu]>
  (<["use_multiprocessing" := VBool use_multiprocessing]>
  (<["quantum_backend" := VStr quantum_backend]>
  (<["use_curses_ui" := VBool use_curses_ui]> ∅))))))))).

(** [Config.__init__(self, args)]
<<
    for key, value in vars(args).items():
        setattr(self, key, value)
    self.ARCHETYPES = [...]
    self.EMOTIONS = [...]
    self.VOID_ENTROPY_RANGE = (-0.5, 0.5)
    self.MPS_BOND_DIMENSION = 4
>> *)
Definition Config_init (args : namespace) : namespace :=
  let self := map_fold (fun key value self => <[key := value]> self) ∅ args in
  let self :=
    <["ARCHETYPES" := VStrs ["Warrior"; "Mirror"; "Mystic"; "Guide"; "Oracle";
                             "Architect"; "Dreamer"; "Weaver"]]> self in
  let self :=
    <["EMOTIONS" := VStrs ["neutral"; "resonant"; "dissonant"; "curious";
                           "focused"; "chaotic"; "serene"; "agitated"]]> self in
  let self := <["VOID_ENTROPY_RANGE" := VRange (-0.5) 0.5]> self in
  <["MPS_BOND_DIMENSION" := VInt 4]> self.

(** [obj.name]: the value, or [AttributeError]. *)
Inductive attribute : Type :=
| Found (v : value)
| AttributeError (name : string).

Definition getattr (obj : namespace) (name : string) : attribute :=
  match obj !! name with
  | Some v => Found v
  | None => AttributeError name
  end.

(** ** ValueAlignmentModule (v8.0 lines 166-174) *)

Record ValueAlignmentModule : Type := mkValueAlignmentModule {
  value_map : gmap string float
}.

Definition ValueAlignmentModule_init : ValueAlignmentModule :=
  mkValueAlignmentModule
    (<["harmony" := 0.8%float]> (<["growth" := 0.6%float]>
       (<["safety" := 0.9%float]> ∅))).

(** [get_alignment_score(self, proposed_action)]:
    [self.value_map.get(proposed_action, 0.5)] *)
Definition get_alignment_score (self : ValueAlignmentModule)
    (proposed_action : string) : float :=
  default 0.5%float (value_map self !! proposed_action).

(** ** The objects of v8.0 *)

(** [self.xp]: [numpy] or [cupy]. *)
Inductive array_module : Type :=
| Numpy
| Cupy.

(** [AGIEntity], v8.0 lines 176-186. *)
Record AGIEntity : Type := mkAGIEntity {
  id : string;
  origin : Z;
  strength : float;
  strategy : string;
  ethical_state : list float;
  value_aligner : ValueAlignmentModule;
  behavioral_model : option unit
}.

Definition set_strength (v : float) (a : AGIEntity) : AGIEntity :=
  mkAGIEntity (id a) (origin a) v (strategy a) (ethical_state a)
    (value_aligner a) (behavioral_model a).

(** The attributes [QuantumPropagator.__init__] stores (lines 116-119). *)
Record QuantumPropagator : Type := mkQuantumPropagator {
  backend : value;
  propagator_config : namespace;
  propagator_xp : array_module
}.

(** The attributes of a [Simulation], as [__init__] and [reset] assign
    them (lines 223-249). *)
Record Simulation {T : Types} : Type := mkSimulation {
  config : namespace;
  xp : array_module;
  rng : Generator;
  cycle : Z;
  node_count : Z;
  stability : list float;
  sentience : list float;
  uf : UF.t;
  propagator : QuantumPropagator;
  agi_entities : list AGIEntity;
  void_entropy : float;
  event_log : list string;
  void_entropy_trend : list float;
  usm_trend : list float;
  free_energy : float;
  energy_leakage : float;
  mps_truncation_error : float;
  halt : bool
}.
Arguments mkSimulation {T}.

Definition set_rng `{Types} (v : Generator) (s : Simulation) : Simulation :=
  mkSimulation (config s) (xp s) v (cycle s) (node_count s) (stability s)
    (sentience s) (uf s) (propagator s) (agi_entities s) (void_entropy s)
    (event_log s) (void_entropy_trend s) (usm_trend s) (free_energy s)
    (energy_leakage s) (mps_truncation_error s) (halt s).
Definition set_stability `{Types} (v : list float) (s : Simulation) : Simulation :=
  mkSimulation (config s) (xp s) (rng s) (cycle s) (node_count s) v
    (sentience s) (uf s) (propagator s) (agi_entities s) (void_entropy s)
    (event_log s) (void_entropy_trend s) (usm_trend s) (free_energy s)
    (energy_leakage s) (mps_truncation_error s) (halt s).
Definition set_agi_entities `{Types} (v : list AGIEntity) (s : Simulation)
  : Simulation :=
  mkSimulation (config s) (xp s) (rng s) (cycle s) (node_count s) (stability s)
    (sentience s) (uf s) (propagator s) v (void_entropy s)
    (event_log s) (void_entropy_trend s) (usm_trend s) (free_energy s)
    (energy_leakage s) (mps_truncation_error s) (halt s).
Definition set_event_log `{Types} (v : list string) (s : Simulation) : Simulation :=
  mkSimulation (config s) (xp s) (rng s) (cycle s) (node_count s) (stability s)
    (sentience s) (uf s) (propagator s) (agi_entities s) (void_entropy s)
    v (void_entropy_trend s) (usm_trend s) (free_energy s)
    (energy_leakage s) (mps_truncation_error s) (halt s).

(** What v8.0 takes from the clock and from the generator when an entity
    is constructed. *)
Class Runtime `{Types} : Type := {
  Clock : Type;
  (** [int(time.time() % 10000)] *)
  time_stamp : Clock -> Z * Clock;
  (** [rng.choice(items)] *)
  rng_choice : list string -> Generator -> string * Generator;
  (** [rng.uniform(lo, hi, size=n)] for a literal [n] *)
  rng_uniform_vec : float -> float -> nat -> Generator -> list float * Generator
}.

(** [log_event(self, event_type, message)] (lines 301-302), on the
    [deque(maxlen=20)] of [reset]. *)
Definition log_event `{Types} (event_type message : string) : M Simulation unit :=
  modify (fun s =>
    set_event_log
      (deque_append 20
         (Simulation.event_line (cycle s) event_type message) (event_log s)) s).

(** ** AGIEntity (v8.0 lines 176-217) *)

(** [AGIEntity.__init__(self, origin_idx, rng)], on the generator and
    the clock. *)
Definition AGIEntity_init `{Runtime} (origin_idx : Z)
  : M (Generator * Clock) AGIEntity :=
  stamp <- zoom snd (fun c w => (fst w, c)) (fun c => let '(t, c') := time_stamp c in (Ok t, c')) ;;
  let id := "AGI-" +:+ pretty origin_idx +:+ "-" +:+ pretty stamp in
  strategy <- zoom fst (fun g w => (g, snd w))
                (fun g => let '(x, g') := rng_choice ["cooperative"; "disruptive"] g in
                          (Ok x, g')) ;;
  ethical_state <- zoom fst (fun g w => (g, snd w))
                     (fun g => let '(x, g') := rng_uniform_vec 0 1 3 g in (Ok x, g')) ;;
  ret (mkAGIEntity id origin_idx 0.5 strategy ethical_state
         ValueAlignmentModule_init None).

(** [_propose_action(self, sim)] *)
Definition _propose_action (self : AGIEntity) : outcome (string * float) :=
  let action := "harmony" in
  match getitem (ethical_state self) 2 with
  | Ok e2 => Ok (action, ((e2 - 0.5) * 0.01)%float)
  | Raise e => Raise e
  end.

(** [_is_harmful(self, adjustment, sim)] *)
Definition _is_harmful `{Types} (self : AGIEntity) (adjustment : float)
    (sim : Simulation) : outcome bool :=
  if Z.of_nat (length (stability sim)) <=? origin self then Ok true
  else match getitem (stability sim) (origin self) with
       | Ok x => Ok (x + adjustment <? 0.1)%float
       | Raise e => Raise e
       end.

(** [update(self, sim)], on the entity and the simulation. *)
Definition update `{Types} : M (AGIEntity * Simulation) unit :=
  self <- gets fst ;;
  proposal <- lift (_propose_action self) ;;
  let action := fst proposal in
  let proposed_adjustment := snd proposal in
  sim <- gets snd ;;
  harmful <- lift (_is_harmful self proposed_adjustment sim) ;;
  if harmful then
    zoom snd (fun s p => (fst p, s))
      (log_event "CED"
         ("AGI " +:+ String.substring 0 4 (id self) +:+ " blocked harmful action."))
  else
    let alignment_score := get_alignment_score (value_aligner self) action in
    if (alignment_score <? 0.5)%float then
      zoom snd (fun s p => (fst p, s))
        (log_event "Ethics"
           ("AGI " +:+ String.substring 0 4 (id self)
            +:+ " action blocked by value alignment."))
    else
      x <- lift (getitem (stability sim) (origin self)) ;;
      st <- lift (setitem (stability sim) (origin self)
                    (np_clip1 (x + proposed_adjustment) 0 1)) ;;
      modify (fun p => (fst p, set_stability st (snd p))) ;;;
      self <- gets fst ;;
      e2 <- lift (getitem (ethical_state self) 2) ;;
      let grown := (strength self + 0.001 * (1 + e2))%float in
      modify (fun p =>
                (set_strength (if (grown <? 1)%float then grown else 1%float) (fst p),
                 snd p)).

(** ** Simulation.update_emergence (v8.0 lines 290-299) *)

(** [xp.where(mask)[0]]: the positions of the true entries, ascending. *)
Fixpoint where_from (k : Z) (mask : list bool) : list Z :=
  match mask with
  | [] => []
  | b :: mask' =>
      if b then k :: where_from (k + 1) mask' else where_from (k + 1) mask'
  end.

Definition xp_where (mask : list bool) : list Z := where_from 0 mask.

(** The body of the loop: one index. *)
Definition emerge `{Runtime} (existing_origins : list Z) (idx : Z)
  : M (Simulation * Clock) unit :=
  if bool_decide (idx ∈ existing_origins) then ret tt
  else
    agi <- zoom (fun w => (rng (fst w), snd w))
             (fun gc w => (set_rng (fst gc) (fst w), snd gc))
             (AGIEntity_init idx) ;;
    modify (fun w => (set_agi_entities (agi_entities (fst w) ++ [agi]) (fst w),
                      snd w)) ;;;
    zoom fst (fun s w => (s, snd w))
      (log_event "Emergence" ("AGI born from Node " +:+ pretty idx)).

Definition update_emergence `{Runtime} : M (Simulation * Clock) unit :=
  self <- gets fst ;;
  let high_sentience_mask := (fun x => 0.85 <? x)%float <$> sentience self in
  let existing_origins := origin <$> agi_entities self in
  let new_agi_indices := xp_where high_sentience_mask in
  (* [if self.xp != np: new_agi_indices = new_agi_indices.get()] copies
     the same indices to the host *)
  let new_agi_indices :=
    match xp self with Numpy => new_agi_indices | Cupy => new_agi_indices end in
  for_each new_agi_indices (emerge existing_origins).

End V8.

(** A reference instance of the v8.0 runtime, for the examples: the
    clock is a counter, the choice and the vector come from the counter
    that stands for the generator. *)
Definition ref_runtime : @V8.Runtime ref_types :=
  {| V8.Clock := Z;
     V8.time_stamp := fun c => (c mod 10000, c + 1);
     V8.rng_choice := fun items (g : @Generator ref_types) =>
       (default "" (items !! Z.to_nat (g mod Z.of_nat (length items))), g + 1);
     V8.rng_uniform_vec := fun lo hi n (g : @Generator ref_types) =>
       ((fun i => (lo + (hi - lo) * ref_unit (g + Z.of_nat i))%float) <$> seq 0 n,
        g + Z.of_nat n) |}.

(** A v8.0 simulation of four nodes, two of them above the sentience
    threshold, with one entity on node 1. *)
Definition ref_entity8 : V8.AGIEntity :=
  V8.mkAGIEntity "AGI-1-1234" 1 0.5 "cooperative" [0.2; 0.4; 0.9]%float
    V8.ValueAlignmentModule_init None.

Definition ref_sim8 : @V8.Simulation ref_types :=
  V8.mkSimulation ∅ V8.Numpy (7 : @Generator ref_types) 3 4
    [0.5; 0.05; 0.6; 0.7]%float [0.9; 0.95; 0.1; 0.86]%float (UF.init 4)
    (V8.mkQuantumPropagator (V8.VStr "mps") ∅ V8.Numpy) [ref_entity8]
    0%float [] [] [] 1000%float 0%float 0%float false.
(** * Properties *)

(** ** Indexing *)

Lemma norm_index_Some n i k :
  norm_index n i = Some k ->
  (k < n)%nat /\
  ((0 <= i /\ i = Z.of_nat k) \/ (i < 0 /\ i = Z.of_nat k - Z.of_nat n)).
Proof.
  unfold norm_index.
  destruct (0 <=? i) eqn:E1, (i <? Z.of_nat n) eqn:E2; simpl;
    try destruct (- Z.of_nat n <=? i) eqn:E3; try destruct (i <? 0) eqn:E4;
    simpl; intros [= <-]; lia.
Qed.

Lemma norm_index_nat n k :
  (k < n)%nat -> norm_index n (Z.of_nat k) = Some k.
Proof.
  intros Hk. unfold norm_index.
  destruct (0 <=? Z.of_nat k) eqn:E1; [|lia].
  destruct (Z.of_nat k <? Z.of_nat n) eqn:E2; [|lia].
  simpl. by rewrite Nat2Z.id.
Qed.

Lemma norm_index_None n i :
  norm_index n i = None <-> i < - Z.of_nat n \/ Z.of_nat n <= i.
Proof.
  unfold norm_index.
  destruct (0 <=? i) eqn:E1, (i <? Z.of_nat n) eqn:E2; simpl;
    try destruct (- Z.of_nat n <=? i) eqn:E3; try destruct (i <? 0) eqn:E4;
    simpl; split; try discriminate; try lia; reflexivity.
Qed.

Lemma getitem_Some {A} (a : list A) i k v :
  norm_index (length a) i = Some k -> a !! k = Some v -> getitem a i = Ok v.
Proof. intros Hn Hk. unfold getitem. by rewrite Hn, Hk. Qed.

Lemma getitem_nat {A} (a : list A) k v :
  a !! k = Some v -> getitem a (Z.of_nat k) = Ok v.
Proof.
  intros Hk. eapply getitem_Some; [|done].
  apply norm_index_nat. by eapply lookup_lt_Some.
Qed.

Lemma getitem_None {A} (a : list A) i :
  norm_index (length a) i = None -> getitem a i = Raise IndexError.
Proof. intros Hn. unfold getitem. by rewrite Hn. Qed.

Lemma setitem_Some {A} (a : list A) i k v :
  norm_index (length a) i = Some k -> setitem a i v = Ok (<[k:=v]> a).
Proof. intros Hn. unfold setitem. by rewrite Hn. Qed.

Lemma arange_lookup n k : (k < n)%nat -> arange n !! k = Some (Z.of_nat k).
Proof.
  intros Hk. unfold arange. rewrite list_lookup_fmap, lookup_seq_lt by done.
  done.
Qed.

Lemma arange_length n : length (arange n) = n.
Proof. unfold arange. by rewrite length_fmap, length_seq. Qed.

(** ** Sums over the representatives *)

Lemma zsum_ext f g n :
  (forall k, (k < n)%nat -> f k = g k) -> zsum f n = zsum g n.
Proof.
  induction n as [|n IH]; intros H; simpl; [done|].
  rewrite IH, H by (intros; try apply H; lia). done.
Qed.

Lemma zsum_update f g n a :
  (a < n)%nat ->
  (forall k, (k < n)%nat -> k <> a -> g k = f k) ->
  zsum g n = zsum f n - f a + g a.
Proof.
  induction n as [|n IH]; intros Ha H; [lia|]. simpl.
  destruct (decide (a = n)) as [->|Hne].
  - rewrite (zsum_ext g f n) by (intros; apply H; lia). lia.
  - rewrite IH, (H n) by (try intros; try apply H; lia). lia.
Qed.

Lemma zsum_nonneg f n : (forall k, 0 <= f k) -> 0 <= zsum f n.
Proof. intros H. induction n; simpl; [lia|]. specialize (H n). lia. Qed.

Lemma is_root_true p k : is_root p k = true <-> p !! k = Some (Z.of_nat k).
Proof. unfold is_root. by rewrite bool_decide_eq_true. Qed.

Lemma is_root_false p k : is_root p k = false <-> p !! k <> Some (Z.of_nat k).
Proof. unfold is_root. by rewrite bool_decide_eq_false. Qed.

Lemma root_sum_ext p p' w w' :
  length p' = length p ->
  (forall k, (k < length p)%nat -> is_root p' k = is_root p k) ->
  (forall k, (k < length p)%nat -> is_root p k = true -> w' k = w k) ->
  root_sum p' w' = root_sum p w.
Proof.
  intros Hl Hr Hw. unfold root_sum. rewrite Hl. apply zsum_ext.
  intros k Hk. rewrite Hr by done.
  destruct (is_root p k) eqn:E; [|done]. by apply Hw.
Qed.

Lemma count_roots_nonneg p : 0 <= count_roots p.
Proof.
  unfold count_roots, root_sum. apply zsum_nonneg.
  intros k. by destruct (is_root p k).
Qed.

(** ** The parent forest *)

Lemma reaches_lt p h k r :
  reaches p h k r ->
  (k < length p)%nat /\ (r < length p)%nat /\ p !! r = Some (Z.of_nat r).
Proof.
  induction 1 as [k Hk|h k q r Hk Hq _ IH].
  - split_and!; [by eapply lookup_lt_Some|by eapply lookup_lt_Some|done].
  - destruct IH as (_ & ? & ?). split_and!; [by eapply lookup_lt_Some|done..].
Qed.

Lemma reaches_det p h k r h' r' :
  reaches p h k r -> reaches p h' k r' -> h = h' /\ r = r'.
Proof.
  intros H. revert h' r'.
  induction H as [k Hk|h k q r Hk Hq _ IH]; intros h' r' H'.
  - inversion H' as [k' Hk'|h2 k' q' r2 Hk' Hq' Hr']; subst; [done|].
    rewrite Hk in Hk'. injection Hk' as Hk'. apply Nat2Z.inj in Hk'. done.
  - inversion H' as [k' Hk'|h2 k' q' r2 Hk' Hq' Hr']; subst.
    + rewrite Hk in Hk'. injection Hk' as Hk'. apply Nat2Z.inj in Hk'. done.
    + rewrite Hk in Hk'. injection Hk' as Hk'. apply Nat2Z.inj in Hk'.
      subst q'. destruct (IH _ _ Hr') as [-> ->]. done.
Qed.

Lemma reaches_root_inv p h k r :
  reaches p h k r -> is_root p k = true -> h = O /\ r = k.
Proof.
  intros H Hr. apply is_root_true in Hr.
  eapply reaches_det; [done|]. by constructor.
Qed.

Lemma refines_refl p : refines p p.
Proof. split_and!; [done..|]. intros h k r H. exists h. split; [lia|done]. Qed.

Lemma refines_trans p1 p2 p3 :
  refines p1 p2 -> refines p2 p3 -> refines p1 p3.
Proof.
  intros (Hl1 & Hr1 & Hp1) (Hl2 & Hr2 & Hp2). split_and!.
  - congruence.
  - intros k. by rewrite Hr2.
  - intros h k r H. destruct (Hp1 _ _ _ H) as (h1 & ? & H1).
    destruct (Hp2 _ _ _ H1) as (h2 & ? & H2). exists h2. split; [lia|done].
Qed.

Lemma refines_count_roots p p' : refines p p' -> count_roots p' = count_roots p.
Proof.
  intros (Hl & Hr & _). unfold count_roots. apply root_sum_ext; auto.
Qed.

Lemma refines_forest p p' : forest p -> refines p p' -> forest p'.
Proof.
  intros Hf (Hl & _ & Hp) k Hk. rewrite Hl in Hk.
  destruct (Hf k Hk) as (h & r & H). destruct (Hp _ _ _ H) as (h' & _ & H').
  eauto.
Qed.

Lemma refines_shallow p p' :
  forest p -> shallow p -> refines p p' -> shallow p'.
Proof.
  intros Hf Hs Href h' k r' H'.
  pose proof Href as (Hl & _ & Hp).
  destruct (reaches_lt _ _ _ _ H') as (Hk & _). rewrite Hl in Hk.
  destruct (Hf k Hk) as (h & r & H). destruct (Hp _ _ _ H) as (h2 & Hle & H2).
  destruct (reaches_det _ _ _ _ _ _ H' H2) as [-> ->].
  rewrite (refines_count_roots _ _ Href), Hl. specialize (Hs _ _ _ H). lia.
Qed.

(** Writing its representative into a node that is not one (the
    assignment of path compression). *)
Lemma compress_one p h x r :
  reaches p h x r -> is_root p x = false ->
  refines p (<[x:=Z.of_nat r]> p).
Proof.
  intros Hx Hnr.
  destruct (reaches_lt _ _ _ _ Hx) as (Hxl & Hrl & Hrr).
  assert (r <> x) as Hrx.
  { intros ->. apply is_root_false in Hnr. done. }
  split_and!.
  - by rewrite length_insert.
  - intros k. unfold is_root. destruct (decide (k = x)) as [->|Hne].
    + rewrite list_lookup_insert_eq by done.
      apply is_root_false in Hnr.
      rewrite !bool_decide_eq_false_2; [done|done|].
      intros [= E]. apply Nat2Z.inj in E. done.
    + by rewrite list_lookup_insert_ne.
  - intros h' k r' H.
    induction H as [k Hk|h' k q r' Hk Hq Hqr IH].
    + exists O. split; [lia|]. constructor.
      rewrite list_lookup_insert_ne; [done|].
      intros <-. apply is_root_false in Hnr. done.
    + destruct IH as (h1 & Hle & H1).
      destruct (decide (k = x)) as [->|Hne].
      * assert (reaches p (S h') x r') as Hx' by (econstructor; eauto).
        destruct (reaches_det _ _ _ _ _ _ Hx Hx') as [-> ->].
        exists 1%nat. split; [lia|].
        eapply reaches_step with (q := r'); [|done|].
        -- by rewrite list_lookup_insert_eq.
        -- constructor. by rewrite list_lookup_insert_ne.
      * exists (S h1). split; [lia|].
        eapply reaches_step; [|done|done].
        by rewrite list_lookup_insert_ne.
Qed.

(** Hanging the representative [b] under the representative [a] (the
    assignment of a merge). *)
Lemma link_reaches p a b h k r :
  is_root p a = true -> is_root p b = true -> a <> b ->
  reaches p h k r ->
  reaches (<[b:=Z.of_nat a]> p)
    (if decide (r = b) then S h else h) k (if decide (r = b) then a else r).
Proof.
  intros Ha Hb Hab H. apply is_root_true in Ha, Hb.
  assert (b < length p)%nat as Hbl by (by eapply lookup_lt_Some).
  induction H as [k Hk|h k q r Hk Hq Hqr IH].
  - destruct (decide (k = b)) as [->|Hne].
    + eapply reaches_step with (q := a); [|done|].
      * by rewrite list_lookup_insert_eq.
      * constructor. by rewrite list_lookup_insert_ne.
    + constructor. by rewrite list_lookup_insert_ne.
  - assert (k <> b) as Hkb.
    { intros ->. rewrite Hb in Hk. injection Hk as E. apply Nat2Z.inj in E. done. }
    destruct (decide (r = b)) as [->|Hne];
      (eapply reaches_step; [by rewrite list_lookup_insert_ne|done|done]).
Qed.

Lemma link_is_root p a b k :
  is_root p b = true -> a <> b ->
  is_root (<[b:=Z.of_nat a]> p) k = is_root p k && negb (bool_decide (k = b)).
Proof.
  intros Hb Hab. apply is_root_true in Hb.
  assert (b < length p)%nat as Hbl by (by eapply lookup_lt_Some).
  unfold is_root. destruct (decide (k = b)) as [->|Hne].
  - rewrite list_lookup_insert_eq by done.
    rewrite (bool_decide_eq_true_2 (b = b)) by done.
    rewrite andb_false_r. apply bool_decide_eq_false_2.
    intros [= E]. apply Nat2Z.inj in E. done.
  - rewrite list_lookup_insert_ne by done.
    rewrite (bool_decide_eq_false_2 (k = b)) by done. by rewrite andb_true_r.
Qed.

Lemma link_root_sum p a b w :
  is_root p b = true -> a <> b ->
  root_sum (<[b:=Z.of_nat a]> p) w = root_sum p w - w b.
Proof.
  intros Hb Hab. pose proof Hb as Hb'. apply is_root_true in Hb'.
  assert (b < length p)%nat as Hbl by (by eapply lookup_lt_Some).
  unfold root_sum. rewrite length_insert.
  rewrite (zsum_update (fun k => if is_root p k then w k else 0) _ _ b Hbl).
  - rewrite Hb, link_is_root by done. rewrite Hb.
    rewrite (bool_decide_eq_true_2 (b = b)) by done. simpl. lia.
  - intros k _ Hne. rewrite link_is_root by done.
    rewrite (bool_decide_eq_false_2 (k = b)) by done. by rewrite andb_true_r.
Qed.

Lemma charge_root_sum p c r v :
  is_root p r = true -> (r < length p)%nat ->
  root_sum p (charge_at (<[r:=v]> c))
  = root_sum p (charge_at c) - charge_at c r + charge_at (<[r:=v]> c) r.
Proof.
  intros Hr Hrl. unfold root_sum.
  rewrite (zsum_update (fun k => if is_root p k then charge_at c k else 0) _ _ r Hrl).
  - by rewrite Hr.
  - intros k _ Hne. unfold charge_at. by rewrite list_lookup_insert_ne.
Qed.

(** ** find *)

Lemma find_S d i u :
  UF.find (S d) i u =
  match getitem (UF.parent u) i with
  | Raise e => (Raise e, u)
  | Ok q =>
      if q =? i then (Ok i, u)
      else match UF.find d q u with
           | (Raise e, u1) => (Raise e, u1)
           | (Ok r, u1) =>
               match setitem (UF.parent u1) i r with
               | Raise e => (Raise e, u1)
               | Ok p2 => (getitem p2 i, UF.set_parent p2 u1)
               end
           end
  end.
Proof.
  simpl. unfold bind, UF.parent_get, UF.parent_set, ret.
  destruct (getitem (UF.parent u) i) as [q|e] eqn:E; [|done].
  destruct (q =? i); [done|]. rewrite E.
  destruct (UF.find d q u) as [[r|e] u1]; [|done].
  destruct (setitem (UF.parent u1) i r); done.
Qed.

Lemma set_parent_id u : UF.set_parent (UF.parent u) u = u.
Proof. by destruct u. Qed.

Lemma set_parent_twice p p' u :
  UF.set_parent p' (UF.set_parent p u) = UF.set_parent p' u.
Proof. done. Qed.

Lemma find_spec depth u i k h r :
  norm_index (length (UF.parent u)) i = Some k ->
  reaches (UF.parent u) h k r ->
  (exists p', refines (UF.parent u) p' /\
     UF.find depth i u = (Ok (Z.of_nat r), UF.set_parent p' u)) \/
  ((depth <= h + extra_frame i)%nat /\
     UF.find depth i u = (Raise RecursionError, u)).
Proof.
  revert u i k h r.
  induction depth as [|d IH]; intros u i k h r Hn Hr.
  { right. split; [lia|done]. }
  rewrite find_S.
  destruct (norm_index_Some _ _ _ Hn) as (Hkl & Hi).
  inversion Hr as [k' Hk|h0 k' q r' Hk Hq Hqr]; subst.
  - rewrite (getitem_Some _ _ _ _ Hn Hk).
    destruct Hi as [[Hi0 ->]|[Hi0 Hi]].
    + rewrite Z.eqb_refl. left. exists (UF.parent u).
      split; [apply refines_refl|]. by rewrite set_parent_id.
    + destruct (Z.eqb_spec (Z.of_nat r) i) as [?|_]; [lia|].
      destruct (IH u (Z.of_nat r) r O r (norm_index_nat _ _ Hkl) Hr)
        as [(p1 & Href & ->)|(Hd & ->)].
      * pose proof Href as (Hl & Hroot & _). simpl.
        rewrite <- Hl in Hn. rewrite (setitem_Some _ _ _ _ Hn).
        assert (p1 !! r = Some (Z.of_nat r)) as Hr1.
        { apply is_root_true. rewrite Hroot. by apply is_root_true. }
        rewrite list_insert_id by done.
        rewrite (getitem_Some _ _ _ _ Hn Hr1). left. exists p1. done.
      * right. split; [|done]. unfold extra_frame in *.
        destruct (Z.ltb_spec i 0); [|lia].
        destruct (Z.ltb_spec (Z.of_nat r) 0); lia.
  - rewrite (getitem_Some _ _ _ _ Hn Hk).
    destruct (Z.eqb_spec (Z.of_nat q) i) as [?|_]; [lia|].
    destruct (reaches_lt _ _ _ _ Hqr) as (Hql & _).
    destruct (IH u (Z.of_nat q) q h0 r (norm_index_nat _ _ Hql) Hqr)
      as [(p1 & Href & ->)|(Hd & ->)].
    + pose proof Href as (Hl & Hroot & Hp). simpl.
      rewrite <- Hl in Hn. rewrite (setitem_Some _ _ _ _ Hn).
      assert ((<[k:=Z.of_nat r]> p1) !! k = Some (Z.of_nat r)) as Hr1.
      { apply list_lookup_insert_eq. lia. }
      rewrite <- (length_insert p1 k (Z.of_nat r)) in Hn.
      rewrite (getitem_Some _ _ _ _ Hn Hr1). left.
      exists (<[k:=Z.of_nat r]> p1). split; [|done].
      eapply refines_trans; [done|].
      destruct (Hp _ _ _ Hr) as (h1 & _ & H1).
      eapply compress_one; [done|].
      rewrite Hroot. apply is_root_false. rewrite Hk.
      intros [= E]. apply Nat2Z.inj in E. done.
    + right. split; [|done]. unfold extra_frame in *.
      destruct (Z.ltb_spec (Z.of_nat q) 0); [lia|].
      destruct (Z.ltb_spec i 0); lia.
Qed.

Lemma find_out_of_range d i u :
  norm_index (length (UF.parent u)) i = None ->
  UF.find (S d) i u = (Raise IndexError, u).
Proof. intros Hn. rewrite find_S. by rewrite (getitem_None _ _ Hn). Qed.

(** ** union *)

Lemma union_unfold depth i j u :
  UF.union depth i j u =
  match UF.find depth i u with
  | (Raise e, u1) => (Raise e, u1)
  | (Ok root_i, u1) =>
      match UF.find depth j u1 with
      | (Raise e, u2) => (Raise e, u2)
      | (Ok root_j, u2) =>
          if negb (root_i =? root_j) then merge_roots root_i root_j u2
          else (Ok false, u2)
      end
  end.
Proof.
  unfold UF.union, bind at 1.
  destruct (UF.find depth i u) as [[ri|e] u1]; [|done].
  unfold bind at 1.
  destruct (UF.find depth j u1) as [[rj|e] u2]; [|done].
  by destruct (negb (ri =? rj)).
Qed.

Lemma charge_at_lookup c k :
  (k < length c)%nat -> c !! k = Some (charge_at c k).
Proof.
  intros Hk. unfold charge_at.
  destruct (lookup_lt_is_Some_2 c k Hk) as [v ->]. done.
Qed.

Lemma charge_at_insert_eq c k v :
  (k < length c)%nat -> charge_at (<[k:=v]> c) k = v.
Proof. intros Hk. unfold charge_at. by rewrite list_lookup_insert_eq. Qed.

Lemma charge_at_insert_ne c k k' v :
  k <> k' -> charge_at (<[k:=v]> c) k' = charge_at c k'.
Proof. intros Hk. unfold charge_at. by rewrite list_lookup_insert_ne. Qed.

Lemma merge_roots_ok a b u :
  (a < length (UF.parent u))%nat -> (b < length (UF.parent u))%nat ->
  length (UF.z2_charge u) = length (UF.parent u) ->
  length (UF.z4_charge u) = length (UF.parent u) ->
  merge_roots (Z.of_nat a) (Z.of_nat b) u = (Ok true, merged a b u).
Proof.
  intros Ha Hb H2 H4. destruct u as [p c2 c4]. simpl in *.
  unfold merge_roots, bind, UF.parent_set, UF.z2_get, UF.z2_set, UF.z4_get,
    UF.z4_set, ret, merged. simpl.
  rewrite (setitem_Some p _ b) by (by apply norm_index_nat). simpl.
  rewrite (getitem_nat c2 a (charge_at c2 a)) by (apply charge_at_lookup; lia).
  rewrite (getitem_nat c2 b (charge_at c2 b)) by (apply charge_at_lookup; lia).
  rewrite (setitem_Some c2 _ a) by (apply norm_index_nat; lia). simpl.
  rewrite (getitem_nat c4 a (charge_at c4 a)) by (apply charge_at_lookup; lia).
  rewrite (getitem_nat c4 b (charge_at c4 b)) by (apply charge_at_lookup; lia).
  rewrite (setitem_Some c4 _ a) by (apply norm_index_nat; lia). done.
Qed.

Lemma refines_consistent u p' :
  consistent u -> refines (UF.parent u) p' -> consistent (UF.set_parent p' u).
Proof.
  intros (Hf & Hs & H2 & H4) Href. pose proof Href as (Hl & _).
  split_and!; simpl.
  - by eapply refines_forest.
  - by eapply refines_shallow.
  - congruence.
  - congruence.
Qed.

Lemma merged_consistent a b u :
  consistent u ->
  is_root (UF.parent u) a = true -> is_root (UF.parent u) b = true ->
  a <> b -> consistent (merged a b u).
Proof.
  intros (Hf & Hs & H2 & H4) Ha Hb Hab.
  assert (forall k, (k < length (UF.parent u))%nat ->
            exists h r h' r', reaches (UF.parent u) h k r /\
              reaches (<[b:=Z.of_nat a]> (UF.parent u)) h' k r' /\
              (h' <= S h)%nat) as Hlink.
  { intros k Hk. destruct (Hf k Hk) as (h & r & H).
    pose proof (link_reaches _ _ _ _ _ _ Ha Hb Hab H) as H'.
    do 4 eexists. split_and!; [done|done|]. case_decide; lia. }
  split_and!; simpl; rewrite ?length_insert; try done.
  - intros k Hk. rewrite length_insert in Hk.
    destruct (Hlink k Hk) as (h & r & h' & r' & _ & H' & _). eauto.
  - intros h0 k r0 H0.
    destruct (reaches_lt _ _ _ _ H0) as (Hk & _). rewrite length_insert in Hk.
    destruct (Hlink k Hk) as (h & r & h' & r' & H & H' & Hle).
    destruct (reaches_det _ _ _ _ _ _ H0 H') as [-> ->].
    unfold count_roots. rewrite link_root_sum, length_insert by done.
    specialize (Hs _ _ _ H). unfold count_roots in Hs. lia.
Qed.

(** A merge folds the charge of [b] into [a] and retires [b]: the sum over
    the representatives changes by a multiple of the modulus. *)
Lemma merged_root_sum m p c a b :
  0 < m ->
  is_root p a = true -> is_root p b = true -> a <> b ->
  (a < length c)%nat ->
  root_sum (<[b:=Z.of_nat a]> p)
    (charge_at (<[a:=(charge_at c a + charge_at c b) mod m]> c)) mod m
  = root_sum p (charge_at c) mod m.
Proof.
  intros Hm Ha Hb Hab Hal.
  assert (a < length p)%nat as Hap.
  { apply is_root_true in Ha. by eapply lookup_lt_Some. }
  rewrite link_root_sum by done.
  rewrite charge_root_sum by done.
  rewrite charge_at_insert_eq, charge_at_insert_ne by done.
  set (S := root_sum p (charge_at c)).
  set (x := charge_at c a). set (y := charge_at c b).
  replace (S - x + (x + y) mod m - y) with (S + ((x + y) mod m - (x + y))) by lia.
  rewrite (Z.mod_eq (x + y) m) by lia.
  replace (S + (x + y - m * ((x + y) / m) - (x + y)))
    with (S + (- ((x + y) / m)) * m) by lia.
  by rewrite Z.mod_add by lia.
Qed.

Lemma find_cases depth u i :
  consistent u ->
  exists p', refines (UF.parent u) p' /\
    snd (UF.find depth i u) = UF.set_parent p' u /\
    match fst (UF.find depth i u) with
    | Ok v => exists k h r,
        norm_index (length (UF.parent u)) i = Some k /\
        reaches (UF.parent u) h k r /\ v = Z.of_nat r
    | Raise _ => p' = UF.parent u
    end.
Proof.
  intros (Hf & _).
  destruct depth as [|d].
  { exists (UF.parent u). split; [apply refines_refl|].
    simpl. by rewrite set_parent_id. }
  destruct (norm_index (length (UF.parent u)) i) as [k|] eqn:Hn.
  - destruct (norm_index_Some _ _ _ Hn) as (Hk & _).
    destruct (Hf k Hk) as (h & r & Hr).
    destruct (find_spec (S d) u i k h r Hn Hr) as [(p' & Href & ->)|(_ & ->)].
    + exists p'. split_and!; [done..|]. simpl. eauto 10.
    + exists (UF.parent u). split; [apply refines_refl|].
      simpl. by rewrite set_parent_id.
  - rewrite (find_out_of_range _ _ _ Hn).
    exists (UF.parent u). split; [apply refines_refl|].
    simpl. by rewrite set_parent_id.
Qed.

Lemma refines_is_root_reaches p p' h k r :
  refines p p' -> reaches p h k r ->
  is_root p' r = true /\ (r < length p')%nat.
Proof.
  intros (Hl & Hroot & _) H. destruct (reaches_lt _ _ _ _ H) as (_ & ? & Hr).
  split; [|lia]. rewrite Hroot. by apply is_root_true.
Qed.

(** What a call of [union] can do to a consistent state: shorten paths
    only, or shorten paths and then merge two distinct representatives. *)
Lemma union_cases depth u i j :
  consistent u ->
  (exists p', refines (UF.parent u) p' /\
     snd (UF.union depth i j u) = UF.set_parent p' u /\
     fst (UF.union depth i j u) <> Ok true) \/
  (exists p' a b, refines (UF.parent u) p' /\
     is_root p' a = true /\ is_root p' b = true /\ a <> b /\
     UF.union depth i j u = (Ok true, merged a b (UF.set_parent p' u))).
Proof.
  intros Hc. rewrite union_unfold.
  destruct (find_cases depth u i Hc) as (p1 & Href1 & Hs1 & Ho1).
  destruct (UF.find depth i u) as [[ri|e] u1]; simpl in Hs1, Ho1; subst u1;
    [|left; exists p1; split_and!; done].
  destruct Ho1 as (ki & hi & a & Hni & Hri & ->).
  pose proof (refines_consistent _ _ Hc Href1) as Hc1.
  destruct (find_cases depth _ j Hc1) as (p2 & Href2 & Hs2 & Ho2).
  simpl in Href2.
  pose proof (refines_trans _ _ _ Href1 Href2) as Href.
  destruct (UF.find depth j (UF.set_parent p1 u)) as [[rj|e] u2];
    simpl in Hs2, Ho2; subst u2; rewrite ?set_parent_twice;
    [|left; exists p2; split_and!; done].
  destruct Ho2 as (kj & hj & b & Hnj & Hrj & ->). simpl in Hnj, Hrj.
  destruct (Z.eqb_spec (Z.of_nat a) (Z.of_nat b)) as [E|E]; simpl.
  { left. exists p2. split_and!; done. }
  right. exists p2, a, b.
  destruct (refines_is_root_reaches _ _ _ _ _ Href Hri) as (Ha & Hal).
  destruct (refines_is_root_reaches _ _ _ _ _ Href2 Hrj) as (Hb & Hbl).
  pose proof (refines_consistent _ _ Hc Href) as (_ & _ & H2 & H4).
  split_and!; [done..|congruence|].
  by apply merge_roots_ok.
Qed.

Lemma union_consistent depth u i j :
  consistent u -> consistent (snd (UF.union depth i j u)).
Proof.
  intros Hc.
  destruct (union_cases depth u i j Hc)
    as [(p' & Href & -> & _)|(p' & a & b & Href & Ha & Hb & Hab & ->)].
  - by apply refines_consistent.
  - simpl. apply merged_consistent; [by apply refines_consistent|done..].
Qed.

Lemma union_total depth u i j :
  consistent u ->
  let u' := snd (UF.union depth i j u) in
  root_sum (UF.parent u') (charge_at (UF.z2_charge u')) mod 2
  = root_sum (UF.parent u) (charge_at (UF.z2_charge u)) mod 2 /\
  root_sum (UF.parent u') (charge_at (UF.z4_charge u')) mod 4
  = root_sum (UF.parent u) (charge_at (UF.z4_charge u)) mod 4.
Proof.
  intros Hc.
  assert (forall p' c, refines (UF.parent u) p' ->
            root_sum p' (charge_at c) = root_sum (UF.parent u) (charge_at c))
    as Hsame.
  { intros p' c (Hl & Hroot & _). apply root_sum_ext; auto. }
  destruct (union_cases depth u i j Hc)
    as [(p' & Href & -> & _)|(p' & a & b & Href & Ha & Hb & Hab & ->)]; simpl.
  - by rewrite !(Hsame p') by done.
  - pose proof (refines_consistent _ _ Hc Href) as (_ & _ & H2 & H4).
    simpl in H2, H4.
    assert (a < length p')%nat as Hal.
    { apply is_root_true in Ha. by eapply lookup_lt_Some. }
    rewrite !merged_root_sum by (done || lia). by rewrite !(Hsame p') by done.
Qed.

(** ** The constructor and add_node *)

Lemma zsum_const c n : zsum (fun _ => c) n = Z.of_nat n * c.
Proof. induction n as [|n IH]; simpl; [done|]. rewrite IH. lia. Qed.

Lemma init_is_root n k : (k < n)%nat -> is_root (arange n) k = true.
Proof. intros Hk. apply is_root_true. by apply arange_lookup. Qed.

Lemma init_consistent n : consistent (UF.init n).
Proof.
  split_and!; simpl; rewrite ?arange_length.
  - intros k Hk. rewrite arange_length in Hk.
    exists O, k. constructor. by apply arange_lookup.
  - intros h k r H.
    destruct (reaches_lt _ _ _ _ H) as (Hk & _). rewrite arange_length in Hk.
    destruct (reaches_root_inv _ _ _ _ H (init_is_root n k Hk)) as [-> _].
    unfold count_roots, root_sum. rewrite arange_length.
    rewrite (zsum_ext _ (fun _ => 1)), zsum_const; [lia|].
    intros k' Hk'. by rewrite init_is_root.
  - unfold zeros. by rewrite length_replicate.
  - unfold zeros. by rewrite length_replicate.
Qed.

Lemma init_root_sum n :
  root_sum (arange n) (charge_at (zeros n)) = 0.
Proof.
  unfold root_sum. rewrite arange_length.
  rewrite (zsum_ext _ (fun _ => 0)), zsum_const; [lia|].
  intros k Hk. rewrite init_is_root by done.
  unfold charge_at, zeros. by rewrite lookup_replicate_2.
Qed.

Lemma add_node_reaches p h k r :
  reaches p h k r -> reaches (p ++ [Z.of_nat (length p)]) h k r.
Proof.
  induction 1 as [k Hk|h k q r Hk Hq _ IH].
  - constructor. by apply lookup_app_l_Some.
  - econstructor; [|done|done]. by apply lookup_app_l_Some.
Qed.

Lemma add_node_is_root p k :
  is_root (p ++ [Z.of_nat (length p)]) k
  = if decide (k = length p) then true else is_root p k.
Proof.
  unfold is_root. case_decide as Hk.
  - subst k. apply bool_decide_eq_true_2. by rewrite list_lookup_middle.
  - destruct (decide (k < length p)%nat) as [Hlt|Hge].
    + by rewrite lookup_app_l.
    + rewrite !lookup_ge_None_2; [done|lia|rewrite length_app; simpl; lia].
Qed.

Lemma add_node_root_sum p c v w :
  length c = length p ->
  (forall k, (k < length p)%nat -> w k = charge_at c k) ->
  w (length p) = v ->
  root_sum (p ++ [Z.of_nat (length p)]) w = root_sum p (charge_at c) + v.
Proof.
  intros Hl Hw Hv. unfold root_sum.
  rewrite length_app, Nat.add_1_r. simpl.
  rewrite add_node_is_root, decide_True, Hv by done. f_equal.
  apply zsum_ext. intros k Hk.
  rewrite add_node_is_root, decide_False by lia.
  destruct (is_root p k); [|done]. by apply Hw.
Qed.

Lemma add_node_consistent a b u : consistent u -> consistent (UF.add_node a b u).
Proof.
  intros (Hf & Hs & H2 & H4).
  assert (forall k, (k < S (length (UF.parent u)))%nat ->
            exists h r, reaches (UF.parent u ++ [Z.of_nat (length (UF.parent u))]) h k r /\
              (k < length (UF.parent u) -> exists r', reaches (UF.parent u) h k r')%nat /\
              (k = length (UF.parent u) -> h = O)) as Hn.
  { intros k Hk. destruct (decide (k = length (UF.parent u))) as [->|Hne].
    - exists O, (length (UF.parent u)). split_and!; [|lia|done].
      constructor. by rewrite list_lookup_middle.
    - destruct (Hf k) as (h & r & H); [lia|].
      exists h, r. split_and!; [by apply add_node_reaches|eauto|done]. }
  split_and!; simpl; rewrite ?length_app; simpl; try lia.
  - intros k Hk. rewrite length_app in Hk. simpl in Hk.
    destruct (Hn k) as (h & r & H & _); [lia|]. eauto.
  - intros h0 k r0 H0.
    destruct (reaches_lt _ _ _ _ H0) as (Hk & _).
    rewrite length_app in Hk. simpl in Hk.
    destruct (Hn k) as (h & r & H & Hold & Hnew); [lia|].
    destruct (reaches_det _ _ _ _ _ _ H0 H) as [-> ->].
    unfold count_roots.
    rewrite (add_node_root_sum _ (replicate (length (UF.parent u)) 1) 1);
      [| by rewrite length_replicate
       | intros k' Hk'; unfold charge_at; by rewrite lookup_replicate_2
       | done].
    assert (root_sum (UF.parent u) (charge_at (replicate (length (UF.parent u)) 1))
            = count_roots (UF.parent u)) as ->.
    { apply root_sum_ext; [done..|].
      intros k' Hk' _. unfold charge_at. by rewrite lookup_replicate_2. }
    rewrite length_app, Nat.add_1_r.
    destruct (decide (k = length (UF.parent u))) as [E|E].
    + rewrite (Hnew E). pose proof (count_roots_nonneg (UF.parent u)).
      assert (count_roots (UF.parent u) <= Z.of_nat (length (UF.parent u))); [|lia].
      unfold count_roots, root_sum.
      transitivity (zsum (fun _ => 1) (length (UF.parent u)));
        [|rewrite zsum_const; lia].
      clear. induction (length (UF.parent u)) as [|m IH]; simpl; [lia|].
      destruct (is_root (UF.parent u) m); lia.
    + destruct Hold as (r' & H'); [lia|]. specialize (Hs _ _ _ H'). lia.
Qed.

Lemma add_node_total a b u :
  consistent u ->
  let u' := UF.add_node a b u in
  root_sum (UF.parent u') (charge_at (UF.z2_charge u'))
  = root_sum (UF.parent u) (charge_at (UF.z2_charge u)) + a /\
  root_sum (UF.parent u') (charge_at (UF.z4_charge u'))
  = root_sum (UF.parent u) (charge_at (UF.z4_charge u)) + b.
Proof.
  intros (_ & _ & H2 & H4). simpl.
  split; apply add_node_root_sum; try done.
  - intros k Hk. unfold charge_at. rewrite lookup_app_l; [done|lia].
  - unfold charge_at. by rewrite <- H2, list_lookup_middle.
  - intros k Hk. unfold charge_at. rewrite lookup_app_l; [done|lia].
  - unfold charge_at. by rewrite <- H4, list_lookup_middle.
Qed.

Lemma run_consistent depth calls u :
  consistent u -> consistent (run depth calls u).
Proof.
  revert u. induction calls as [|[i j|a b] calls IH]; intros u Hc; simpl.
  - done.
  - apply IH. by apply union_consistent.
  - apply IH. by apply add_node_consistent.
Qed.

Lemma run_total depth calls u :
  consistent u ->
  let u' := run depth calls u in
  total_charge 2 (UF.parent u') (UF.z2_charge u')
  = (root_sum (UF.parent u) (charge_at (UF.z2_charge u))
     + sum_list_Z (fst <$> created calls)) mod 2 /\
  total_charge 4 (UF.parent u') (UF.z4_charge u')
  = (root_sum (UF.parent u) (charge_at (UF.z4_charge u))
     + sum_list_Z (snd <$> created calls)) mod 4.
Proof.
  revert u. induction calls as [|[i j|a b] calls IH]; intros u Hc; simpl.
  - unfold total_charge. by rewrite !Z.add_0_r.
  - destruct (IH _ (union_consistent depth u i j Hc)) as [-> ->].
    destruct (union_total depth u i j Hc) as [E2 E4].
    rewrite Z.add_mod, E2, <- Z.add_mod by lia.
    rewrite (Z.add_mod _ _ 4), E4, <- Z.add_mod by lia. done.
  - destruct (IH _ (add_node_consistent a b u Hc)) as [-> ->].
    destruct (add_node_total a b u Hc) as [-> ->].
    split; by rewrite Z.add_assoc.
Qed.

(** C1. Charge conservation: after any sequence of [union] (and
    [add_node]) calls on a freshly constructed structure, whatever the
    indices passed and whether or not a call raised, the sum of the
    charge-A values of the current representatives is, modulo 2, the sum
    of the charge-A values the nodes were created with, and the same for
    charge-B modulo 4. *)
Theorem charge_conservation (depth n : nat) (calls : list call) :
  let u := run depth calls (UF.init n) in
  total_charge 2 (UF.parent u) (UF.z2_charge u)
  = sum_list_Z (fst <$> singleton_charges n calls) mod 2 /\
  total_charge 4 (UF.parent u) (UF.z4_charge u)
  = sum_list_Z (snd <$> singleton_charges n calls) mod 4.
Proof.
  assert (forall (f : Z * Z -> Z) l, f (0, 0) = 0 ->
            sum_list_Z (f <$> (replicate n (0, 0) ++ l)) = sum_list_Z (f <$> l))
    as Hzero.
  { intros f l Hf. induction n as [|m IH]; [done|].
    change (sum_list_Z (f <$> replicate (S m) (0, 0) ++ l))
      with (f (0, 0) + sum_list_Z (f <$> replicate m (0, 0) ++ l)).
    by rewrite Hf, IH. }
  destruct (run_total depth calls (UF.init n) (init_consistent n)) as [E2 E4].
  simpl in *. rewrite init_root_sum in E2, E4.
  unfold singleton_charges. by rewrite !Hzero.
Qed.

(** ** Calls with valid indices *)

Lemma find_ok depth u k h r :
  consistent u -> (length (UF.parent u) < depth)%nat ->
  reaches (UF.parent u) h k r ->
  exists p', refines (UF.parent u) p' /\
    UF.find depth (Z.of_nat k) u = (Ok (Z.of_nat r), UF.set_parent p' u).
Proof.
  intros (_ & Hs & _) Hd Hr.
  destruct (reaches_lt _ _ _ _ Hr) as (Hk & _).
  destruct (find_spec depth u _ k h r (norm_index_nat _ _ Hk) Hr)
    as [?|(Hle & _)]; [done|].
  specialize (Hs _ _ _ Hr). pose proof (count_roots_nonneg (UF.parent u)).
  unfold extra_frame in Hle. destruct (Z.ltb_spec (Z.of_nat k) 0); lia.
Qed.

Lemma union_ok depth u a b ha hb ra rb :
  consistent u -> (length (UF.parent u) < depth)%nat ->
  reaches (UF.parent u) ha a ra -> reaches (UF.parent u) hb b rb ->
  exists p', refines (UF.parent u) p' /\
    UF.union depth (Z.of_nat a) (Z.of_nat b) u
    = (Ok (negb (Z.of_nat ra =? Z.of_nat rb)),
       if decide (ra = rb) then UF.set_parent p' u
       else merged ra rb (UF.set_parent p' u)).
Proof.
  intros Hc Hd Ha Hb. rewrite union_unfold.
  destruct (find_ok depth u a ha ra Hc Hd Ha) as (p1 & Href1 & ->).
  pose proof (refines_consistent _ _ Hc Href1) as Hc1.
  pose proof Href1 as (Hl1 & _ & Hp1).
  destruct (Hp1 _ _ _ Hb) as (hb' & _ & Hb').
  destruct (find_ok depth (UF.set_parent p1 u) b hb' rb Hc1) as (p2 & Href2 & ->);
    [simpl; lia|done|].
  simpl in Href2. rewrite set_parent_twice.
  pose proof (refines_trans _ _ _ Href1 Href2) as Href.
  exists p2. split; [done|].
  destruct (refines_is_root_reaches _ _ _ _ _ Href Ha) as (_ & Hal).
  destruct (refines_is_root_reaches _ _ _ _ _ Href Hb) as (_ & Hbl).
  pose proof (refines_consistent _ _ Hc Href) as (_ & _ & H2 & H4).
  destruct (Z.eqb_spec (Z.of_nat ra) (Z.of_nat rb)) as [E|E]; simpl.
  - apply Nat2Z.inj in E. by rewrite decide_True.
  - rewrite decide_False by congruence. by apply merge_roots_ok.
Qed.

Lemma find_length depth i u :
  length (UF.parent (snd (UF.find depth i u))) = length (UF.parent u).
Proof.
  revert i u. induction depth as [|d IH]; intros i u; [done|].
  rewrite find_S. destruct (getitem (UF.parent u) i) as [q|e]; [|done].
  destruct (q =? i); [done|].
  specialize (IH q u). destruct (UF.find d q u) as [[r|e] u1]; [|done].
  simpl in IH. unfold setitem.
  destruct (norm_index (length (UF.parent u1)) i); [|done].
  simpl. by rewrite length_insert.
Qed.

(** C7 (as amended). Union semantics: on every state built by calls from
    the constructor, with valid indices [i] and [j] and frames for the
    recursion, [union(i, j)] returns [True] exactly when [find(i)] and
    [find(j)] differed beforehand. On a merge the representative of [i]
    survives: its charge-A becomes the sum modulo 2, and its charge-B the
    sum modulo 4, of the two representatives' charges, no other charge
    entry changes, and every node whose representative was that of [j]
    now has that of [i]. When the representatives agree the call returns
    [False], leaves both charge arrays as they are and every node with its
    representative; the parent array may still be rewritten by path
    compression. *)
Theorem union_semantics (depth0 n : nat) (calls : list call)
    (depth : nat) (i j : Z) :
  let u := run depth0 calls (UF.init n) in
  0 <= i < Z.of_nat (length (UF.parent u)) ->
  0 <= j < Z.of_nat (length (UF.parent u)) ->
  (length (UF.parent u) < depth)%nat ->
  exists root_i root_j : nat,
    fst (UF.find depth i u) = Ok (Z.of_nat root_i) /\
    fst (UF.find depth j u) = Ok (Z.of_nat root_j) /\
    fst (UF.union depth i j u) = Ok (negb (Z.of_nat root_i =? Z.of_nat root_j)) /\
    let u' := snd (UF.union depth i j u) in
    length (UF.parent u') = length (UF.parent u) /\
    (forall k, 0 <= k < Z.of_nat (length (UF.parent u)) ->
       exists root_k : Z,
         fst (UF.find depth k u) = Ok root_k /\
         fst (UF.find depth k u')
         = Ok (if root_k =? Z.of_nat root_j then Z.of_nat root_i else root_k)) /\
    (root_i <> root_j ->
       UF.z2_charge u'
       = <[root_i := (charge_at (UF.z2_charge u) root_i
                      + charge_at (UF.z2_charge u) root_j) mod 2]>
           (UF.z2_charge u) /\
       UF.z4_charge u'
       = <[root_i := (charge_at (UF.z4_charge u) root_i
                      + charge_at (UF.z4_charge u) root_j) mod 4]>
           (UF.z4_charge u)) /\
    (root_i = root_j ->
       UF.z2_charge u' = UF.z2_charge u /\ UF.z4_charge u' = UF.z4_charge u).
Proof.
  intros u Hi Hj Hd.
  assert (consistent u) as Hc by apply run_consistent, init_consistent.
  pose proof Hc as (Hf & _).
  destruct (Hf (Z.to_nat i)) as (hi & ri & Hri); [lia|].
  destruct (Hf (Z.to_nat j)) as (hj & rj & Hrj); [lia|].
  exists ri, rj.
  destruct (find_ok depth u _ _ _ Hc Hd Hri) as (pi & _ & Ei).
  destruct (find_ok depth u _ _ _ Hc Hd Hrj) as (pj & _ & Ej).
  destruct (union_ok depth u _ _ _ _ _ _ Hc Hd Hri Hrj) as (p' & Href & Eu).
  rewrite !Z2Nat.id in * by lia. rewrite Ei, Ej, Eu. simpl.
  split_and!; [done..| | | |].
  - case_decide; simpl; rewrite ?length_insert; by destruct Href.
  - intros k Hk.
    destruct (Hf (Z.to_nat k)) as (hk & rk & Hrk); [lia|].
    destruct (find_ok depth u _ _ _ Hc Hd Hrk) as (pk & _ & Ek).
    rewrite Z2Nat.id in Ek by lia. exists (Z.of_nat rk). rewrite Ek.
    split; [done|].
    pose proof Href as (Hl & _ & Hp).
    destruct (Hp _ _ _ Hrk) as (hk' & _ & Hrk').
    pose proof (refines_consistent _ _ Hc Href) as Hc'.
    destruct (decide (ri = rj)) as [->|Hne].
    + destruct (find_ok depth (UF.set_parent p' u) _ _ _ Hc'
                  ltac:(simpl; lia) Hrk') as (pk' & _ & Ek').
      rewrite Z2Nat.id in Ek' by lia. rewrite Ek'. simpl.
      by destruct (Z.of_nat rk =? Z.of_nat rj) eqn:E; [apply Z.eqb_eq in E as ->|].
    + destruct (refines_is_root_reaches _ _ _ _ _ Href Hri) as (Ha & _).
      destruct (refines_is_root_reaches _ _ _ _ _ Href Hrj) as (Hb & _).
      pose proof (merged_consistent ri rj _ Hc' Ha Hb Hne) as Hcm.
      pose proof (link_reaches _ _ _ _ _ _ Ha Hb Hne Hrk') as Hlink.
      destruct (find_ok depth (merged ri rj (UF.set_parent p' u)) _ _ _ Hcm
                  ltac:(simpl; rewrite length_insert; lia) Hlink)
        as (pk' & _ & Ek').
      rewrite Z2Nat.id in Ek' by lia. rewrite Ek'. simpl.
      destruct (Z.eqb_spec (Z.of_nat rk) (Z.of_nat rj)) as [E|E].
      * apply Nat2Z.inj in E. by rewrite decide_True.
      * rewrite decide_False; [done|congruence].
  - intros Hne. by rewrite decide_False.
  - intros ->. by rewrite decide_True.
Qed.

(** The scenario of the specification: two singleton nodes that both carry
    charge-A 1 are merged, and the representative carries charge-A 0. *)
Lemma union_semantics_witness :
  let u := run 5 [AddNode 1 0; AddNode 1 2] (UF.init 0) in
  fst (UF.union 5 0 1 u) = Ok true /\
  UF.z2_charge (snd (UF.union 5 0 1 u)) = [0; 1] /\
  UF.z4_charge (snd (UF.union 5 0 1 u)) = [2; 2].
Proof.
  destruct (union_semantics 5 0 [AddNode 1 0; AddNode 1 2] 5 0 1)
    as (ri & rj & Hi & Hj & Hu & _ & _ & Hm & _).
  - simpl. lia.
  - simpl. lia.
  - simpl. lia.
  - change (Ok 0 = Ok (Z.of_nat ri)) in Hi.
    change (Ok 1 = Ok (Z.of_nat rj)) in Hj.
    assert (ri = 0%nat) as -> by (injection Hi; lia).
    assert (rj = 1%nat) as -> by (injection Hj; lia).
    destruct Hm as [H2 H4]; [lia|].
    split_and!; [exact Hu|exact H2|exact H4].
Defined.

(** C7, the claim as stated fails: nodes 2 and 0 share a representative,
    [union(2, 0)] returns [False], and yet the call changed the parent
    array (it compressed the path of node 0). *)
Lemma union_same_set_compresses :
  let u := run 5 [Union 1 0; Union 2 1] (UF.init 3) in
  fst (UF.find 5 2 u) = fst (UF.find 5 0 u) /\
  fst (UF.union 5 2 0 u) = Ok false /\
  UF.parent u = [1; 2; 2] /\
  UF.parent (snd (UF.union 5 2 0 u)) = [2; 2; 2] /\
  snd (UF.union 5 2 0 u) <> u.
Proof. vm_compute. split_and!; [done..|discriminate]. Qed.

(** C9 (as amended). An index that numpy rejects, one below [-n] or at
    least [n] for [n] nodes, makes [find] raise [IndexError] before it
    changes anything; [union] with such a first index does the same, and
    with such a second index it raises [IndexError] once [find] of the
    first index has returned (or what that [find] raised). *)
Theorem index_out_of_range (d : nat) (u : UF.t) (i : Z) :
  i < - Z.of_nat (length (UF.parent u)) \/ Z.of_nat (length (UF.parent u)) <= i ->
  UF.find (S d) i u = (Raise IndexError, u) /\
  (forall j, UF.union (S d) i j u = (Raise IndexError, u)) /\
  (forall j, fst (UF.union (S d) j i u)
             = match fst (UF.find (S d) j u) with
               | Ok _ => Raise IndexError
               | Raise e => Raise e
               end).
Proof.
  intros Hi. apply norm_index_None in Hi.
  split_and!.
  - by apply find_out_of_range.
  - intros j. rewrite union_unfold. by rewrite find_out_of_range.
  - intros j. rewrite union_unfold.
    pose proof (find_length (S d) j u) as Hl.
    destruct (UF.find (S d) j u) as [[rj|e] u1]; [|done].
    simpl in Hl. rewrite find_out_of_range by (by rewrite Hl). done.
Qed.

Lemma index_out_of_range_witness :
  UF.find 4 3 (UF.init 3) = (Raise IndexError, UF.init 3) /\
  UF.find 4 (-4) (UF.init 3) = (Raise IndexError, UF.init 3) /\
  UF.union 4 3 0 (UF.init 3) = (Raise IndexError, UF.init 3) /\
  fst (UF.union 4 0 3 (UF.init 3)) = Raise IndexError.
Proof.
  destruct (index_out_of_range 3 (UF.init 3) 3) as (Hf & Hu & Hv).
  { simpl. lia. }
  destruct (index_out_of_range 3 (UF.init 3) (-4)) as (Hf' & _).
  { simpl. lia. }
  split_and!; [exact Hf|exact Hf'|exact (Hu 0)|exact (Hv 0)].
Defined.

(** C9, the claim as stated fails: with three nodes the index [-1] lies
    outside [0, 3), and [find(-1)] returns the representative of node 2
    instead of raising; [union(-1, 0)] merges node 0 into it. *)
Lemma find_negative_index_accepted :
  ~ (0 <= -1 < 3) /\
  UF.find 4 (-1) (UF.init 3) = (Ok 2, UF.init 3) /\
  UF.union 4 (-1) 0 (UF.init 3)
  = (Ok true, UF.mk [2; 1; 2] [0; 0; 0] [0; 0; 0]).
Proof. split; [lia|]. vm_compute. done. Qed.

(** ** Stateful methods: what a call leaves alone *)

Lemma bind_Ok {S A B} (m : M S A) (k : A -> M S B) s b s2 :
  bind m k s = (Ok b, s2) ->
  exists a s1, m s = (Ok a, s1) /\ k a s1 = (Ok b, s2).
Proof.
  unfold bind. destruct (m s) as [[a|e] s1]; [eauto|discriminate].
Qed.

Lemma keeps_ret {S A X} (proj : S -> X) (a : A) : keeps proj (ret a).
Proof. done. Qed.

Lemma keeps_raise {S A X} (proj : S -> X) e : keeps proj (@raise S A e).
Proof. done. Qed.

Lemma keeps_lift {S A X} (proj : S -> X) (o : outcome A) : keeps proj (lift o).
Proof. done. Qed.

Lemma keeps_gets {S A X} (proj : S -> X) (f : S -> A) : keeps proj (gets f).
Proof. done. Qed.

Lemma keeps_modify {S X} (proj : S -> X) (f : S -> S) :
  (forall s, proj (f s) = proj s) -> keeps proj (modify f).
Proof. intros Hf s. apply Hf. Qed.

Lemma keeps_bind {S A B X} (proj : S -> X) (m : M S A) (k : A -> M S B) :
  keeps proj m -> (forall a, keeps proj (k a)) -> keeps proj (bind m k).
Proof.
  intros Hm Hk s. unfold bind. specialize (Hm s).
  destruct (m s) as [[a|e] s1]; simpl in *; [|done].
  by rewrite Hk.
Qed.

Lemma keeps_for_each {S A X} (proj : S -> X) (l : list A) (body : A -> M S unit) :
  (forall x, keeps proj (body x)) -> keeps proj (for_each l body).
Proof.
  intros Hb. induction l as [|x l IH]; simpl; [apply keeps_ret|].
  apply keeps_bind; auto.
Qed.

Lemma keeps_zoom {S T A X} (proj : S -> X) (get : S -> T) (set : T -> S -> S)
    (m : M T A) :
  (forall t s, proj (set t s) = proj s) -> keeps proj (zoom get set m).
Proof.
  intros Hset s. unfold zoom. destruct (m (get s)) as [o t]. apply Hset.
Qed.

Lemma keeps_draw `{Types} {A X} (proj : Simulation -> X)
    (f : Generator -> A * Generator) :
  (forall g s, proj (set_rng g s) = proj s) -> keeps proj (draw f).
Proof. intros Hg s. unfold draw. destruct (f (rng s)). apply Hg. Qed.

Lemma keeps_draw_checked `{Types} {A X} (proj : Simulation -> X)
    (f : Generator -> outcome A * Generator) :
  (forall g s, proj (set_rng g s) = proj s) -> keeps proj (draw_checked f).
Proof. intros Hg s. unfold draw_checked. destruct (f (rng s)). apply Hg. Qed.

Lemma keeps_Ok {S A X} (proj : S -> X) (m : M S A) s o s' :
  keeps proj m -> m s = (o, s') -> proj s' = proj s.
Proof. intros Hk E. specialize (Hk s). by rewrite E in Hk. Qed.

Lemma on_sim_inv `{Types} {A} (m : M Simulation A) w o w' :
  Simulation.on_sim m w = (o, w') ->
  m (fst w) = (o, fst w') /\ snd w' = snd w.
Proof.
  unfold Simulation.on_sim, zoom. destruct (m (fst w)) as [o1 s1].
  intros [= <- <-]. done.
Qed.

(** Discharges [keeps proj m] for a method written with the combinators,
    when [proj] reads none of the attributes the method assigns. *)
Ltac keeps_tac :=
  repeat first
    [ apply keeps_ret | apply keeps_raise | apply keeps_lift | apply keeps_gets
    | apply keeps_modify; intros; reflexivity
    | apply keeps_draw; intros; reflexivity
    | apply keeps_draw_checked; intros; reflexivity
    | apply keeps_zoom; intros; reflexivity
    | apply keeps_for_each; intros
    | apply keeps_bind; [|intros]
    | match goal with
      | |- keeps _ (if ?b then _ else _) => destruct b
      | |- keeps _ (let _ := _ in _) => cbv zeta
      end ].

(** ** C5: halted is terminal *)

Lemma update_halted `{Library} `{!Kernels} (w : Simulation * RandomState) :
  halt (fst w) = true -> Simulation.update w = (Ok tt, w).
Proof.
  intros Hh. destruct w as [s g]. simpl in Hh.
  unfold Simulation.update, bind, Simulation.on_sim, zoom, gets. simpl.
  by rewrite Hh.
Qed.

Lemma reset_clears_halt `{Library} `{!Kernels} (s s' : Simulation) :
  Simulation.reset s = (Ok tt, s') -> halt s' = false.
Proof.
  unfold Simulation.reset. intros E.
  repeat lazymatch type of E with
    | bind (modify (set_halt false)) _ _ = _ => fail
    | bind _ _ _ = _ =>
        let a := fresh "a" in let s1 := fresh "s" in
        apply bind_Ok in E as (a & s1 & _ & E)
    end.
  apply bind_Ok in E as (a' & s1' & E1 & E).
  unfold modify in E1. injection E1 as _ <-.
  unfold Simulation.log_event, modify in E. injection E as <-. done.
Qed.


(** ** C10: the low-variance skip *)

(** C10. Low-variance skip: when [update] is called on a simulation that
    is not halted and the mean of the standard deviations of the four
    chunks [np.array_split] makes of the stability vector is below 0.005,
    the call returns with every attribute as it was except the event log,
    which gains the scheduler's line when the cycle counter is a multiple
    of 20; the process-wide generator is untouched as well. *)
Theorem low_variance_skip `{Library} `{!Kernels} (w : Simulation * RandomState) :
  halt (fst w) = false ->
  (np_mean (np_std <$> np_array_split (stability (fst w)) 4) <? 0.005)%float = true ->
  Simulation.update w
  = (Ok tt,
     (set_event_log
        (if cycle (fst w) mod 20 =? 0 then
           deque_append 20
             (Simulation.event_line (cycle (fst w)) "Scheduler" "Fractal skip triggered.")
             (event_log (fst w))
         else event_log (fst w))
        (fst w),
      snd w)).
Proof.
  intros Hh Hv. destruct w as [s g]. simpl in *.
  unfold Simulation.update, bind, Simulation.on_sim, zoom, gets. simpl.
  rewrite Hh.
  unfold Simulation._fractal_light_cone_skip, bind, gets. simpl.
  rewrite Hv. simpl.
  destruct (cycle s mod 20 =? 0); simpl; [done|].
  by destruct s.
Qed.

(** ** C6: the sparsity gate *)

Lemma take_mask_length {A B} (mask : list bool) (a : list A) (b : list B) :
  length a = length b ->
  length (take_mask mask a) = length (take_mask mask b).
Proof.
  revert a b. induction mask as [|[|] mask IH]; intros [|x a] [|y b] Hl;
    simpl in *; try done; try lia; auto.
Qed.

Lemma put_mask_lookup (mask : list bool) (a b : list float) k x d :
  length mask = length a -> length mask = length b ->
  a !! k = Some x -> b !! k = Some d ->
  put_mask mask a (zip_with PrimFloat.add (take_mask mask a) (take_mask mask b)) !! k
  = match mask !! k with
    | Some true => Some (x + d)%float
    | _ => Some x
    end.
Proof.
  revert a b k. induction mask as [|m mask IH]; intros [|x' a] [|d' b] k Ha Hb Hx Hd;
    simpl in *; try done.
  destruct k as [|k]; simpl in *.
  - injection Hx as ->. injection Hd as ->. by destruct m.
  - destruct m; simpl; apply IH; auto.
Qed.

Lemma put_mask_length {A} (mask : list bool) (a vals : list A) :
  length (put_mask mask a vals) = length a.
Proof.
  revert a vals. induction mask as [|[|] mask IH]; intros [|x a] vals;
    simpl; try done.
  - destruct vals; simpl; by rewrite IH.
  - by rewrite IH.
Qed.

(** C6 (as amended). The sparsity gate: for a state vector and a delta
    vector of the same length the gated update succeeds, adds the delta to
    exactly the entries whose delta exceeds 1e-5 in magnitude and leaves
    every other entry at its old value; so it agrees with the update that
    applies the full delta on the entries above the threshold, and only
    there. *)
Theorem sparsity_gate_pointwise (st adj : list float) :
  length adj = length st ->
  exists gated full,
    Simulation.dirac_sparse_apply st adj = Ok gated /\
    Simulation.full_apply st adj = Ok full /\
    length gated = length st /\
    forall k x d, st !! k = Some x -> adj !! k = Some d ->
      full !! k = Some (x + d)%float /\
      gated !! k = Some (if (1e-5 <? abs d)%float then (x + d)%float else x).
Proof.
  intros Hl.
  unfold Simulation.dirac_sparse_apply, Simulation.full_apply, np_masked_iadd,
    np_iadd, np_abs_gt.
  rewrite !length_fmap, Hl, !Nat.eqb_refl. simpl.
  rewrite (take_mask_length _ st adj), Nat.eqb_refl by done.
  do 2 eexists. split_and!; [done|done|by rewrite put_mask_length|].
  intros k x d Hx Hd. split.
  - rewrite lookup_zip_with, Hx, Hd. done.
  - rewrite (put_mask_lookup _ _ _ k x d); rewrite ?length_fmap; try done.
    rewrite list_lookup_fmap, Hd. simpl.
    by destruct (1e-5 <? abs d)%float.
Qed.

Lemma sparsity_gate_pointwise_witness :
  exists gated full,
    Simulation.dirac_sparse_apply [0.5; 0.5]%float [0.25; 5e-6]%float = Ok gated /\
    Simulation.full_apply [0.5; 0.5]%float [0.25; 5e-6]%float = Ok full /\
    length gated = 2%nat /\
    forall k x d,
      [0.5; 0.5]%float !! k = Some x -> [0.25; 5e-6]%float !! k = Some d ->
      full !! k = Some (x + d)%float /\
      gated !! k = Some (if (1e-5 <? abs d)%float then (x + d)%float else x).
Proof.
  apply (sparsity_gate_pointwise [0.5; 0.5]%float [0.25; 5e-6]%float).
  reflexivity.
Defined.

(** C6, the claim as stated fails: a delta of 5e-6 on an entry 0.5 is
    dropped by the gate and applied by the full update, and the two end
    states differ, also after the clamp. *)
Lemma sparsity_gate_changes_end_state :
  exists gated full : float,
    Simulation.dirac_sparse_apply [0.5]%float [5e-6]%float = Ok [gated] /\
    Simulation.full_apply [0.5]%float [5e-6]%float = Ok [full] /\
    (gated <? full)%float = true /\
    (np_clip1 gated 0 1 <? np_clip1 full 0 1)%float = true.
Proof.
  exists 0.5%float, (0.5 + 5e-6)%float. vm_compute. done.
Qed.

(** ** A cycle that runs *)

Lemma on_sim_gets `{Types} {A} (f : Simulation -> A) w a w1 :
  Simulation.on_sim (gets f) w = (Ok a, w1) -> a = f (fst w) /\ w1 = w.
Proof.
  destruct w as [s g]. unfold Simulation.on_sim, zoom, gets. simpl.
  intros [= <- <-]. done.
Qed.

Lemma on_sim_modify `{Types} (f : Simulation -> Simulation) w u w1 :
  Simulation.on_sim (modify f) w = (Ok u, w1) -> w1 = (f (fst w), snd w).
Proof.
  destruct w as [s g]. unfold Simulation.on_sim, zoom, modify. simpl.
  intros [= <-]. done.
Qed.

Lemma lift_Ok {S A} (o : outcome A) (s : S) a s1 :
  lift o s = (Ok a, s1) -> o = Ok a /\ s1 = s.
Proof. unfold lift. intros [= -> <-]. done. Qed.

Lemma ret_Ok {S A} (x : A) (s : S) a s1 :
  ret x s = (Ok a, s1) -> a = x /\ s1 = s.
Proof. unfold ret. intros [= <- <-]. done. Qed.

Lemma stability_adjustment_keeps `{Library} `{!Kernels} :
  keeps (fun s => (ledger s, stability s, agi_entities s))
    Simulation.stability_adjustment.
Proof. unfold Simulation.stability_adjustment. keeps_tac. Qed.

Lemma entangle_keeps `{Library} l :
  keeps (fun s => (ledger s, stability s, agi_entities s))
    (for_each l Simulation.entangle_node).
Proof. unfold Simulation.entangle_node. keeps_tac. Qed.

Lemma agi_update_keeps `{Library} :
  keeps (fun p => ledger (snd p)) AGIEntity.update.
Proof.
  unfold AGIEntity.update.
  repeat first
    [ apply keeps_ret | apply keeps_lift | apply keeps_gets
    | apply keeps_modify; intros [? ?]; reflexivity
    | apply keeps_zoom; intros [? ?] [? ?]; reflexivity
    | apply keeps_bind; [|intros]
    | match goal with |- keeps _ (if ?b then _ else _) => destruct b end ].
Qed.

Lemma agi_loop_keeps `{Library} l :
  keeps ledger (for_each l Simulation.update_agi).
Proof.
  apply keeps_for_each. intros k s. unfold Simulation.update_agi.
  destruct (agi_entities s !! k) as [a|]; [|done].
  pose proof (agi_update_keeps (a, s)) as Hk.
  destruct (AGIEntity.update (a, s)) as [o [a' s']]. simpl in *. done.
Qed.

Lemma update_eqgm_keeps `{Library} :
  keeps (fun s => (ledger s, stability s, void_entropy s, usm s))
    Simulation._update_eqgm.
Proof. unfold Simulation._update_eqgm. keeps_tac. Qed.

Lemma trl_update_spec `{Library} (adj : list float) (s : Simulation) :
  exists s',
    Simulation.trl_update adj s = (Ok tt, s') /\
    config s' = config s /\ cycle s' = cycle s /\
    stability s' = stability s /\ void_entropy s' = void_entropy s /\
    usm s' = usm s /\
    void_entropy_trend s' = void_entropy_trend s /\ usm_trend s' = usm_trend s /\
    free_energy s' = (free_energy s - np_sum (abs <$> adj))%float /\
    if (free_energy s' <? 0)%float then
      halt s' = true /\ energy_leakage s' = abs (free_energy s') /\
      event_log s'
      = deque_append 20
          (Simulation.event_line (cycle s) "TRL"
             "Thermodynamic collapse! Free energy exhausted.")
          (event_log s)
    else halt s' = halt s /\ energy_leakage s' = energy_leakage s /\
         event_log s' = event_log s.
Proof.
  unfold Simulation.trl_update, bind, modify, gets, Simulation.log_event. simpl.
  destruct (free_energy s - np_sum (abs <$> adj) <? 0)%float eqn:E; simpl;
    eexists; (split; [reflexivity|]); simpl; rewrite E; split_and!; done.
Qed.

Lemma np_clip1_unit_or_nan x : unit_or_nan (np_clip1 x 0 1) = true.
Proof.
  unfold unit_or_nan, np_clip1, clip_min, clip_max.
  destruct (is_nan x) eqn:En; simpl.
  - rewrite En. simpl. by rewrite En.
  - destruct (0 <? x)%float eqn:E0; simpl.
    + rewrite En. simpl. destruct (x <? 1)%float eqn:E1; simpl.
      * by rewrite En, E0, E1.
      * reflexivity.
    + reflexivity.
Qed.

Lemma np_clip_unit_or_nan a :
  Forall (fun x => unit_or_nan x = true) (np_clip a 0 1).
Proof.
  unfold np_clip. apply Forall_fmap, Forall_forall.
  intros x _. apply np_clip1_unit_or_nan.
Qed.

Lemma update_entanglement_spec `{Library} w w1 :
  Simulation.update_entanglement w = (Ok tt, w1) ->
  exists field,
    ledger (fst w1) = ledger (fst w) /\
    agi_entities (fst w1) = agi_entities (fst w) /\
    np_add
      (np_scale (1 - ENTANGLEMENT_STABILITY_WEIGHT (config (fst w))) (stability (fst w)))
      (np_scale (ENTANGLEMENT_STABILITY_WEIGHT (config (fst w))) field)
    = Ok (stability (fst w1)).
Proof.
  intros E. unfold Simulation.update_entanglement in E.
  apply bind_Ok in E as (n & w0 & E0 & E).
  apply on_sim_gets in E0 as [-> ->].
  apply bind_Ok in E as (u1 & [s2 g2] & E1 & E).
  apply on_sim_inv in E1 as (E1 & Hg). simpl in E1, Hg.
  pose proof (keeps_Ok _ _ _ _ _ (entangle_keeps _) E1) as K1.
  injection K1 as Kc Kcy Kh Kf Ke Kv Ku Ks Ka.
  apply bind_Ok in E as (cfg & w3 & E3 & E).
  apply on_sim_gets in E3 as [-> ->].
  apply bind_Ok in E as (st & w4 & E4 & E).
  apply on_sim_gets in E4 as [-> ->].
  apply bind_Ok in E as (sv & w5 & E5 & E).
  unfold zoom in E5. simpl in E5.
  destruct (mps_sweep _ _ _ g2) as [o5 g5'] eqn:Em.
  injection E5 as -> <-.
  apply bind_Ok in E as (c & w6 & E6 & E).
  apply on_sim_gets in E6 as [-> ->].
  apply bind_Ok in E as (u7 & w7 & E7 & E).
  destruct (node_count (fst w) =? 0); [discriminate|].
  apply ret_Ok in E7 as [_ ->].
  apply bind_Ok in E as (st' & w8 & E8 & E).
  apply on_sim_gets in E8 as [-> ->].
  apply bind_Ok in E as (blended & w9 & E9 & E).
  apply lift_Ok in E9 as [E9 ->].
  apply on_sim_modify in E as ->. simpl in *.
  exists (np_roll sv (cycle s2 mod node_count (fst w))).
  rewrite Kc, Ks in E9. split_and!; [|done|done].
  unfold ledger. simpl. congruence.
Qed.

Lemma apply_adjustment_spec `{Library} `{!Kernels} adj s s' :
  Simulation.apply_adjustment adj s = (Ok tt, s') ->
  ledger s' = ledger s /\ agi_entities s' = agi_entities s /\
  Forall (fun v => unit_or_nan v = true) (stability s').
Proof.
  intros E. unfold Simulation.apply_adjustment in E.
  apply bind_Ok in E as (st & s0 & E0 & E).
  unfold gets in E0. injection E0 as <- <-.
  apply bind_Ok in E as (st1 & s1 & E1 & E).
  apply lift_Ok in E1 as [_ ->].
  unfold bind, modify in E. injection E as <-. simpl.
  split_and!; [done|done|apply np_clip_unit_or_nan].
Qed.

Lemma update_agis_keeps `{Library} : keeps ledger Simulation.update_agis.
Proof.
  unfold Simulation.update_agis. apply keeps_bind; [apply keeps_gets|].
  intros agis. apply agi_loop_keeps.
Qed.

Lemma update_agis_none `{Library} s :
  agi_entities s = [] -> Simulation.update_agis s = (Ok tt, s).
Proof.
  intros Hnil. unfold Simulation.update_agis, bind, gets. by rewrite Hnil.
Qed.

Lemma update_multiverse_keeps `{Library} `{!Kernels} :
  keeps (fun s => (ledger s, stability s)) Simulation.update_multiverse.
Proof. unfold Simulation.update_multiverse. keeps_tac. Qed.

Lemma update_void_entropy_keeps `{Library} :
  keeps (fun s => (ledger s, stability s)) Simulation.update_void_entropy.
Proof. unfold Simulation.update_void_entropy. keeps_tac. Qed.

Lemma record_trends_spec `{Library} `{!Kernels} (s : Simulation) :
  exists s' x,
    Simulation.record_trends s = (Ok tt, s') /\
    config s' = config s /\ cycle s' = cycle s /\ halt s' = halt s /\
    free_energy s' = free_energy s /\ energy_leakage s' = energy_leakage s /\
    stability s' = stability s /\ void_entropy s' = void_entropy s /\
    void_entropy_trend s'
    = deque_append (TREND_HISTORY_LENGTH (config s)) (void_entropy s)
        (void_entropy_trend s) /\
    usm s' = Some x /\
    usm_trend s'
    = deque_append (TREND_HISTORY_LENGTH (config s)) x (usm_trend s).
Proof.
  unfold Simulation.record_trends, bind, modify, gets. simpl.
  do 2 eexists. split_and!; reflexivity.
Qed.

Lemma ledger_eq `{Types} (s s' : Simulation) :
  ledger s' = ledger s ->
  config s' = config s /\ cycle s' = cycle s /\ halt s' = halt s /\
  free_energy s' = free_energy s /\ energy_leakage s' = energy_leakage s /\
  void_entropy_trend s' = void_entropy_trend s /\ usm_trend s' = usm_trend s.
Proof. unfold ledger. intros [= -> -> -> -> -> -> ->]. done. Qed.

(** What a cycle that is neither halted nor skipped has done when it
    returns. *)
Lemma update_running `{Library} `{!Kernels} (w w' : Simulation * RandomState) :
  halt (fst w) = false ->
  (np_mean (np_std <$> np_array_split (stability (fst w)) 4) <? 0.005)%float = false ->
  Simulation.update w = (Ok tt, w') ->
  exists (adj clamped field : list float) (x : float),
    config (fst w') = config (fst w) /\
    cycle (fst w') = cycle (fst w) + 1 /\
    Forall (fun v => unit_or_nan v = true) clamped /\
    (agi_entities (fst w) = [] ->
       np_add (np_scale (1 - ENTANGLEMENT_STABILITY_WEIGHT (config (fst w))) clamped)
         (np_scale (ENTANGLEMENT_STABILITY_WEIGHT (config (fst w))) field)
       = Ok (stability (fst w'))) /\
    void_entropy_trend (fst w')
    = deque_append (TREND_HISTORY_LENGTH (config (fst w))) (void_entropy (fst w'))
        (void_entropy_trend (fst w)) /\
    usm (fst w') = Some x /\
    usm_trend (fst w')
    = deque_append (TREND_HISTORY_LENGTH (config (fst w))) x (usm_trend (fst w)) /\
    free_energy (fst w') = (free_energy (fst w) - np_sum (abs <$> adj))%float /\
    if (free_energy (fst w') <? 0)%float then
      halt (fst w') = true /\ energy_leakage (fst w') = abs (free_energy (fst w'))
    else halt (fst w') = false /\ energy_leakage (fst w') = energy_leakage (fst w).
Proof.
  intros Hh Hv E. destruct w as [s g]. simpl in *.
  unfold Simulation.update in E.
  apply bind_Ok in E as (halted & w0 & E0 & E).
  apply on_sim_gets in E0 as [-> ->]. simpl in E. rewrite Hh in E.
  apply bind_Ok in E as (skip & w1 & E1 & E).
  assert (skip = false /\ w1 = (s, g)) as [-> ->].
  { revert E1. unfold Simulation.on_sim, zoom, Simulation._fractal_light_cone_skip,
      bind, gets, ret. simpl. rewrite Hv. by intros [= <- <-]. }
  clear E1.
  (* cycle += 1 *)
  apply bind_Ok in E as ([] & [s2 g2] & E2 & E).
  apply on_sim_modify in E2. injection E2 as E2 _.
  assert (ledger s2 = ledger (set_cycle (cycle s + 1) s) /\
          stability s2 = stability s /\ agi_entities s2 = agi_entities s)
    as (K2 & Ks2 & Ka2) by (by rewrite E2).
  clear E2. apply ledger_eq in K2 as (Kc2 & Kcy2 & Kh2 & Kf2 & Ke2 & Kv2 & Ku2).
  simpl in Kc2, Kcy2, Kh2, Kf2, Ke2, Kv2, Ku2.
  (* the kernels *)
  apply bind_Ok in E as (adj & [s3 g3] & E3 & E).
  apply on_sim_inv in E3 as (E3 & _). simpl in E3.
  pose proof (keeps_Ok _ _ _ _ _ stability_adjustment_keeps E3) as K3.
  clear E3. apply pair_equal_spec in K3 as [K3 Ka3].
  apply pair_equal_spec in K3 as [K3 Ks3].
  apply ledger_eq in K3 as (Kc3 & Kcy3 & Kh3 & Kf3 & Ke3 & Kv3 & Ku3).
  (* the gated write and the clamp *)
  apply bind_Ok in E as ([] & [s4 g4] & E4 & E).
  apply on_sim_inv in E4 as (E4 & _). simpl in E4.
  apply apply_adjustment_spec in E4 as (K4 & Ka4 & Hclamped).
  apply ledger_eq in K4 as (Kc4 & Kcy4 & Kh4 & Kf4 & Ke4 & Kv4 & Ku4).
  (* entanglement *)
  apply bind_Ok in E as ([] & [s5 g5] & E5 & E).
  apply update_entanglement_spec in E5 as (field & K5 & Ka5 & Hblend).
  simpl in K5, Ka5, Hblend.
  apply ledger_eq in K5 as (Kc5 & Kcy5 & Kh5 & Kf5 & Ke5 & Kv5 & Ku5).
  (* the entities *)
  apply bind_Ok in E as ([] & [s6 g6] & E6 & E).
  apply on_sim_inv in E6 as (E6 & _). simpl in E6.
  pose proof (keeps_Ok _ _ _ _ _ update_agis_keeps E6) as K6.
  assert (agi_entities s = [] -> stability s6 = stability s5) as Hs6.
  { intros Hnil. rewrite update_agis_none in E6 by congruence.
    by injection E6 as <-. }
  clear E6. apply ledger_eq in K6 as (Kc6 & Kcy6 & Kh6 & Kf6 & Ke6 & Kv6 & Ku6).
  (* emergence *)
  apply bind_Ok in E as ([] & [s7 g7] & E7 & E).
  apply on_sim_inv in E7 as (E7 & _). simpl in E7.
  unfold Simulation.update_emergence in E7. apply ret_Ok in E7 as [_ ->].
  (* the multiverse *)
  apply bind_Ok in E as ([] & [s8 g8] & E8 & E).
  apply on_sim_inv in E8 as (E8 & _). simpl in E8.
  pose proof (keeps_Ok _ _ _ _ _ update_multiverse_keeps E8) as K8.
  clear E8. apply pair_equal_spec in K8 as [K8 Ks8].
  apply ledger_eq in K8 as (Kc8 & Kcy8 & Kh8 & Kf8 & Ke8 & Kv8 & Ku8).
  (* the void entropy *)
  apply bind_Ok in E as ([] & [s9 g9] & E9 & E).
  apply on_sim_inv in E9 as (E9 & _). simpl in E9.
  pose proof (keeps_Ok _ _ _ _ _ update_void_entropy_keeps E9) as K9.
  clear E9. apply pair_equal_spec in K9 as [K9 Ks9].
  apply ledger_eq in K9 as (Kc9 & Kcy9 & Kh9 & Kf9 & Ke9 & Kv9 & Ku9).
  (* the trends *)
  apply bind_Ok in E as ([] & [s10 g10] & E10 & E).
  apply on_sim_inv in E10 as (E10 & _). simpl in E10.
  destruct (record_trends_spec s9)
    as (s10' & x & Er & Kc10 & Kcy10 & Kh10 & Kf10 & Ke10 & Ks10 & Kve10 & Kv10
        & Kx10 & Ku10).
  rewrite Er in E10. injection E10 as ->. clear Er.
  (* the ledger *)
  apply bind_Ok in E as ([] & [s11 g11] & E11 & E).
  apply on_sim_inv in E11 as (E11 & _). simpl in E11.
  destruct (trl_update_spec adj s10)
    as (s11' & Et & Kc11 & Kcy11 & Ks11 & Kve11 & Kx11 & Kv11 & Ku11 & Kf11 & Htrl).
  rewrite Et in E11. injection E11 as ->. clear Et.
  (* the monitor *)
  assert (ledger (fst w') = ledger s11 /\ stability (fst w') = stability s11 /\
          void_entropy (fst w') = void_entropy s11 /\ usm (fst w') = usm s11)
    as (K12 & Ks12 & Kve12 & Kx12).
  { apply bind_Ok in E as (c & w12 & E12 & E).
    apply on_sim_gets in E12 as [_ ->].
    match type of E with context [if ?b then _ else _] => destruct b end.
    - apply on_sim_inv in E as (E & _). simpl in E.
      pose proof (keeps_Ok _ _ _ _ _ update_eqgm_keeps E) as K.
      apply pair_equal_spec in K as [K Kx]. apply pair_equal_spec in K as [K Kve].
      apply pair_equal_spec in K as [K Ks]. done.
    - apply ret_Ok in E as [_ ->]. done. }
  clear E. apply ledger_eq in K12 as (Kc12 & Kcy12 & Kh12 & Kf12 & Ke12 & Kv12 & Ku12).
  exists adj, (stability s4), field, x.
  split_and!.
  - by rewrite Kc12, Kc11, Kc10, Kc9, Kc8, Kc6, Kc5, Kc4, Kc3, Kc2.
  - by rewrite Kcy12, Kcy11, Kcy10, Kcy9, Kcy8, Kcy6, Kcy5, Kcy4, Kcy3, Kcy2.
  - done.
  - intros Hnil.
    rewrite Ks12, Ks11, Ks10, Ks9, Ks8, (Hs6 Hnil), <- Hblend.
    by rewrite Kc4, Kc3, Kc2.
  - rewrite Kv12, Kv11, Kv10, Kve12, Kve11, Kve10.
    by rewrite Kc9, Kc8, Kc6, Kc5, Kc4, Kc3, Kc2, Kv9, Kv8, Kv6, Kv5, Kv4, Kv3, Kv2.
  - by rewrite Kx12, Kx11.
  - rewrite Ku12, Ku11, Ku10.
    by rewrite Kc9, Kc8, Kc6, Kc5, Kc4, Kc3, Kc2, Ku9, Ku8, Ku6, Ku5, Ku4, Ku3, Ku2.
  - rewrite Kf12, Kf11.
    by rewrite Kf10, Kf9, Kf8, Kf6, Kf5, Kf4, Kf3, Kf2.
  - rewrite Kf12, Kh12, Ke12.
    destruct (free_energy s11 <? 0)%float.
    + destruct Htrl as (? & ? & _). done.
    + destruct Htrl as (-> & -> & _).
      rewrite Kh10, Kh9, Kh8, Kh6, Kh5, Kh4, Kh3, Kh2.
      by rewrite Ke10, Ke9, Ke8, Ke6, Ke5, Ke4, Ke3, Ke2.
Qed.

(** ** C4: exhaustion *)




(** ** C8: the range of the node states *)

Lemma preserves_keeps {S A X} (proj : S -> X) (c : X) (m : M S A) :
  keeps proj m -> preserves (fun s => proj s = c) m.
Proof. intros Hk s Hs. by rewrite Hk. Qed.

Lemma preserves_bind {S A B} (P : S -> Prop) (m : M S A) (k : A -> M S B) :
  preserves P m -> (forall a, preserves P (k a)) -> preserves P (bind m k).
Proof.
  intros Hm Hk s Hs. unfold bind. specialize (Hm s Hs).
  destruct (m s) as [[a|e] s1]; simpl in *; [|done].
  by apply Hk.
Qed.

Lemma preserves_modify {S} (P : S -> Prop) (f : S -> S) :
  (forall s, P s -> P (f s)) -> preserves P (modify f).
Proof. intros Hf s Hs. by apply Hf. Qed.

Lemma preserves_on_sim `{Types} {A} (P : Simulation -> Prop) (m : M Simulation A) :
  preserves P m -> preserves (fun w => P (fst w)) (Simulation.on_sim m).
Proof.
  intros Hm [s g] Hs. unfold Simulation.on_sim, zoom. simpl in *.
  specialize (Hm s Hs). by destruct (m s).
Qed.

Ltac no_agis_tac :=
  repeat first
    [ apply preserves_bind; [|intros]
    | apply (preserves_keeps agi_entities []); solve [keeps_tac]
    | apply preserves_modify; intros ? Hs; first [reflexivity | exact Hs]
    | match goal with
      | |- preserves _ (if ?b then _ else _) => destruct b
      end ].

Lemma reset_no_agis `{Library} `{!Kernels} : preserves no_agis Simulation.reset.
Proof.
  unfold Simulation.reset, Simulation.log_event, no_agis. no_agis_tac.
Qed.

Lemma update_entanglement_no_agis `{Library} :
  preserves (fun w => no_agis (fst w)) Simulation.update_entanglement.
Proof.
  unfold Simulation.update_entanglement, no_agis.
  repeat first
    [ apply preserves_bind; [|intros]
    | apply (preserves_on_sim (fun s => agi_entities s = []));
      first [ apply (preserves_keeps agi_entities []); solve [keeps_tac]
            | apply preserves_modify; intros ? Hs; exact Hs
            | apply (preserves_keeps agi_entities []);
              apply keeps_for_each; intros; unfold Simulation.entangle_node;
              solve [keeps_tac] ]
    | apply (preserves_keeps (fun w => agi_entities (fst w)) []);
      solve [keeps_tac]
    | match goal with
      | |- preserves _ (if ?b then _ else _) => destruct b
      end ].
Qed.

Lemma update_no_agis `{Library} `{!Kernels} :
  preserves (fun w => no_agis (fst w)) Simulation.update.
Proof.
  unfold Simulation.update.
  apply preserves_bind; [apply (preserves_on_sim no_agis); unfold no_agis; no_agis_tac|].
  intros [|]; [by intros ? ?|].
  apply preserves_bind.
  { apply (preserves_on_sim no_agis).
    unfold Simulation._fractal_light_cone_skip, Simulation.log_event, no_agis.
    no_agis_tac. }
  intros [|]; [by intros ? ?|].
  repeat lazymatch goal with
         | |- preserves _ (bind _ _) => apply preserves_bind; [|intros]
         end;
    try (apply (preserves_on_sim no_agis)).
  - unfold no_agis. no_agis_tac.
  - unfold Simulation.stability_adjustment, no_agis. no_agis_tac.
  - unfold Simulation.apply_adjustment, no_agis. no_agis_tac.
  - apply update_entanglement_no_agis.
  - intros s Hs. by rewrite update_agis_none.
  - by intros ? ?.
  - unfold Simulation.update_multiverse, no_agis. no_agis_tac.
  - unfold Simulation.update_void_entropy, no_agis. no_agis_tac.
  - unfold Simulation.record_trends, no_agis. no_agis_tac.
  - unfold Simulation.trl_update, Simulation.log_event, no_agis. no_agis_tac.
  - unfold no_agis. no_agis_tac.
  - match goal with |- preserves _ (if ?b then _ else _) => destruct b end.
    + apply (preserves_on_sim no_agis).
      unfold Simulation._update_eqgm, no_agis. no_agis_tac.
    + by intros ? ?.
Qed.

(** No state the main loop reaches holds an entity: the constructor
    leaves the list empty and nothing in v7.0 appends to it. *)
Lemma reachable_no_agis `{Library} `{!Kernels} cfg cs (g : RandomState) :
  no_agis (fst (exec_all cs (snd (Simulation_init cfg), g))).
Proof.
  assert (no_agis (fst (snd (Simulation_init cfg), g))) as Hstart.
  { simpl. by apply reset_no_agis. }
  revert Hstart. generalize (snd (Simulation_init cfg), g).
  induction cs as [|c cs IH]; intros w Hw; simpl; [done|].
  apply IH. destruct c; simpl.
  - by apply update_no_agis.
  - apply (preserves_on_sim no_agis); [apply reset_no_agis|done].
Qed.




(** ** Witnesses for C5 and C10 *)


Lemma low_variance_skip_witness :
  let w := (set_stability (replicate 8 0.5%float) ref_start, 1%float) in
  ref_update w
  = (Ok tt,
     (set_event_log
        (if cycle (fst w) mod 20 =? 0 then
           deque_append 20
             (Simulation.event_line (cycle (fst w)) "Scheduler" "Fractal skip triggered.")
             (event_log (fst w))
         else event_log (fst w))
        (fst w),
      snd w)).
Proof.
  apply (@low_variance_skip ref_types ref_library ref_kernels
           (set_stability (replicate 8 0.5%float) ref_start, 1%float)).
  - reflexivity.
  - vm_compute. reflexivity.
Defined.

(** ** C3: determinism *)


(** * Further properties of the union-find *)

(** ** Exceptions of find *)

Lemma find_keeps_charges depth i u :
  UF.z2_charge (snd (UF.find depth i u)) = UF.z2_charge u /\
  UF.z4_charge (snd (UF.find depth i u)) = UF.z4_charge u.
Proof.
  revert i u. induction depth as [|d IH]; intros i u; [done|].
  rewrite find_S. destruct (getitem (UF.parent u) i) as [q|e]; [|done].
  destruct (q =? i); [done|].
  specialize (IH q u). destruct (UF.find d q u) as [[r|e] u1]; [|done].
  simpl in IH. destruct (setitem (UF.parent u1) i r); done.
Qed.

Lemma getitem_is_Ok {A} (a : list A) i :
  is_ok (getitem a i) = true <-> norm_index (length a) i <> None.
Proof.
  unfold getitem. destruct (norm_index (length a) i) as [k|] eqn:E.
  - destruct (norm_index_Some _ _ _ E) as (Hk & _).
    destruct (lookup_lt_is_Some_2 a k Hk) as (v & ->). done.
  - split; [discriminate|done].
Qed.

(** X1. A call of [find] that raises, whatever the exception and however
    deep in the recursion it arose, has not changed the structure. *)
Theorem find_exception_safe (depth : nat) (i : Z) (u : UF.t) (e : exn) :
  fst (UF.find depth i u) = Raise e -> snd (UF.find depth i u) = u.
Proof.
  revert i u. induction depth as [|d IH]; intros i u; [done|].
  rewrite find_S.
  destruct (getitem (UF.parent u) i) as [q|e0] eqn:Eg; [|done].
  destruct (q =? i); [discriminate|].
  specialize (IH q u). pose proof (find_length d q u) as Hl.
  destruct (UF.find d q u) as [[r|e1] u1]; simpl in *; [|auto].
  assert (norm_index (length (UF.parent u1)) i <> None) as Hn.
  { rewrite Hl. apply getitem_is_Ok. by rewrite Eg. }
  unfold setitem. destruct (norm_index (length (UF.parent u1)) i) as [k|] eqn:En;
    [|done].
  simpl. unfold getitem. rewrite length_insert, En.
  destruct (norm_index_Some _ _ _ En) as (Hk & _).
  rewrite list_lookup_insert_eq by done. discriminate.
Qed.

Lemma find_exception_safe_witness :
  let u := run 5 [Union 1 0; Union 2 1] (UF.init 3) in
  snd (UF.find 2 0 u) = u.
Proof.
  apply (find_exception_safe 2 0 _ RecursionError). vm_compute. reflexivity.
Defined.

(** ** Path compression *)

Lemma find_result_is_parent depth i u r u' :
  UF.find depth i u = (Ok r, u') -> getitem (UF.parent u') i = Ok r.
Proof.
  destruct depth as [|d]; [discriminate|]. rewrite find_S.
  destruct (getitem (UF.parent u) i) as [q|e] eqn:Eg; [|discriminate].
  destruct (Z.eqb_spec q i) as [->|Hne].
  - intros [= <- <-]. done.
  - destruct (UF.find d q u) as [[r1|e] u1]; [|discriminate].
    destruct (setitem (UF.parent u1) i r1) as [p2|e]; [|discriminate].
    intros [= E <-]. done.
Qed.

Lemma find_root depth u r :
  UF.parent u !! r = Some (Z.of_nat r) ->
  UF.find (S depth) (Z.of_nat r) u = (Ok (Z.of_nat r), u).
Proof.
  intros Hr. rewrite find_S, (getitem_nat _ _ _ Hr). by rewrite Z.eqb_refl.
Qed.

(** The representatives [find] reports are those of the forest, before
    and after any shortening of paths. *)
Lemma find_refines depth u p' k :
  consistent u -> refines (UF.parent u) p' ->
  (length (UF.parent u) < depth)%nat -> (k < length (UF.parent u))%nat ->
  fst (UF.find depth (Z.of_nat k) (UF.set_parent p' u))
  = fst (UF.find depth (Z.of_nat k) u).
Proof.
  intros Hc Href Hd Hk. pose proof Hc as (Hf & _).
  destruct (Hf k Hk) as (h & r & Hr).
  destruct (find_ok depth u _ _ _ Hc Hd Hr) as (p1 & _ & ->).
  pose proof Href as (Hl & _ & Hp).
  destruct (Hp _ _ _ Hr) as (h' & _ & Hr').
  destruct (find_ok depth (UF.set_parent p' u) _ _ _
              (refines_consistent _ _ Hc Href) ltac:(simpl; lia) Hr')
    as (p2 & _ & ->).
  done.
Qed.

(** X2. Path compression: on a structure built by calls from the
    constructor, with a valid index and frames for the recursion,
    [find(i)] returns a node [r] that is its own parent; afterwards
    [parent[i]] is [r], a second [find] on [r] returns [r] and changes
    nothing, both charge arrays are as before, and every node has the
    representative it had before the call. *)
Theorem find_compresses (depth0 n : nat) (calls : list call) (depth : nat) (i : Z) :
  let u := run depth0 calls (UF.init n) in
  0 <= i < Z.of_nat (length (UF.parent u)) ->
  (length (UF.parent u) < depth)%nat ->
  exists r : Z,
    fst (UF.find depth i u) = Ok r /\
    let u' := snd (UF.find depth i u) in
    getitem (UF.parent u') i = Ok r /\
    getitem (UF.parent u') r = Ok r /\
    UF.find depth r u' = (Ok r, u') /\
    UF.z2_charge u' = UF.z2_charge u /\
    UF.z4_charge u' = UF.z4_charge u /\
    length (UF.parent u') = length (UF.parent u) /\
    forall k, 0 <= k < Z.of_nat (length (UF.parent u)) ->
      fst (UF.find depth k u') = fst (UF.find depth k u).
Proof.
  intros u Hi Hd.
  assert (consistent u) as Hc by apply run_consistent, init_consistent.
  pose proof Hc as (Hf & _).
  destruct (Hf (Z.to_nat i)) as (h & r & Hr); [lia|].
  destruct (find_ok depth u _ _ _ Hc Hd Hr) as (p' & Href & E).
  rewrite Z2Nat.id in E by lia.
  exists (Z.of_nat r). rewrite E. simpl.
  destruct (refines_is_root_reaches _ _ _ _ _ Href Hr) as (Hroot & Hrl).
  apply is_root_true in Hroot.
  pose proof Href as (Hl & _).
  split_and!; [done| | | |done|done|done|].
  - by apply (find_result_is_parent _ _ _ _ _ E).
  - by apply getitem_nat.
  - destruct depth as [|d]; [lia|]. by apply find_root.
  - intros k Hk. rewrite <- (Z2Nat.id k) by lia.
    apply find_refines; [done..|lia].
Qed.

Lemma find_compresses_witness :
  let u := run 5 [Union 1 0; Union 2 1] (UF.init 3) in
  exists r : Z,
    fst (UF.find 5 0 u) = Ok r /\
    let u' := snd (UF.find 5 0 u) in
    getitem (UF.parent u') 0 = Ok r /\
    getitem (UF.parent u') r = Ok r /\
    UF.find 5 r u' = (Ok r, u') /\
    UF.z2_charge u' = UF.z2_charge u /\
    UF.z4_charge u' = UF.z4_charge u /\
    length (UF.parent u') = length (UF.parent u) /\
    forall k, 0 <= k < Z.of_nat (length (UF.parent u)) ->
      fst (UF.find 5 k u') = fst (UF.find 5 k u).
Proof.
  apply (find_compresses 5 3 [Union 1 0; Union 2 1] 5 0).
  - vm_compute. split; [discriminate|reflexivity].
  - vm_compute. lia.
Defined.

(** ** A call of union that does not merge *)

(** X3. A call of [union] that raises, on a structure built by calls from
    the constructor, has merged nothing: both charge arrays are as they
    were, the arrays have kept their length, and every node has the
    representative it had (the parent array may have been rewritten by
    the path compression of the [find] that returned). *)
Theorem union_failure_keeps_sets (depth0 n : nat) (calls : list call)
    (depth : nat) (i j : Z) (e : exn) :
  let u := run depth0 calls (UF.init n) in
  fst (UF.union depth i j u) = Raise e ->
  let u' := snd (UF.union depth i j u) in
  UF.z2_charge u' = UF.z2_charge u /\
  UF.z4_charge u' = UF.z4_charge u /\
  length (UF.parent u') = length (UF.parent u) /\
  count_roots (UF.parent u') = count_roots (UF.parent u) /\
  forall d k, (length (UF.parent u) < d)%nat ->
    0 <= k < Z.of_nat (length (UF.parent u)) ->
    fst (UF.find d k u') = fst (UF.find d k u).
Proof.
  intros u He.
  assert (consistent u) as Hc by apply run_consistent, init_consistent.
  destruct (union_cases depth u i j Hc)
    as [(p' & Href & Hs & _)|(p' & a & b & _ & _ & _ & _ & E)];
    [|rewrite E in He; discriminate].
  simpl. rewrite Hs. simpl. pose proof Href as (Hl & _).
  split_and!; [done..|by apply refines_count_roots|].
  intros d k Hd Hk. rewrite <- (Z2Nat.id k) by lia.
  apply find_refines; [done..|lia].
Qed.

Lemma union_failure_keeps_sets_witness :
  let u := run 5 [Union 1 0; Union 2 1] (UF.init 3) in
  let u' := snd (UF.union 5 0 9 u) in
  UF.parent u' <> UF.parent u /\
  UF.z2_charge u' = UF.z2_charge u /\
  UF.z4_charge u' = UF.z4_charge u /\
  length (UF.parent u') = length (UF.parent u) /\
  count_roots (UF.parent u') = count_roots (UF.parent u) /\
  forall d k, (length (UF.parent u) < d)%nat ->
    0 <= k < Z.of_nat (length (UF.parent u)) ->
    fst (UF.find d k u') = fst (UF.find d k u).
Proof.
  split; [vm_compute; discriminate|].
  apply (union_failure_keeps_sets 5 3 [Union 1 0; Union 2 1] 5 0 9 IndexError).
  vm_compute. reflexivity.
Defined.

(** ** The depth of the recursion *)

(** With too few frames for the path, [find] raises [RecursionError]. *)
Lemma find_needs_depth p h k r :
  reaches p h k r ->
  forall depth u, UF.parent u = p -> (depth <= h)%nat ->
    UF.find depth (Z.of_nat k) u = (Raise RecursionError, u).
Proof.
  induction 1 as [k Hk|h k q r Hk Hq _ IH]; intros depth u Hp Hd.
  - by replace depth with O by lia.
  - destruct depth as [|d]; [done|]. rewrite find_S, Hp.
    rewrite (getitem_nat _ _ _ Hk).
    destruct (Z.eqb_spec (Z.of_nat q) (Z.of_nat k)) as [E|_]; [lia|].
    rewrite (IH d u Hp) by lia. done.
Qed.

Lemma chain_parent_lookup k m x :
  (x < m)%nat ->
  chain_parent k m !! x = Some (Z.of_nat (if decide (x < k)%nat then S x else x)).
Proof.
  intros Hx. unfold chain_parent. rewrite list_lookup_fmap.
  by rewrite lookup_seq_lt.
Qed.

Lemma chain_parent_length k m : length (chain_parent k m) = m.
Proof. unfold chain_parent. by rewrite length_fmap, length_seq. Qed.

Lemma chain_parent_0 m : chain_parent 0 m = arange m.
Proof. done. Qed.

Lemma chain_parent_S k m :
  (k < m)%nat -> <[k:=Z.of_nat (S k)]> (chain_parent k m) = chain_parent (S k) m.
Proof.
  intros Hk. apply list_eq. intros x.
  destruct (decide (x < m)%nat) as [Hx|Hx].
  - rewrite (chain_parent_lookup (S k)) by done.
    destruct (decide (x = k)) as [->|Hne].
    + rewrite list_lookup_insert_eq by (by rewrite chain_parent_length).
      by rewrite decide_True by lia.
    + rewrite list_lookup_insert_ne by done.
      rewrite chain_parent_lookup by done.
      repeat case_decide; done || lia.
  - rewrite !lookup_ge_None_2;
      rewrite ?length_insert, ?chain_parent_length; done || lia.
Qed.

Lemma zeros_insert_0 m k : <[k:=0]> (zeros m) = zeros m.
Proof.
  unfold zeros. destruct (decide (k < m)%nat) as [Hk|Hk].
  - apply list_insert_id. by apply lookup_replicate_2.
  - apply list_insert_ge. rewrite length_replicate. lia.
Qed.

Lemma chain_step depth k m :
  (S k < m)%nat ->
  UF.union (S depth) (Z.of_nat (S k)) (Z.of_nat k)
    (UF.mk (chain_parent k m) (zeros m) (zeros m))
  = (Ok true, UF.mk (chain_parent (S k) m) (zeros m) (zeros m)).
Proof.
  intros Hk. rewrite union_unfold.
  rewrite find_root
    by (simpl; rewrite chain_parent_lookup by lia; by rewrite decide_False by lia).
  rewrite find_root
    by (simpl; rewrite chain_parent_lookup by lia; by rewrite decide_False by lia).
  destruct (Z.eqb_spec (Z.of_nat (S k)) (Z.of_nat k)) as [E|_]; [lia|]. simpl.
  rewrite merge_roots_ok; simpl;
    rewrite ?chain_parent_length; unfold zeros; rewrite ?length_replicate;
    try (done || lia).
  unfold merged. simpl.
  rewrite chain_parent_S by lia.
  unfold charge_at. rewrite !lookup_replicate_2 by lia. simpl.
  change (replicate m 0) with (zeros m). by rewrite !zeros_insert_0.
Qed.

Lemma chain_run depth j k m :
  (k + j < m)%nat ->
  run (S depth) ((fun x => Union (Z.of_nat (S x)) (Z.of_nat x)) <$> seq k j)
    (UF.mk (chain_parent k m) (zeros m) (zeros m))
  = UF.mk (chain_parent (k + j) m) (zeros m) (zeros m) /\
  merges (S depth) ((fun x => Union (Z.of_nat (S x)) (Z.of_nat x)) <$> seq k j)
    (UF.mk (chain_parent k m) (zeros m) (zeros m)) = j.
Proof.
  revert k. induction j as [|j IH]; intros k Hk.
  - simpl. by rewrite Nat.add_0_r.
  - cbn [seq fmap list_fmap run merges].
    rewrite chain_step by lia. cbn [fst snd].
    destruct (IH (S k)) as [-> ->]; [lia|].
    split; [f_equal; f_equal; lia|done].
Qed.

Lemma chain_reaches n x :
  (x <= n)%nat -> reaches (chain_parent n (S n)) (n - x) x n.
Proof.
  intros Hx. remember (n - x)%nat as h eqn:Hh. revert x Hx Hh.
  induction h as [|h IH]; intros x Hx Hh.
  - assert (x = n) as -> by lia. constructor.
    rewrite chain_parent_lookup by lia. by rewrite decide_False by lia.
  - apply reaches_step with (q := S x); [|lia|apply IH; lia].
    rewrite chain_parent_lookup by lia. by rewrite decide_True by lia.
Qed.

(** X4. No balancing bounds the recursion of [find]: the [n] calls
    [union(1, 0)], ..., [union(n, n - 1)] on [n + 1] fresh nodes all
    merge and leave the chain 0 -> 1 -> ... -> n, and [find(0)] on it
    raises [RecursionError] unless [n + 1] frames are available, in which
    case it returns [n]. *)
Theorem chain_needs_linear_depth (n depth : nat) :
  let u := run 1 (chain_calls n) (UF.init (S n)) in
  UF.parent u = (Z.of_nat <$> seq 1 n) ++ [Z.of_nat n] /\
  merges 1 (chain_calls n) (UF.init (S n)) = n /\
  fst (UF.find depth 0 u)
  = (if (depth <=? n)%nat then Raise RecursionError else Ok (Z.of_nat n)).
Proof.
  intros u.
  destruct (chain_run 0 n 0 (S n)) as [Hrun Hm]; [lia|].
  change (UF.mk (chain_parent 0 (S n)) (zeros (S n)) (zeros (S n)))
    with (UF.init (S n)) in Hrun, Hm.
  change ((fun x => Union (Z.of_nat (S x)) (Z.of_nat x)) <$> seq 0 n)
    with (chain_calls n) in Hrun, Hm.
  assert (UF.parent u = chain_parent n (S n)) as Hp by (unfold u; by rewrite Hrun).
  pose proof (chain_reaches n 0 ltac:(lia)) as Hr. rewrite Nat.sub_0_r in Hr.
  split_and!; [|done|].
  - rewrite Hp. apply list_eq. intros x.
    destruct (decide (x < S n)%nat) as [Hx|Hx].
    + rewrite chain_parent_lookup by done.
      destruct (decide (x < n)%nat) as [Hlt|Hge].
      * rewrite lookup_app_l by (rewrite length_fmap, length_seq; lia).
        rewrite list_lookup_fmap, lookup_seq_lt by done. done.
      * assert (x = n) as -> by lia.
        rewrite lookup_app_r by (rewrite length_fmap, length_seq; lia).
        rewrite length_fmap, length_seq, Nat.sub_diag. done.
    + rewrite !lookup_ge_None_2;
        rewrite ?chain_parent_length, ?length_app, ?length_fmap, ?length_seq;
        simpl; done || lia.
  - change 0 with (Z.of_nat 0).
    destruct (Nat.leb_spec depth n) as [Hle|Hgt].
    + by rewrite (find_needs_depth _ _ _ _ Hr depth u Hp Hle).
    + rewrite <- Hp in Hr.
      destruct (find_spec depth u (Z.of_nat 0) 0%nat n n) as [(p' & _ & ->)|(Hle & _)];
        [apply (norm_index_nat _ 0%nat); rewrite Hp, chain_parent_length; lia
        |done|done|change (extra_frame (Z.of_nat 0)) with 0%nat in Hle; lia].
Qed.

(** ** add_node *)

(** X5. A node added by [add_node] is a set of its own: on a structure
    built by calls from the constructor it gets the next index and the
    charges drawn, [find] on it returns it and changes nothing, there is
    one representative more, every older node keeps its representative,
    and a [union] of the new node with any older one merges. *)
Theorem add_node_fresh_singleton (depth0 n : nat) (calls : list call)
    (a b : Z) (depth : nat) :
  let u := run depth0 calls (UF.init n) in
  let new_idx := Z.of_nat (length (UF.parent u)) in
  let u' := UF.add_node a b u in
  (S (length (UF.parent u)) < depth)%nat ->
  UF.find depth new_idx u' = (Ok new_idx, u') /\
  getitem (UF.z2_charge u') new_idx = Ok a /\
  getitem (UF.z4_charge u') new_idx = Ok b /\
  count_roots (UF.parent u') = count_roots (UF.parent u) + 1 /\
  forall k, 0 <= k < new_idx ->
    fst (UF.find depth k u') = fst (UF.find depth k u) /\
    fst (UF.union depth new_idx k u') = Ok true.
Proof.
  intros u new_idx u' Hd.
  assert (consistent u) as Hc by apply run_consistent, init_consistent.
  pose proof (add_node_consistent a b u Hc) as Hc'. fold u' in Hc'.
  pose proof Hc as (Hf & _ & H2 & H4).
  assert (UF.parent u' !! length (UF.parent u)
          = Some (Z.of_nat (length (UF.parent u)))) as Hnew.
  { simpl. by rewrite list_lookup_middle. }
  assert (length (UF.parent u') = S (length (UF.parent u))) as Hl.
  { simpl. rewrite length_app. simpl. lia. }
  split_and!.
  - destruct depth as [|d]; [lia|]. by apply find_root.
  - apply getitem_nat. simpl. by rewrite <- H2, list_lookup_middle.
  - apply getitem_nat. simpl. by rewrite <- H4, list_lookup_middle.
  - unfold count_roots. simpl.
    rewrite (add_node_root_sum _ (replicate (length (UF.parent u)) 1) 1);
      [| by rewrite length_replicate
       | intros k' Hk'; unfold charge_at; by rewrite lookup_replicate_2
       | done].
    f_equal. apply root_sum_ext; [done..|].
    intros k' Hk' _. unfold charge_at. by rewrite lookup_replicate_2.
  - intros k Hk. unfold new_idx in Hk.
    destruct (Hf (Z.to_nat k)) as (h & r & Hr); [lia|].
    pose proof (add_node_reaches _ _ _ _ Hr) as Hr'.
    destruct (reaches_lt _ _ _ _ Hr) as (_ & Hrl & _).
    destruct (find_ok depth u _ _ _ Hc ltac:(lia) Hr) as (p1 & _ & E1).
    destruct (find_ok depth u' _ _ _ Hc' ltac:(lia) Hr') as (p2 & _ & E2).
    rewrite Z2Nat.id in E1, E2 by lia. rewrite E1, E2.
    split; [done|].
    destruct (union_ok depth u' (length (UF.parent u)) (Z.to_nat k) 0 h
                (length (UF.parent u)) r Hc' ltac:(lia)
                ltac:(by constructor) Hr') as (p3 & _ & E3).
    rewrite Z2Nat.id in E3 by lia. unfold new_idx. rewrite E3. simpl.
    destruct (Z.eqb_spec (Z.of_nat (length (UF.parent u))) (Z.of_nat r)); [lia|done].
Qed.

Lemma add_node_fresh_singleton_witness :
  let u := run 5 [Union 1 0] (UF.init 2) in
  let u' := UF.add_node 1 3 u in
  UF.find 5 2 u' = (Ok 2, u') /\
  getitem (UF.z2_charge u') 2 = Ok 1 /\
  getitem (UF.z4_charge u') 2 = Ok 3 /\
  count_roots (UF.parent u') = count_roots (UF.parent u) + 1 /\
  forall k, 0 <= k < 2 ->
    fst (UF.find 5 k u') = fst (UF.find 5 k u) /\
    fst (UF.union 5 2 k u') = Ok true.
Proof.
  apply (add_node_fresh_singleton 5 2 [Union 1 0] 1 3 5).
  vm_compute. lia.
Defined.

(** ** The range of the charges *)

Lemma Forall_insert_2 {A} (P : A -> Prop) (l : list A) k v :
  Forall P l -> P v -> Forall P (<[k:=v]> l).
Proof.
  intros Hl Hv. destruct (decide (k < length l)%nat) as [Hk|Hk].
  - by apply Forall_insert.
  - by rewrite list_insert_ge by lia.
Qed.

(** X6. The charges stay in their groups: when every [add_node] draws its
    charge-A from {0, 1} and its charge-B from {0, 1, 2, 3}, as
    [rng.integers(0, 2)] and [rng.integers(0, 4)] do, every entry of the
    charge-A array is 0 or 1 and every entry of the charge-B array is in
    0..3 after any sequence of calls, raising ones included. *)
Theorem charges_stay_in_range (depth n : nat) (calls : list call) :
  Forall draws_in_range calls ->
  let u := run depth calls (UF.init n) in
  Forall (fun x => 0 <= x < 2) (UF.z2_charge u) /\
  Forall (fun x => 0 <= x < 4) (UF.z4_charge u).
Proof.
  intros Hcalls.
  assert (forall u, consistent u ->
            Forall (fun x => 0 <= x < 2) (UF.z2_charge u) /\
            Forall (fun x => 0 <= x < 4) (UF.z4_charge u) ->
            Forall (fun x => 0 <= x < 2) (UF.z2_charge (run depth calls u)) /\
            Forall (fun x => 0 <= x < 4) (UF.z4_charge (run depth calls u))) as H.
  { induction Hcalls as [|c calls Hc _ IH]; intros u Hu Hr; [done|].
    destruct c as [i j|a b]; simpl.
    - apply IH; [by apply union_consistent|].
      destruct Hr as [H2 H4].
      destruct (union_cases depth u i j Hu)
        as [(p' & _ & -> & _)|(p' & x & y & _ & _ & _ & _ & ->)]; simpl; [done|].
      split; apply Forall_insert_2; try done.
      + apply Z.mod_pos_bound. lia.
      + apply Z.mod_pos_bound. lia.
    - apply IH; [by apply add_node_consistent|].
      destruct Hr as [H2 H4]. destruct Hc as [Ha Hb]. simpl.
      split; apply Forall_app; (split; [done|]); by apply Forall_singleton. }
  apply H; [apply init_consistent|].
  simpl. unfold zeros. split; apply Forall_replicate; lia.
Qed.

Lemma charges_stay_in_range_witness :
  let u := run 5 [AddNode 1 3; AddNode 1 2; Union 0 1; Union 1 7] (UF.init 0) in
  Forall (fun x => 0 <= x < 2) (UF.z2_charge u) /\
  Forall (fun x => 0 <= x < 4) (UF.z4_charge u).
Proof.
  apply (charges_stay_in_range 5 0 [AddNode 1 3; AddNode 1 2; Union 0 1; Union 1 7]).
  repeat constructor; simpl; lia.
Defined.

(** ** Counting the sets *)

Lemma run_count_roots depth calls u :
  consistent u ->
  count_roots (UF.parent (run depth calls u))
  = count_roots (UF.parent u) + Z.of_nat (length (created calls))
    - Z.of_nat (merges depth calls u).
Proof.
  revert u. induction calls as [|[i j|a b] calls IH]; intros u Hc; simpl.
  - lia.
  - rewrite IH by (by apply union_consistent).
    destruct (union_cases depth u i j Hc)
      as [(p' & Href & Hs & Hne)|(p' & x & y & Href & Hx & Hy & Hxy & E)].
    + rewrite Hs. simpl. rewrite (refines_count_roots _ _ Href).
      destruct (fst (UF.union depth i j u)) as [[|]|e]; [done|lia..].
    + rewrite E. simpl. unfold count_roots at 1.
      rewrite link_root_sum by done.
      fold (count_roots p'). rewrite (refines_count_roots _ _ Href). lia.
  - rewrite IH by (by apply add_node_consistent). simpl.
    unfold count_roots at 1.
    rewrite (add_node_root_sum _ (replicate (length (UF.parent u)) 1) 1);
      [| by rewrite length_replicate
       | intros k' Hk'; unfold charge_at; by rewrite lookup_replicate_2
       | done].
    assert (root_sum (UF.parent u) (charge_at (replicate (length (UF.parent u)) 1))
            = count_roots (UF.parent u)) as ->; [|lia].
    apply root_sum_ext; [done..|].
    intros k' Hk' _. unfold charge_at. by rewrite lookup_replicate_2.
Qed.

(** X7. The sets are counted by the merges: after any sequence of calls
    on a structure constructed with [n] nodes, the number of
    representatives is [n] plus the number of nodes added minus the
    number of [union] calls that returned [True]; calls that returned
    [False] or raised do not count. *)
Theorem representatives_count (depth n : nat) (calls : list call) :
  let u := run depth calls (UF.init n) in
  count_roots (UF.parent u)
  = Z.of_nat n + Z.of_nat (length (created calls))
    - Z.of_nat (merges depth calls (UF.init n)) /\
  length (UF.parent u) = (n + length (created calls))%nat.
Proof.
  intros u. split.
  - unfold u. rewrite run_count_roots by apply init_consistent.
    simpl. unfold count_roots, root_sum. rewrite arange_length.
    rewrite (zsum_ext _ (fun _ => 1)), zsum_const; [lia|].
    intros k Hk. by rewrite init_is_root.
  - unfold u. clear u.
    assert (forall u, consistent u ->
              length (UF.parent (run depth calls u))
              = (length (UF.parent u) + length (created calls))%nat) as H.
    { induction calls as [|[i j|a b] calls IH]; intros u Hc; simpl.
      - lia.
      - rewrite IH by (by apply union_consistent).
        destruct (union_cases depth u i j Hc)
          as [(p' & (Hl & _) & -> & _)|(p' & x & y & (Hl & _) & _ & _ & _ & ->)];
          simpl; rewrite ?length_insert; lia.
      - rewrite IH by (by apply add_node_consistent). simpl.
        rewrite length_app. simpl. lia. }
    rewrite H by apply init_consistent. simpl. by rewrite arange_length.
Qed.

(** * Further properties of the simulation *)

(** ** reset *)

Ltac reset_step :=
  match goal with
  | |- context [rng_uniform_array ?a ?b ?n ?g] =>
      destruct (rng_uniform_array a b n g) as [[?|?] ?]
  | |- context [rng_integers_array ?a ?b ?n ?g] =>
      destruct (rng_integers_array a b n g) as [[?|?] ?]
  | |- context [Multiverse_init ?a ?b ?g] =>
      destruct (Multiverse_init a b g) as [? ?]
  | |- context [rng_uniform ?a ?b ?g] =>
      destruct (rng_uniform a b g) as [? ?]
  | |- context [np_zeros ?n] => destruct (np_zeros n)
  | |- context [if ?x <? 0 then _ else _] => destruct (x <? 0)
  end; simpl.

(** [reset] reads the configuration and nothing else of the state it
    starts from, and of the seed only its ten squarings. *)
Lemma reset_depends `{Library} `{!Kernels} (s1 s2 : Simulation) :
  with_seed 0 (config s1) = with_seed 0 (config s2) ->
  Simulation.vdf_seed (SEED (config s1)) = Simulation.vdf_seed (SEED (config s2)) ->
  fst (Simulation.reset s1) = fst (Simulation.reset s2) /\
  (fst (Simulation.reset s1) = Ok tt ->
   snd (Simulation.reset s2)
   = set_config (config s2) (set_usm (usm s2) (snd (Simulation.reset s1)))).
Proof.
  intros Hc Hseed.
  unfold Simulation.reset.
  change (bind (gets config) ?k ?s) with (k (config s) s). cbv beta.
  rewrite <- Hseed.
  generalize (default_rng (Simulation.vdf_seed (SEED (config s1)))). intros g0.
  clear Hseed.
  destruct (config s1) as [pc1 cl1 sd1 np1 ep1 ew1 vt1 um1 vr1 th1 at1 mb1] eqn:E1.
  destruct (config s2) as [pc2 cl2 sd2 np2 ep2 ew2 vt2 um2 vr2 th2 at2 mb2] eqn:E2.
  unfold with_seed in Hc. simpl in Hc.
  injection Hc as -> -> -> -> -> -> -> -> -> -> ->.
  unfold Simulation.log_event, bind, modify, gets, draw_checked, draw, lift,
    raise, ret.
  simpl.
  repeat reset_step.
  all: split; [done|try discriminate].
  intros _. destruct s1, s2. simpl in E1, E2. subst. reflexivity.
Qed.

Lemma reset_keeps_usm `{Library} `{!Kernels} : keeps usm Simulation.reset.
Proof. unfold Simulation.reset, Simulation.log_event. keeps_tac. Qed.



(** ** The seed *)

Lemma square_mod_opp (m b : Z) : ((- b) ^ 2) mod m = (b ^ 2) mod m.
Proof. f_equal. rewrite !Z.pow_2_r. lia. Qed.

Lemma square_mod_shift (m b k : Z) : ((b + k * m) ^ 2) mod m = (b ^ 2) mod m.
Proof.
  rewrite !Z.pow_2_r.
  replace ((b + k * m) * (b + k * m)) with (b * b + (2 * b * k + k * k * m) * m)
    by lia.
  apply Z_mod_plus_full.
Qed.

Lemma vdf_seed_first (seed : Z) :
  Simulation.vdf_seed seed
  = Nat.iter 9 (fun b => (b ^ 2) mod (2 ^ 32 - 1)) ((seed ^ 2) mod (2 ^ 32 - 1)).
Proof. unfold Simulation.vdf_seed. rewrite (Nat.iter_succ_r 9). reflexivity. Qed.

Lemma vdf_seed_collides (seed k : Z) :
  Simulation.vdf_seed (- seed) = Simulation.vdf_seed seed /\
  Simulation.vdf_seed (seed + k * (2 ^ 32 - 1)) = Simulation.vdf_seed seed /\
  0 <= Simulation.vdf_seed seed < 2 ^ 32 - 1.
Proof.
  split; [|split].
  - rewrite !vdf_seed_first, square_mod_opp. reflexivity.
  - rewrite !vdf_seed_first, square_mod_shift. reflexivity.
  - unfold Simulation.vdf_seed. rewrite Nat.iter_succ.
    apply Z.mod_pos_bound. reflexivity.
Qed.



(** ** Invariants of a cycle *)

Lemma leads_bind {S A B} (P R Q : S -> Prop) (m : M S A) (k : A -> M S B) :
  leads P m R -> (forall s, R s -> Q s) -> (forall a, leads R (k a) Q) ->
  leads P (bind m k) Q.
Proof.
  intros Hm HRQ Hk s Hs. unfold bind. specialize (Hm s Hs).
  destruct (m s) as [[a|e] s1]; simpl in *; [by apply Hk|by apply HRQ].
Qed.

Lemma leads_on_sim `{Types} {A} (P Q : Simulation -> Prop) (m : M Simulation A) :
  leads P m Q ->
  leads (fun w => P (fst w)) (Simulation.on_sim m) (fun w => Q (fst w)).
Proof.
  intros Hm [s g] Hs. unfold Simulation.on_sim, zoom. simpl in *.
  specialize (Hm s Hs). by destruct (m s).
Qed.

Lemma leads_ret {S A} (P Q : S -> Prop) (a : A) :
  (forall s, P s -> Q s) -> leads P (ret a) Q.
Proof. intros H s Hs. by apply H. Qed.

Lemma preserves_and_keeps {S A X} (P : S -> Prop) (proj : S -> X) (c : X) (m : M S A) :
  preserves P m -> keeps proj m -> preserves (fun s => P s /\ proj s = c) m.
Proof. intros HP Hk s [Hs Hc]. split; [by apply HP|by rewrite Hk]. Qed.

Lemma preserves_keeps_pred {S A X} (proj : S -> X) (Q : X -> Prop) (m : M S A) :
  keeps proj m -> preserves (fun s => Q (proj s)) m.
Proof. intros Hk s Hs. by rewrite Hk. Qed.

Lemma preserves_for_each {S A} (P : S -> Prop) (l : list A) (body : A -> M S unit) :
  (forall x, preserves P (body x)) -> preserves P (for_each l body).
Proof.
  intros Hb. induction l as [|x l IH]; simpl; [by intros ? ?|].
  apply preserves_bind; auto.
Qed.

Lemma keeps_on_sim `{Types} {A X} (proj : Simulation -> X) (m : M Simulation A) :
  keeps proj m -> keeps (fun w => proj (fst w)) (Simulation.on_sim m).
Proof.
  intros Hm [s g]. unfold Simulation.on_sim, zoom. simpl.
  specialize (Hm s). by destruct (m s).
Qed.

(** A cycle keeps an invariant [P] that its phases keep; while the cycle
    runs the halt flag is known to be clear, up to the ledger's phase. *)
Lemma update_invariant `{Library} `{!Kernels} (P : Simulation -> Prop) :
  let R := fun s => P s /\ halt s = false in
  preserves R Simulation._fractal_light_cone_skip ->
  preserves R (modify (fun s => set_cycle (cycle s + 1) s)) ->
  preserves R Simulation.stability_adjustment ->
  (forall adj, preserves R (Simulation.apply_adjustment adj)) ->
  preserves (fun w => R (fst w)) Simulation.update_entanglement ->
  preserves R Simulation.update_agis ->
  preserves R Simulation.update_multiverse ->
  preserves R Simulation.update_void_entropy ->
  preserves R Simulation.record_trends ->
  (forall adj, leads R (Simulation.trl_update adj) P) ->
  preserves P Simulation._update_eqgm ->
  preserves (fun w => P (fst w)) Simulation.update.
Proof.
  intros R Hskip Hcy Hadj Happ Hent Hagi Hmv Hve Hrt Htrl Heq [s g] HP.
  simpl in HP. unfold Simulation.update. unfold bind at 1.
  unfold Simulation.on_sim at 1, zoom, gets. simpl.
  destruct (halt s) eqn:Hh; [done|].
  assert (R (fst (s, g))) as HR by done.
  revert HR. generalize (s, g). clear s g HP Hh.
  change (leads (fun w => R (fst w))
            (skip <- Simulation.on_sim Simulation._fractal_light_cone_skip ;;
             if skip then ret tt
             else
               Simulation.on_sim (modify (fun s => set_cycle (cycle s + 1) s)) ;;;
               stability_adj <- Simulation.on_sim Simulation.stability_adjustment ;;
               Simulation.on_sim (Simulation.apply_adjustment stability_adj) ;;;
               Simulation.update_entanglement ;;;
               Simulation.on_sim Simulation.update_agis ;;;
               Simulation.on_sim Simulation.update_emergence ;;;
               Simulation.on_sim Simulation.update_multiverse ;;;
               Simulation.on_sim Simulation.update_void_entropy ;;;
               Simulation.on_sim Simulation.record_trends ;;;
               Simulation.on_sim (Simulation.trl_update stability_adj) ;;;
               c <- Simulation.on_sim (gets cycle) ;;
               if c mod 100 =? 0 then Simulation.on_sim Simulation._update_eqgm
               else ret tt)
            (fun w => P (fst w))).
  assert (forall w : Simulation * RandomState, R (fst w) -> P (fst w)) as HRP
    by (by intros ? [? _]).
  pose proof (fun A (m : M Simulation A) => leads_on_sim R R m) as Hon.
  apply (leads_bind _ (fun w => R (fst w))); [apply Hon, Hskip|done|].
  intros [|]; [by apply leads_ret|].
  apply (leads_bind _ (fun w => R (fst w))); [apply Hon, Hcy|done|intros _].
  apply (leads_bind _ (fun w => R (fst w))); [apply Hon, Hadj|done|intros adj].
  apply (leads_bind _ (fun w => R (fst w))); [apply Hon, Happ|done|intros _].
  apply (leads_bind _ (fun w => R (fst w))); [apply Hent|done|intros _].
  apply (leads_bind _ (fun w => R (fst w))); [apply Hon, Hagi|done|intros _].
  apply (leads_bind _ (fun w => R (fst w)));
    [apply Hon; by intros ? ?|done|intros _].
  apply (leads_bind _ (fun w => R (fst w))); [apply Hon, Hmv|done|intros _].
  apply (leads_bind _ (fun w => R (fst w))); [apply Hon, Hve|done|intros _].
  apply (leads_bind _ (fun w => R (fst w))); [apply Hon, Hrt|done|intros _].
  apply (leads_bind _ (fun w => P (fst w)));
    [apply leads_on_sim, Htrl|done|intros _].
  apply (leads_bind _ (fun w => P (fst w)));
    [apply leads_on_sim; by intros ? ?|done|intros c].
  destruct (c mod 100 =? 0); [apply leads_on_sim, Heq|by apply leads_ret].
Qed.

(** The phases before the ledger leave the halt flag alone. *)
Lemma entanglement_keeps `{Library} {X} (proj : Simulation -> X) :
  (forall v s, proj (set_stability v s) = proj s) ->
  (forall v s, proj (set_rng v s) = proj s) ->
  (forall v s, proj (set_uf v s) = proj s) ->
  keeps (fun w => proj (fst w)) Simulation.update_entanglement.
Proof.
  intros Hst Hrng Huf. unfold Simulation.update_entanglement.
  repeat first
    [ apply keeps_ret | apply keeps_raise | apply keeps_lift
    | apply keeps_on_sim
    | apply keeps_bind; [|intros]
    | apply keeps_gets
    | apply keeps_modify; intros; apply Hst
    | apply keeps_zoom; intros; reflexivity
    | match goal with
      | |- keeps _ (if ?b then _ else _) => destruct b
      | |- keeps _ (let _ := _ in _) => cbv zeta
      end ].
  apply keeps_for_each. intros i. unfold Simulation.entangle_node.
  repeat first
    [ apply keeps_ret | apply keeps_gets
    | apply keeps_draw; intros; apply Hrng
    | apply keeps_zoom; intros; apply Huf
    | apply keeps_bind; [|intros]
    | match goal with |- keeps _ (if ?b then _ else _) => destruct b end ].
Qed.

Lemma agis_keep `{Library} {X} (proj : Simulation -> X) :
  (forall v s, proj (set_stability v s) = proj s) ->
  (forall v s, proj (set_rng v s) = proj s) ->
  (forall v s, proj (set_agi_entities v s) = proj s) ->
  keeps proj Simulation.update_agis.
Proof.
  intros Hst Hrng Hagi. unfold Simulation.update_agis.
  apply keeps_bind; [apply keeps_gets|]. intros agis.
  apply keeps_for_each. intros k s. unfold Simulation.update_agi.
  destruct (agi_entities s !! k) as [a|]; [|done].
  assert (keeps (fun p : AGIEntity * Simulation => proj (snd p)) AGIEntity.update)
    as Hk.
  { unfold AGIEntity.update.
    repeat first
      [ apply keeps_ret | apply keeps_lift | apply keeps_gets
      | apply keeps_modify; intros [? ?]; first [reflexivity | apply Hst]
      | apply keeps_zoom; intros [? ?] [? ?]; apply Hrng
      | apply keeps_bind; [|intros]
      | match goal with |- keeps _ (if ?b then _ else _) => destruct b end ]. }
  specialize (Hk (a, s)).
  destruct (AGIEntity.update (a, s)) as [o [a' s']]. simpl in *.
  by rewrite Hagi.
Qed.

Lemma skip_never_raises `{Library} (s : Simulation) :
  is_ok (fst (Simulation._fractal_light_cone_skip s)) = true.
Proof.
  unfold Simulation._fractal_light_cone_skip, bind, gets, Simulation.log_event,
    modify, ret.
  simpl. destruct (_ <? _)%float; [|done].
  by destruct (cycle s mod 20 =? 0).
Qed.

(** A cycle keeps an invariant that each of its phases keeps. *)
Lemma update_preserves `{Library} `{!Kernels} (P : Simulation -> Prop) :
  preserves P Simulation._fractal_light_cone_skip ->
  preserves P (modify (fun s => set_cycle (cycle s + 1) s)) ->
  preserves P Simulation.stability_adjustment ->
  (forall adj, preserves P (Simulation.apply_adjustment adj)) ->
  preserves (fun w => P (fst w)) Simulation.update_entanglement ->
  preserves P Simulation.update_agis ->
  preserves P Simulation.update_multiverse ->
  preserves P Simulation.update_void_entropy ->
  preserves P Simulation.record_trends ->
  (forall adj, preserves P (Simulation.trl_update adj)) ->
  preserves P Simulation._update_eqgm ->
  preserves (fun w => P (fst w)) Simulation.update.
Proof.
  intros Hskip Hcy Hadj Happ Hent Hagi Hmv Hve Hrt Htrl Heq.
  apply update_invariant; try done.
  - apply preserves_and_keeps; [done|].
    unfold Simulation._fractal_light_cone_skip, Simulation.log_event. keeps_tac.
  - apply preserves_and_keeps; [done|]. keeps_tac.
  - apply preserves_and_keeps; [done|].
    unfold Simulation.stability_adjustment. keeps_tac.
  - intros adj. apply preserves_and_keeps; [done|].
    unfold Simulation.apply_adjustment. keeps_tac.
  - intros w [HP Hh]. split; [by apply Hent|].
    by rewrite (entanglement_keeps halt).
  - apply preserves_and_keeps; [done|]. by apply agis_keep.
  - apply preserves_and_keeps; [done|].
    unfold Simulation.update_multiverse. keeps_tac.
  - apply preserves_and_keeps; [done|].
    unfold Simulation.update_void_entropy. keeps_tac.
  - apply preserves_and_keeps; [done|].
    unfold Simulation.record_trends. keeps_tac.
  - intros adj s [HP _]. by apply Htrl.
Qed.

(** What the constructor establishes and [reset] and [update] keep holds
    in every state the main loop reaches. *)
Lemma reachable_invariant `{Library} `{!Kernels} (P : Simulation -> Prop)
    cfg cs (g : RandomState) :
  P (blank cfg) ->
  preserves P Simulation.reset ->
  preserves (fun w => P (fst w)) Simulation.update ->
  P (fst (exec_all cs (snd (Simulation_init cfg), g))).
Proof.
  intros Hb Hreset Hupdate.
  assert (P (fst (snd (Simulation_init cfg), g))) as Hstart.
  { simpl. by apply Hreset. }
  revert Hstart. generalize (snd (Simulation_init cfg), g).
  induction cs as [|c cs IH]; intros w Hw; simpl; [done|].
  apply IH. destruct c; simpl.
  - by apply Hupdate.
  - by apply (preserves_on_sim P).
Qed.

(** ** The ledger and the halt flag *)

Lemma ledger_sound_eq `{Types} (s s' : Simulation) :
  (halt s', free_energy s', energy_leakage s')
  = (halt s, free_energy s, energy_leakage s) ->
  ledger_sound s -> ledger_sound s'.
Proof. unfold ledger_sound. by intros [= -> -> ->]. Qed.

Ltac ledger_frame :=
  apply (preserves_keeps_pred
           (fun s => (halt s, free_energy s, energy_leakage s))
           (fun t => match t with
                     | (h, fe, lk) =>
                         if h : bool then (fe <? 0)%float = true /\ lk = abs fe
                         else (fe <? 0)%float = false /\ lk = 0%float
                     end)).

Lemma reset_ledger_sound `{Library} `{!Kernels} :
  preserves ledger_sound Simulation.reset.
Proof.
  unfold Simulation.reset.
  repeat lazymatch goal with
    | |- preserves _ (bind (modify (set_free_energy _)) _) => fail
    | |- preserves _ (bind _ _) =>
        apply preserves_bind; [ledger_frame; keeps_tac|intros]
    end.
  intros s _. unfold bind, modify, Simulation.log_event. simpl.
  unfold ledger_sound. simpl. done.
Qed.

Lemma update_ledger_sound `{Library} `{!Kernels} :
  preserves (fun w => ledger_sound (fst w)) Simulation.update.
Proof.
  apply update_invariant.
  - apply preserves_and_keeps;
      [ledger_frame|];
      unfold Simulation._fractal_light_cone_skip, Simulation.log_event; keeps_tac.
  - apply preserves_and_keeps; [ledger_frame|]; keeps_tac.
  - apply preserves_and_keeps; [ledger_frame|];
      unfold Simulation.stability_adjustment; keeps_tac.
  - intros adj. apply preserves_and_keeps; [ledger_frame|];
      unfold Simulation.apply_adjustment; keeps_tac.
  - intros w [HP Hh]. split; [|by rewrite (entanglement_keeps halt)].
    revert HP. apply ledger_sound_eq.
    apply (entanglement_keeps
             (fun s => (halt s, free_energy s, energy_leakage s))); done.
  - apply preserves_and_keeps; [|by apply agis_keep].
    ledger_frame. by apply agis_keep.
  - apply preserves_and_keeps; [ledger_frame|];
      unfold Simulation.update_multiverse; keeps_tac.
  - apply preserves_and_keeps; [ledger_frame|];
      unfold Simulation.update_void_entropy; keeps_tac.
  - apply preserves_and_keeps; [ledger_frame|];
      unfold Simulation.record_trends; keeps_tac.
  - intros adj s [HP Hh].
    destruct (trl_update_spec adj s)
      as (s' & -> & _ & _ & _ & _ & _ & _ & _ & Hfe & Hcase).
    simpl. unfold ledger_sound in *. rewrite Hh in HP. destruct HP as [_ Hlk].
    destruct (free_energy s' <? 0)%float eqn:Hneg.
    + destruct Hcase as (-> & -> & _). done.
    + destruct Hcase as (-> & -> & _). by rewrite Hh.
  - ledger_frame. unfold Simulation._update_eqgm. keeps_tac.
Qed.


(** ** The histories *)

Lemma deque_append_length {A} (maxlen : Z) (x : A) (d : list A) :
  length (deque_append maxlen x d) = Nat.min (S (length d)) (Z.to_nat maxlen).
Proof.
  unfold deque_append. rewrite length_drop, length_app.
  change (length [x]) with 1%nat. lia.
Qed.

#[local] Arguments deque_append : simpl never.

Lemma log_event_histories `{Types} (event_type message : string) :
  preserves histories_sound (Simulation.log_event event_type message).
Proof.
  intros s (Hc & Hl & Hu & Hv). unfold Simulation.log_event, modify. simpl.
  split_and!; simpl; [done| |done|done].
  rewrite deque_append_length. lia.
Qed.

Ltac histories_frame :=
  apply (preserves_keeps_pred
           (fun s => (config s, event_log s, usm_trend s, void_entropy_trend s))
           (fun t => match t with
                     | (c, l, u, v) =>
                         TREND_HISTORY_LENGTH c = 50 /\ (length l <= 20)%nat /\
                         (length u <= 50)%nat /\ length v = length u
                     end)).

Lemma reset_histories `{Library} `{!Kernels} :
  preserves histories_sound Simulation.reset.
Proof.
  unfold Simulation.reset.
  apply preserves_bind; [histories_frame; keeps_tac|]. intros cfg.
  repeat lazymatch goal with
    | |- preserves _ (bind (modify (set_event_log _)) _) => fail
    | |- preserves _ (bind _ _) =>
        apply preserves_bind; [histories_frame; keeps_tac|intros]
    end.
  intros s (Hc & Hl & Hu & Hv).
  unfold bind, modify, raise, ret, Simulation.log_event. simpl.
  destruct (TREND_HISTORY_LENGTH cfg <? 0); simpl.
  all: (split_and!; simpl; [done|lia..]).
Qed.

Lemma update_histories `{Library} `{!Kernels} :
  preserves (fun w => histories_sound (fst w)) Simulation.update.
Proof.
  apply update_preserves.
  - unfold Simulation._fractal_light_cone_skip.
    apply preserves_bind; [histories_frame; keeps_tac|intros st].
    cbv zeta. destruct (_ <? _)%float; [|histories_frame; keeps_tac].
    apply preserves_bind; [histories_frame; keeps_tac|intros c].
    apply preserves_bind; [|intros _; histories_frame; keeps_tac].
    destruct (c mod 20 =? 0); [apply log_event_histories|by intros ? ?].
  - histories_frame. keeps_tac.
  - histories_frame. unfold Simulation.stability_adjustment. keeps_tac.
  - intros adj. histories_frame. unfold Simulation.apply_adjustment. keeps_tac.
  - intros w. apply (preserves_keeps_pred
             (fun w : Simulation * RandomState =>
                (config (fst w), event_log (fst w), usm_trend (fst w),
                 void_entropy_trend (fst w)))
             (fun t => match t with
                       | (c, l, u, v) =>
                           TREND_HISTORY_LENGTH c = 50 /\ (length l <= 20)%nat /\
                           (length u <= 50)%nat /\ length v = length u
                       end)).
    apply (entanglement_keeps
             (fun s => (config s, event_log s, usm_trend s, void_entropy_trend s)));
      done.
  - histories_frame. by apply agis_keep.
  - histories_frame. unfold Simulation.update_multiverse. keeps_tac.
  - histories_frame. unfold Simulation.update_void_entropy. keeps_tac.
  - intros s (Hc & Hl & Hu & Hv).
    unfold Simulation.record_trends, bind, modify, gets, histories_sound. simpl.
    rewrite !deque_append_length, Hc. split_and!; [done|done|lia|lia].
  - intros adj. unfold Simulation.trl_update. cbv zeta.
    apply preserves_bind; [histories_frame; keeps_tac|intros _].
    apply preserves_bind; [histories_frame; keeps_tac|intros fe].
    destruct (fe <? 0)%float; [|by intros ? ?].
    apply preserves_bind; [histories_frame; keeps_tac|intros _].
    apply preserves_bind; [histories_frame; keeps_tac|intros _].
    apply log_event_histories.
  - histories_frame. unfold Simulation._update_eqgm. keeps_tac.
Qed.


(** ** The charges of the simulation's union-find *)

Lemma uncharged_charge_at c k :
  Forall (fun x => x = 0) c -> charge_at c k = 0.
Proof.
  intros Hc. unfold charge_at. destruct (c !! k) as [v|] eqn:E; [|done].
  simpl. by apply (Forall_lookup_1 _ _ _ _ Hc E).
Qed.

Lemma union_uncharged depth i j u :
  consistent u -> uncharged u -> uncharged (snd (UF.union depth i j u)).
Proof.
  intros Hc [H2 H4].
  destruct (union_cases depth u i j Hc)
    as [(p' & _ & -> & _)|(p' & a & b & _ & _ & _ & _ & ->)]; [done|].
  split; simpl.
  - destruct (decide (a < length (UF.z2_charge u))%nat).
    + apply Forall_insert; [done|]. by rewrite !uncharged_charge_at.
    + by rewrite list_insert_ge by lia.
  - destruct (decide (a < length (UF.z4_charge u))%nat).
    + apply Forall_insert; [done|]. by rewrite !uncharged_charge_at.
    + by rewrite list_insert_ge by lia.
Qed.

Ltac uf_frame :=
  apply (preserves_keeps_pred uf (fun u => consistent u /\ uncharged u)).

Lemma update_uncharged `{Library} `{!Kernels} :
  preserves (fun w => consistent (uf (fst w)) /\ uncharged (uf (fst w)))
    Simulation.update.
Proof.
  apply (update_preserves (fun s => consistent (uf s) /\ uncharged (uf s))).
  - uf_frame. unfold Simulation._fractal_light_cone_skip, Simulation.log_event.
    keeps_tac.
  - uf_frame. keeps_tac.
  - uf_frame. unfold Simulation.stability_adjustment. keeps_tac.
  - intros adj. uf_frame. unfold Simulation.apply_adjustment. keeps_tac.
  - unfold Simulation.update_entanglement.
    apply preserves_bind;
      [apply (preserves_on_sim (fun s => consistent (uf s) /\ uncharged (uf s)));
       uf_frame; keeps_tac|intros n].
    apply preserves_bind.
    { apply (preserves_on_sim (fun s => consistent (uf s) /\ uncharged (uf s))).
      apply preserves_for_each. intros i. unfold Simulation.entangle_node.
      apply preserves_bind; [uf_frame; keeps_tac|intros x].
      apply preserves_bind; [uf_frame; keeps_tac|intros p].
      destruct (x <? p)%float; [|by intros ? ?].
      apply preserves_bind; [uf_frame; keeps_tac|intros n'].
      apply preserves_bind; [uf_frame; keeps_tac|intros j].
      destruct (negb (i =? j)); [|by intros ? ?].
      apply preserves_bind; [|by intros ? ? ?].
      intros s [Hc Hu]. unfold zoom.
      pose proof (union_consistent recursion_depth (uf s) i j Hc) as Hc'.
      pose proof (union_uncharged recursion_depth i j (uf s) Hc Hu) as Hu'.
      destruct (UF.union recursion_depth i j (uf s)) as [o u']. simpl in *.
      by destruct s. }
    intros _.
    apply (preserves_keeps_pred (fun w : Simulation * RandomState => uf (fst w))
             (fun u => consistent u /\ uncharged u)).
    repeat first
      [ apply keeps_ret | apply keeps_raise | apply keeps_lift
      | apply keeps_on_sim
      | apply keeps_bind; [|intros]
      | apply keeps_gets
      | apply keeps_modify; intros; reflexivity
      | apply keeps_zoom; intros; reflexivity
      | match goal with
        | |- keeps _ (if ?b then _ else _) => destruct b
        | |- keeps _ (let _ := _ in _) => cbv zeta
        end ].
  - uf_frame. by apply agis_keep.
  - uf_frame. unfold Simulation.update_multiverse. keeps_tac.
  - uf_frame. unfold Simulation.update_void_entropy. keeps_tac.
  - uf_frame. unfold Simulation.record_trends. keeps_tac.
  - intros adj. uf_frame. unfold Simulation.trl_update, Simulation.log_event.
    keeps_tac.
  - uf_frame. unfold Simulation._update_eqgm. keeps_tac.
Qed.

Lemma init_uncharged n : uncharged (UF.init n).
Proof. split; simpl; unfold zeros; by apply Forall_replicate. Qed.

Lemma reset_uncharged `{Library} `{!Kernels} :
  preserves (fun s => consistent (uf s) /\ uncharged (uf s)) Simulation.reset.
Proof.
  unfold Simulation.reset, Simulation.log_event.
  repeat lazymatch goal with
    | |- preserves _ (bind (modify (set_uf _)) _) =>
        apply preserves_bind;
          [intros s _; split; [apply init_consistent|apply init_uncharged]
          |intros]
    | |- preserves _ (bind _ _) =>
        apply preserves_bind; [uf_frame; keeps_tac|intros]
    end.
  uf_frame. keeps_tac.
Qed.


(** ** What a cycle assigns *)

Ltac phases_keep proj :=
  repeat first
    [ apply (entanglement_keeps proj); intros; reflexivity
    | apply (keeps_on_sim proj);
      first
        [ apply agis_keep; intros; reflexivity
        | unfold Simulation.stability_adjustment, Simulation.apply_adjustment,
            Simulation.update_emergence, Simulation.update_multiverse,
            Simulation.update_void_entropy, Simulation.record_trends,
            Simulation.trl_update, Simulation._update_eqgm,
            Simulation.log_event;
          solve [keeps_tac] ]
    | apply keeps_ret
    | match goal with
      | |- keeps _ (if ?b then _ else _) => destruct b
      end
    | apply keeps_bind; [|intros] ].

Lemma update_step `{Library} `{!Kernels} (w w' : Simulation * RandomState) o :
  Simulation.update w = (o, w') ->
  fixed_attributes (fst w') = fixed_attributes (fst w) /\
  (cycle (fst w') = cycle (fst w) /\ o = Ok tt \/
   cycle (fst w') = cycle (fst w) + 1).
Proof.
  destruct w as [s g]. unfold Simulation.update. unfold bind at 1.
  unfold Simulation.on_sim at 1, zoom, gets. cbn [fst snd].
  destruct (halt s); [intros [= <- <-]; split; [done|by left]|].
  unfold bind at 1. unfold Simulation.on_sim at 1, zoom. cbn [fst snd].
  pose proof (skip_never_raises s) as Hok.
  assert (keeps (fun s => (cycle s, fixed_attributes s))
            Simulation._fractal_light_cone_skip) as Hk.
  { unfold Simulation._fractal_light_cone_skip, Simulation.log_event. keeps_tac. }
  specialize (Hk s).
  destruct (Simulation._fractal_light_cone_skip s) as [[b|e] s1];
    [|discriminate].
  cbn [fst snd] in *. apply pair_equal_spec in Hk as [Hcy Hfix].
  destruct b; [intros [= <- <-]; cbn [fst snd]; split; [done|by left]|].
  unfold bind at 1. unfold Simulation.on_sim at 1, zoom, modify. cbn [fst snd].
  match goal with
  | |- ?rest (set_cycle ?c s1, g) = _ -> _ =>
      assert (keeps (fun w : Simulation * RandomState =>
                       (cycle (fst w), fixed_attributes (fst w))) rest) as Hrest;
        [|specialize (Hrest (set_cycle c s1, g));
          destruct (rest (set_cycle c s1, g)) as [o1 w1]]
  end.
  { phases_keep (fun s : Simulation => (cycle s, fixed_attributes s)). }
  intros [= <- <-].
  cbn [fst snd] in *. apply pair_equal_spec in Hrest as [Hcy' Hfix'].
  rewrite Hcy', Hfix'. split; [exact Hfix|]. right.
  change (cycle (set_cycle (cycle s1 + 1) s1)) with (cycle s1 + 1).
  by rewrite Hcy.
Qed.

(** X13. A cycle counts at most once and assigns neither the
    configuration nor the node count nor the archetype, emotion, boson
    and fermion arrays: whatever its outcome, [update] leaves those
    attributes as they were and the cycle counter as it was or one
    higher; a call that raises has already counted its cycle. *)
Theorem update_counts_once `{Library} `{!Kernels} (w : Simulation * RandomState) :
  let w' := snd (Simulation.update w) in
  fixed_attributes (fst w') = fixed_attributes (fst w) /\
  (cycle (fst w') = cycle (fst w) \/ cycle (fst w') = cycle (fst w) + 1) /\
  match fst (Simulation.update w) with
  | Ok _ => True
  | Raise _ => cycle (fst w') = cycle (fst w) + 1
  end.
Proof.
  destruct (Simulation.update w) as [o w'] eqn:E. cbn [fst snd].
  destruct (update_step w w' o E) as (Hfix & [[Hcy ->]|Hcy]).
  - auto.
  - split_and!; [done|by right|by destruct o].
Qed.

(** ** A simulation without nodes *)

Lemma entanglement_needs_nodes `{Library} (w w1 : Simulation * RandomState) :
  Simulation.update_entanglement w = (Ok tt, w1) -> node_count (fst w) <> 0.
Proof.
  intros E. unfold Simulation.update_entanglement in E.
  apply bind_Ok in E as (n & w0 & E0 & E).
  apply on_sim_gets in E0 as [-> ->].
  apply bind_Ok in E as (u1 & w2 & _ & E).
  apply bind_Ok in E as (cfg & w3 & _ & E).
  apply bind_Ok in E as (st & w4 & _ & E).
  apply bind_Ok in E as (sv & w5 & _ & E).
  apply bind_Ok in E as (c & w6 & _ & E).
  apply bind_Ok in E as (u7 & w7 & E7 & _).
  destruct (Z.eqb_spec (node_count (fst w)) 0) as [|Hne]; [discriminate|done].
Qed.

(** X14. A simulation without nodes cannot complete a cycle: with a node
    count of zero, a call of [update] on an engine that is neither
    halted nor skipped by the scheduler does not return; it raises (when
    the kernels and the tensor sweep return, the [ZeroDivisionError] of
    [self.cycle % self.node_count]) after it has counted the cycle. *)
Theorem no_nodes_no_cycle `{Library} `{!Kernels} (w : Simulation * RandomState) :
  node_count (fst w) = 0 ->
  halt (fst w) = false ->
  (np_mean (np_std <$> np_array_split (stability (fst w)) 4) <? 0.005)%float = false ->
  is_ok (fst (Simulation.update w)) = false /\
  cycle (fst (snd (Simulation.update w))) = cycle (fst w) + 1 /\
  (forall w1,
     node_count (fst w1) = 0 ->
     fst (Simulation.update_entanglement w1)
     = match fst (mps_sweep (MPS_BOND_DIMENSION (config (fst w1))) 0
                    (stability (fst w1)) (snd w1)) with
       | Ok _ => Raise ZeroDivisionError
       | Raise e => Raise e
       end).
Proof.
  intros Hn Hh Hv.
  assert (is_ok (fst (Simulation.update w)) = false) as Hraise.
  { destruct (Simulation.update w) as [[[]|e] w'] eqn:E; [exfalso|done].
    destruct w as [s g]. simpl in *.
    unfold Simulation.update in E.
    apply bind_Ok in E as (halted & w0 & E0 & E).
    apply on_sim_gets in E0 as [-> ->]. simpl in E. rewrite Hh in E.
    apply bind_Ok in E as (skip & w1 & E1 & E).
    assert (skip = false /\ w1 = (s, g)) as [-> ->].
    { revert E1. unfold Simulation.on_sim, zoom, Simulation._fractal_light_cone_skip,
        bind, gets, ret. simpl. rewrite Hv. by intros [= <- <-]. }
    clear E1.
    apply bind_Ok in E as ([] & [s2 g2] & E2 & E).
    apply on_sim_modify in E2. injection E2 as E2 _.
    assert (node_count s2 = 0) as Hn2 by (by rewrite E2).
    apply bind_Ok in E as (adj & [s3 g3] & E3 & E).
    apply on_sim_inv in E3 as (E3 & _). simpl in E3.
    assert (keeps node_count Simulation.stability_adjustment) as K3
      by (unfold Simulation.stability_adjustment; keeps_tac).
    pose proof (keeps_Ok _ _ _ _ _ K3 E3) as Hn3.
    apply bind_Ok in E as ([] & [s4 g4] & E4 & E).
    apply on_sim_inv in E4 as (E4 & _). simpl in E4.
    assert (keeps node_count (Simulation.apply_adjustment adj)) as K4
      by (unfold Simulation.apply_adjustment; keeps_tac).
    pose proof (keeps_Ok _ _ _ _ _ K4 E4) as Hn4.
    apply bind_Ok in E as ([] & w5 & E5 & E).
    apply entanglement_needs_nodes in E5. simpl in E5. congruence. }
  split_and!; [done| |].
  - destruct (Simulation.update w) as [o w'] eqn:E.
    destruct (update_step w w' o E) as (_ & [[_ ->]|Hcy]); [discriminate|done].
  - intros [s1 g1] Hn1. simpl in *.
    unfold Simulation.update_entanglement.
    unfold bind at 1. unfold Simulation.on_sim at 1, zoom, gets. cbn [fst snd].
    rewrite Hn1. change (py_range 0) with (@nil Z). cbn [for_each].
    unfold bind, Simulation.on_sim, zoom, gets, ret, raise, lift, modify.
    cbn [fst snd].
    by destruct (mps_sweep _ 0 _ g1) as [[sv|e] g2].
Qed.

Lemma no_nodes_no_cycle_witness :
  let w := (snd (@Simulation_init ref_types ref_library ref_kernels
                   (Config_init 0 42 1 0.05 0.2 0.5 false)), 1%float) in
  fst (ref_update w) = Raise ZeroDivisionError /\
  is_ok (fst (ref_update w)) = false /\
  cycle (fst (snd (ref_update w))) = cycle (fst w) + 1.
Proof.
  split; [vm_compute; reflexivity|].
  destruct (@no_nodes_no_cycle ref_types ref_library ref_kernels
              (snd (@Simulation_init ref_types ref_library ref_kernels
                      (Config_init 0 42 1 0.05 0.2 0.5 false)), 1%float))
    as (H1 & H2 & _).
  - vm_compute. reflexivity.
  - vm_compute. reflexivity.
  - vm_compute. reflexivity.
  - split; [exact H1|exact H2].
Defined.

(** ** The entities *)


(** X16. The guard of an entity on its node: an entity whose origin is at
    or past the end of the stability vector is blocked, [update] returns
    without a draw and changes neither the entity nor the simulation; an
    origin below minus the length makes [update] raise [IndexError], again
    with nothing changed. (An origin in between, negative or not,
    addresses a node as numpy does.) *)
Theorem agi_origin_guard `{Library} (a : AGIEntity) (s : Simulation) :
  is_ok (AGIEntity._get_proposed_adjustment a) = true ->
  (Z.of_nat (length (stability s)) <= origin a ->
   AGIEntity.update (a, s) = (Ok tt, (a, s))) /\
  (origin a < - Z.of_nat (length (stability s)) ->
   AGIEntity.update (a, s) = (Raise IndexError, (a, s))).
Proof.
  intros Hp. unfold AGIEntity.update, bind, gets, lift. simpl.
  destruct (AGIEntity._get_proposed_adjustment a) as [adj|e]; [|discriminate].
  unfold AGIEntity._is_harmful. split; intros Ho.
  - destruct (Z.leb_spec (Z.of_nat (length (stability s))) (origin a)); [done|lia].
  - destruct (Z.leb_spec (Z.of_nat (length (stability s))) (origin a)); [lia|].
    rewrite getitem_None; [done|]. apply norm_index_None. lia.
Qed.

Lemma agi_origin_guard_witness :
  let a := mkAGIEntity "AGI-8-1234" 8 0.5 "cooperative" [0.5; 0.5; 0.9]%float []
             [0.3; 0.3; 0.4]%float in
  let b := mkAGIEntity "AGI--9-1234" (-9) 0.5 "disruptive" []%float []
             [0.3; 0.3; 0.4]%float in
  @AGIEntity.update ref_types ref_library (a, ref_start) = (Ok tt, (a, ref_start)) /\
  @AGIEntity.update ref_types ref_library (b, ref_start)
  = (Raise IndexError, (b, ref_start)).
Proof.
  split.
  - apply (@agi_origin_guard ref_types ref_library).
    + vm_compute. reflexivity.
    + vm_compute. discriminate.
  - apply (@agi_origin_guard ref_types ref_library).
    + vm_compute. reflexivity.
    + vm_compute. reflexivity.
Defined.

(** ** A scheduler that skips goes on skipping *)

Lemma set_event_log_twice `{Types} (l l' : list string) (s : Simulation) :
  set_event_log l (set_event_log l' s) = set_event_log l s.
Proof. by destruct s. Qed.

Lemma set_event_log_id `{Types} (s : Simulation) :
  set_event_log (event_log s) s = s.
Proof. by destruct s. Qed.

Lemma skipped_update `{Library} `{!Kernels} (w : Simulation * RandomState) :
  halt (fst w) = false ->
  (np_mean (np_std <$> np_array_split (stability (fst w)) 4) <? 0.005)%float = true ->
  exists l,
    Simulation.update w = (Ok tt, (set_event_log l (fst w), snd w)) /\
    ((cycle (fst w) mod 20 =? 0) = false -> l = event_log (fst w)).
Proof.
  intros Hh Hv. destruct w as [s g]. simpl in *.
  unfold Simulation.update, bind, Simulation.on_sim, zoom, gets. simpl.
  rewrite Hh.
  unfold Simulation._fractal_light_cone_skip, bind, gets. simpl.
  rewrite Hv. simpl.
  destruct (cycle s mod 20 =? 0); simpl.
  - eexists. split; [reflexivity|discriminate].
  - exists (event_log s). by rewrite set_event_log_id.
Qed.



(** ** The training set of the halt predictor *)

(** X18. The halt predictor learns to predict the next record: with
    fewer than 20 records of the stability metric [_update_eqgm] returns
    at once and changes nothing; otherwise (the trends being equally
    long, as they are in every reachable state) it fits the tree on 19
    rows, row [k] made of the records [n - 20 + k] of the two trends, and
    labels row [k] with whether the metric's record [n - 19 + k], the one
    after, is below 0.1; the two importances it gets back become the two
    lines of [eqgm_features], and an exception of the fit leaves the
    state as it was. *)
Theorem eqgm_training_set `{Library} (s : Simulation) :
  length (void_entropy_trend s) = length (usm_trend s) ->
  let n := length (usm_trend s) in
  if (n <? 20)%nat then Simulation._update_eqgm s = (Ok tt, s)
  else
    exists X_usm X_ve y,
      length X_usm = 19%nat /\ length X_ve = 19%nat /\ length y = 19%nat /\
      (forall k, (k < 19)%nat ->
         X_usm !! k = usm_trend s !! (n - 20 + k)%nat /\
         X_ve !! k = void_entropy_trend s !! (n - 20 + k)%nat /\
         y !! k = (fun x => x <? 0.1)%float <$> usm_trend s !! (n - 19 + k)%nat) /\
      match tree_fit (eqgm_model s) X_usm X_ve y with
      | Raise e => Simulation._update_eqgm s = (Raise e, s)
      | Ok (model, importances) =>
          match getitem importances 0, getitem importances 1 with
          | Ok i0, Ok i1 =>
              Simulation._update_eqgm s
              = (Ok tt,
                 set_eqgm_features
                   ["USM Trend: " +:+ format_2f i0; "VE Trend: " +:+ format_2f i1]
                   (set_eqgm_model model s))
          | _, _ =>
              Simulation._update_eqgm s
              = (Raise IndexError, set_eqgm_model model s)
          end
      end.
Proof.
  intros Hlen n. unfold Simulation._update_eqgm, bind, gets, id. cbn [fst snd].
  fold n. destruct (Nat.ltb_spec n 20) as [Hlt|Hge]; [done|].
  rewrite Hlen. fold n.
  exists (drop (n - 20) (take (n - 1) (usm_trend s))),
    (drop (n - 20) (take (n - 1) (void_entropy_trend s))),
    ((fun x => x <? 0.1)%float <$> drop (n - 19) (usm_trend s)).
  split_and!.
  - rewrite length_drop, length_take. unfold n. lia.
  - rewrite length_drop, length_take, Hlen. fold n. lia.
  - rewrite length_fmap, length_drop. fold n. lia.
  - intros k Hk. split_and!.
    + rewrite lookup_drop, lookup_take_lt by lia. done.
    + rewrite lookup_drop, lookup_take_lt by lia. done.
    + rewrite list_lookup_fmap, lookup_drop. done.
  - unfold lift.
    destruct (tree_fit _ _ _ _) as [[model importances]|e]; [|done].
    cbn [fst snd]. unfold modify. cbn [fst snd].
    destruct (getitem importances 0) as [i0|e0] eqn:E0.
    + destruct (getitem importances 1) as [i1|e1] eqn:E1; [done|].
      unfold getitem in E1.
      destruct (norm_index _ _); [|by injection E1 as <-].
      destruct (importances !! _); [done|by injection E1 as <-].
    + unfold getitem in E0.
      destruct (norm_index _ _); [|by injection E0 as <-].
      destruct (importances !! _); [done|by injection E0 as <-].
Qed.

Lemma eqgm_training_set_witness :
  let s := set_usm_trend (replicate 20 0.5%float)
             (set_void_entropy_trend (replicate 20 0.1%float) ref_start) in
  exists X_usm X_ve y,
    length X_usm = 19%nat /\ length X_ve = 19%nat /\ length y = 19%nat /\
    (forall k, (k < 19)%nat ->
       X_usm !! k = usm_trend s !! (20 - 20 + k)%nat /\
       X_ve !! k = void_entropy_trend s !! (20 - 20 + k)%nat /\
       y !! k = (fun x => x <? 0.1)%float <$> usm_trend s !! (20 - 19 + k)%nat) /\
    match @tree_fit ref_types ref_library (eqgm_model s) X_usm X_ve y with
    | Raise e => @Simulation._update_eqgm ref_types ref_library s = (Raise e, s)
    | Ok (model, importances) =>
        match getitem importances 0, getitem importances 1 with
        | Ok i0, Ok i1 =>
            @Simulation._update_eqgm ref_types ref_library s
            = (Ok tt,
               set_eqgm_features
                 ["USM Trend: " +:+ @format_2f ref_types ref_library i0;
                  "VE Trend: " +:+ @format_2f ref_types ref_library i1]
                 (set_eqgm_model model s))
        | _, _ =>
            @Simulation._update_eqgm ref_types ref_library s
            = (Raise IndexError, set_eqgm_model model s)
        end
    end.
Proof.
  apply (@eqgm_training_set ref_types ref_library
           (set_usm_trend (replicate 20 0.5%float)
              (set_void_entropy_trend (replicate 20 0.1%float) ref_start))).
  vm_compute. reflexivity.
Defined.

(** * Properties of v8.0 *)

Lemma v8_config_args (args : V8.namespace) :
  map_fold (fun key value self => <[key := value]> self) ∅ args = args.
Proof.
  apply (map_fold_weak_ind (fun r m => r = m)); [done|].
  intros k v m r Hk ->. done.
Qed.

(** What [Config.__init__] leaves in the configuration: the four
    constants, and otherwise the arguments under their own names. *)
Lemma v8_config_getattr (args : V8.namespace) (name : string) :
  V8.getattr (V8.Config_init args) name
  = if decide (name = "MPS_BOND_DIMENSION") then V8.Found (V8.VInt 4)
    else if decide (name = "VOID_ENTROPY_RANGE") then
      V8.Found (V8.VRange (-0.5) 0.5)
    else if decide (name = "EMOTIONS") then
      V8.Found (V8.VStrs ["neutral"; "resonant"; "dissonant"; "curious";
                          "focused"; "chaotic"; "serene"; "agitated"])
    else if decide (name = "ARCHETYPES") then
      V8.Found (V8.VStrs ["Warrior"; "Mirror"; "Mystic"; "Guide"; "Oracle";
                          "Architect"; "Dreamer"; "Weaver"])
    else V8.getattr args name.
Proof.
  unfold V8.Config_init. rewrite v8_config_args. cbv zeta. unfold V8.getattr.
  repeat case_decide; subst;
    repeat first
      [ rewrite lookup_insert_eq
      | rewrite lookup_insert_ne by (done || congruence) ];
    done.
Qed.

(** X19. The configuration of v8.0 does not have the attributes the
    simulation reads: [Config.__init__] copies the parsed arguments under
    the names of the options, which are lower case, so [SEED],
    [PAGE_COUNT], [TREND_HISTORY_LENGTH], [ENTANGLEMENT_PROBABILITY],
    [ENTANGLEMENT_STABILITY_WEIGHT] and [CYCLE_LIMIT], which [reset],
    [update_entanglement], the propagator and [main] read, raise
    [AttributeError]; the arguments are found under [seed], [page_count]
    and so on, and of the names read only [MPS_BOND_DIMENSION],
    [use_gpu], [quantum_backend] and [use_curses_ui] exist. *)
Theorem v8_config_lacks_upper_case (page_count seed num_parallel_universes : Z)
    (entanglement_probability entanglement_stability_weight void_threshold : float)
    (use_gpu use_multiprocessing : bool) (quantum_backend : string)
    (use_curses_ui : bool) :
  let config :=
    V8.Config_init
      (V8.parse_args page_count seed num_parallel_universes
         entanglement_probability entanglement_stability_weight void_threshold
         use_gpu use_multiprocessing quantum_backend use_curses_ui) in
  Forall (fun name => V8.getattr config name = V8.AttributeError name)
    ["SEED"; "PAGE_COUNT"; "TREND_HISTORY_LENGTH"; "ENTANGLEMENT_PROBABILITY";
     "ENTANGLEMENT_STABILITY_WEIGHT"; "CYCLE_LIMIT"] /\
  V8.getattr config "seed" = V8.Found (V8.VInt seed) /\
  V8.getattr config "page_count" = V8.Found (V8.VInt page_count) /\
  V8.getattr config "entanglement_probability"
  = V8.Found (V8.VFloat entanglement_probability) /\
  V8.getattr config "entanglement_stability_weight"
  = V8.Found (V8.VFloat entanglement_stability_weight) /\
  V8.getattr config "MPS_BOND_DIMENSION" = V8.Found (V8.VInt 4) /\
  V8.getattr config "use_gpu" = V8.Found (V8.VBool use_gpu) /\
  V8.getattr config "quantum_backend" = V8.Found (V8.VStr quantum_backend) /\
  V8.getattr config "use_curses_ui" = V8.Found (V8.VBool use_curses_ui).
Proof.
  intros config. unfold config.
  repeat first [split | apply Forall_cons_2 | apply Forall_nil_2];
    rewrite v8_config_getattr;
    repeat (rewrite decide_False by done);
    unfold V8.getattr, V8.parse_args;
    rewrite ?lookup_insert_eq, ?lookup_insert_ne, ?lookup_empty by done;
    repeat (rewrite lookup_insert_ne by done);
    rewrite ?lookup_insert_eq, ?lookup_empty; try done.
Qed.

(** ** Value alignment *)

Lemma v8_alignment_score (action : string) :
  V8.get_alignment_score V8.ValueAlignmentModule_init action
  = (if decide (action = "harmony") then 0.8
     else if decide (action = "growth") then 0.6
     else if decide (action = "safety") then 0.9
     else 0.5)%float.
Proof.
  unfold V8.get_alignment_score, V8.ValueAlignmentModule_init. simpl.
  repeat case_decide; subst;
    repeat first
      [ rewrite lookup_insert_eq
      | rewrite lookup_insert_ne by (done || congruence) ];
    rewrite ?lookup_empty; done.
Qed.

(** X20. The value-alignment check of v8.0 never blocks: the score of
    every action is 0.8, 0.6, 0.9 or the default 0.5, never below the
    threshold, so an entity with the module [__init__] gives it either
    is blocked as harmful, with the line of the distiller in the event
    log, or acts: its node's stability is moved by the proposal and
    clamped to [0, 1], and its strength grows, capped at 1. No call
    writes the line of the alignment check. *)
Theorem v8_alignment_never_blocks `{Types} (a : V8.AGIEntity) (s : V8.Simulation) :
  V8.value_aligner a = V8.ValueAlignmentModule_init ->
  (forall action,
     (V8.get_alignment_score (V8.value_aligner a) action <? 0.5)%float = false) /\
  match V8._propose_action a with
  | Raise e => V8.update (a, s) = (Raise e, (a, s))
  | Ok (_, adj) =>
      match V8._is_harmful a adj s with
      | Raise e => V8.update (a, s) = (Raise e, (a, s))
      | Ok true =>
          V8.update (a, s)
          = (Ok tt,
             (a, V8.set_event_log
                   (deque_append 20
                      (Simulation.event_line (V8.cycle s) "CED"
                         ("AGI " +:+ String.substring 0 4 (V8.id a)
                          +:+ " blocked harmful action."))
                      (V8.event_log s)) s))
      | Ok false =>
          exists x e2 st,
            getitem (V8.stability s) (V8.origin a) = Ok x /\
            getitem (V8.ethical_state a) 2 = Ok e2 /\
            setitem (V8.stability s) (V8.origin a) (np_clip1 (x + adj) 0 1) = Ok st /\
            V8.update (a, s)
            = (Ok tt,
               (V8.set_strength
                  (if (V8.strength a + 0.001 * (1 + e2) <? 1)%float
                   then (V8.strength a + 0.001 * (1 + e2))%float else 1%float) a,
                V8.set_stability st s))
      end
  end.
Proof.
  intros Ha. split.
  { intros action. rewrite Ha, v8_alignment_score.
    repeat case_decide; reflexivity. }
  unfold V8.update, bind, gets, lift. cbn [fst snd].
  unfold V8._propose_action.
  destruct (getitem (V8.ethical_state a) 2) as [e2|e] eqn:Ee; [|done].
  cbn [fst snd].
  destruct (V8._is_harmful a ((e2 - 0.5) * 0.01) s) as [[|]|e] eqn:Eh; [| |done].
  - unfold zoom, V8.log_event, modify. done.
  - rewrite Ha, v8_alignment_score. simpl.
    unfold V8._is_harmful in Eh.
    destruct (Z.of_nat (length (V8.stability s)) <=? V8.origin a); [discriminate|].
    destruct (getitem (V8.stability s) (V8.origin a)) as [x|e] eqn:Ex;
      [|discriminate].
    assert (exists st, setitem (V8.stability s) (V8.origin a)
                         (np_clip1 (x + (e2 - 0.5) * 0.01) 0 1) = Ok st)
      as (st & Est).
    { unfold setitem. unfold getitem in Ex.
      destruct (norm_index _ _); [eauto|discriminate]. }
    exists x, e2, st. rewrite Est. unfold modify. cbn [fst snd].
    rewrite Ee. done.
Qed.

(** ** Emergence *)

Lemma agi_prefix (rest : string) : String.substring 0 4 ("AGI-" +:+ rest) = "AGI-".
Proof. by destruct rest. Qed.

Lemma v8_entity_init `{V8.Runtime} (idx : Z) (gc : Generator * V8.Clock) :
  exists a gc',
    V8.AGIEntity_init idx gc = (Ok a, gc') /\
    V8.origin a = idx /\ V8.strength a = 0.5%float /\
    V8.value_aligner a = V8.ValueAlignmentModule_init /\
    String.substring 0 4 (V8.id a) = "AGI-".
Proof.
  destruct gc as [g c]. unfold V8.AGIEntity_init, bind, zoom, ret. cbn [fst snd].
  destruct (V8.time_stamp c) as [t c']. cbn [fst snd].
  destruct (V8.rng_choice _ g) as [x g1]. cbn [fst snd].
  destruct (V8.rng_uniform_vec _ _ _ g1) as [v g2]. cbn [fst snd].
  do 2 eexists. split_and!; [reflexivity..|]. apply agi_prefix.
Qed.

(** What one round of the loop does. *)
Lemma v8_emerge `{V8.Runtime} (ex : list Z) (idx : Z) (w : V8.Simulation * V8.Clock) :
  exists w',
    V8.emerge ex idx w = (Ok tt, w') /\
    V8.sentience (fst w') = V8.sentience (fst w) /\
    V8.xp (fst w') = V8.xp (fst w) /\
    V8.stability (fst w') = V8.stability (fst w) /\
    if bool_decide (idx ∈ ex) then w' = w
    else exists a,
      V8.agi_entities (fst w') = V8.agi_entities (fst w) ++ [a] /\
      V8.origin a = idx /\ V8.strength a = 0.5%float /\
      V8.value_aligner a = V8.ValueAlignmentModule_init /\
      String.substring 0 4 (V8.id a) = "AGI-".
Proof.
  unfold V8.emerge. destruct (bool_decide (idx ∈ ex)); [by exists w|].
  unfold bind at 1. unfold zoom at 1.
  destruct (v8_entity_init idx (V8.rng (fst w), snd w))
    as (a & gc' & -> & Ho & Hs & Hv & Hi).
  unfold bind, modify, zoom, V8.log_event. cbn [fst snd].
  eexists. split; [reflexivity|]. cbn [fst snd].
  split_and!; [done..|]. exists a. split_and!; done.
Qed.

Lemma v8_emerge_loop `{V8.Runtime} (ex l : list Z) (w : V8.Simulation * V8.Clock) :
  exists w' news,
    for_each l (V8.emerge ex) w = (Ok tt, w') /\
    V8.sentience (fst w') = V8.sentience (fst w) /\
    V8.xp (fst w') = V8.xp (fst w) /\
    V8.stability (fst w') = V8.stability (fst w) /\
    V8.agi_entities (fst w') = V8.agi_entities (fst w) ++ news /\
    V8.origin <$> news = filter (fun idx => idx ∉ ex) l /\
    Forall (fun a => V8.strength a = 0.5%float /\
                     V8.value_aligner a = V8.ValueAlignmentModule_init /\
                     String.substring 0 4 (V8.id a) = "AGI-") news /\
    (news = [] -> w' = w).
Proof.
  revert w. induction l as [|idx l IH]; intros w.
  { exists w, []. simpl. rewrite app_nil_r. split_and!; done. }
  cbn [for_each]. unfold bind at 1.
  destruct (v8_emerge ex idx w) as (w1 & -> & Hse1 & Hxp1 & Hst1 & Hcase).
  destruct (IH w1) as (w' & news & -> & Hse & Hxp & Hst & Hag & Hor & Hall & Hnil).
  rewrite filter_cons.
  destruct (bool_decide (idx ∈ ex)) eqn:Hin.
  - apply bool_decide_eq_true in Hin. subst w1.
    exists w', news. rewrite decide_False by (by intros ?).
    split_and!; done.
  - apply bool_decide_eq_false in Hin.
    destruct Hcase as (a & Ha & Ho & Hs & Hv & Hi).
    exists w', (a :: news). rewrite decide_True by done.
    split_and!; try congruence.
    + rewrite Hag, Ha. by rewrite <- app_assoc.
    + by rewrite fmap_cons, Ho, Hor.
    + by constructor.
Qed.

Lemma where_from_spec (k : Z) (mask : list bool) (idx : Z) :
  idx ∈ V8.where_from k mask <->
  exists n : nat, idx = k + Z.of_nat n /\ mask !! n = Some true.
Proof.
  revert k. induction mask as [|b mask IH]; intros k; simpl.
  { split; [by intros ?%elem_of_nil|by intros (n & _ & ?)]. }
  assert (idx ∈ V8.where_from (k + 1) mask <->
          exists n : nat, idx = k + Z.of_nat (S n) /\ mask !! n = Some true) as IH'.
  { rewrite IH. split; intros (n & -> & Hn); exists n; split; done || lia. }
  destruct b.
  - rewrite elem_of_cons, IH'. split.
    + intros [->|(n & -> & Hn)]; [exists 0%nat|exists (S n)]; split; done || lia.
    + intros ([|n] & -> & Hn); [left; lia|right; eauto].
  - rewrite IH'. split.
    + intros (n & -> & Hn). exists (S n). done.
    + intros ([|n] & -> & Hn); [done|eauto].
Qed.

Lemma where_from_NoDup (k : Z) (mask : list bool) : NoDup (V8.where_from k mask).
Proof.
  revert k. induction mask as [|b mask IH]; intros k; simpl; [constructor|].
  destruct b; [|done]. constructor; [|done].
  rewrite where_from_spec. intros (n & Hn & _). lia.
Qed.

(** X21. Emergence in v8.0 gives every sentient node one entity:
    [update_emergence] returns, keeps the entities there are and appends,
    in ascending order of the nodes, one entity for each node whose
    sentience exceeds 0.85 and that is the origin of no entity yet; an
    entity it constructs has that node as origin, strength 0.5, the
    value-alignment module of [__init__] and an id that begins with
    [AGI-]. Afterwards every node above the threshold is the origin of an
    entity, origins that were pairwise distinct still are, and a second
    call changes nothing. *)
Theorem v8_emergence `{V8.Runtime} (w : V8.Simulation * V8.Clock) :
  let w' := snd (V8.update_emergence w) in
  fst (V8.update_emergence w) = Ok tt /\
  (exists news,
     V8.agi_entities (fst w') = V8.agi_entities (fst w) ++ news /\
     V8.origin <$> news
     = filter (fun idx => idx ∉ V8.origin <$> V8.agi_entities (fst w))
         (V8.xp_where ((fun x => 0.85 <? x)%float <$> V8.sentience (fst w))) /\
     Forall (fun a => V8.strength a = 0.5%float /\
                      V8.value_aligner a = V8.ValueAlignmentModule_init /\
                      String.substring 0 4 (V8.id a) = "AGI-") news) /\
  (forall (k : nat) x,
     V8.sentience (fst w) !! k = Some x -> (0.85 <? x)%float = true ->
     Z.of_nat k ∈ V8.origin <$> V8.agi_entities (fst w')) /\
  (NoDup (V8.origin <$> V8.agi_entities (fst w)) ->
   NoDup (V8.origin <$> V8.agi_entities (fst w'))) /\
  V8.update_emergence w' = (Ok tt, w').
Proof.
  assert (forall w0 : V8.Simulation * V8.Clock,
            V8.update_emergence w0
            = for_each
                (V8.xp_where ((fun x => 0.85 <? x)%float <$> V8.sentience (fst w0)))
                (V8.emerge (V8.origin <$> V8.agi_entities (fst w0))) w0) as Hun.
  { intros w0. unfold V8.update_emergence, bind, gets. cbn [fst snd].
    by destruct (V8.xp (fst w0)). }
  set (l := V8.xp_where ((fun x => 0.85 <? x)%float <$> V8.sentience (fst w))).
  set (ex := V8.origin <$> V8.agi_entities (fst w)).
  destruct (v8_emerge_loop ex l w)
    as (w1 & news & Hrun & Hse & Hxp & Hst & Hag & Hor & Hall & _).
  rewrite Hun. fold l ex. rewrite Hrun. cbn [fst snd].
  assert (forall idx, idx ∈ l -> idx ∈ V8.origin <$> V8.agi_entities (fst w1))
    as Hcover.
  { intros idx Hidx. rewrite Hag, fmap_app, elem_of_app, Hor.
    destruct (decide (idx ∈ ex)); [by left|right].
    by apply list_elem_of_filter. }
  split_and!; [done|by exists news| | |].
  - intros k x Hk Hx. apply Hcover. unfold l, V8.xp_where.
    apply where_from_spec. exists k. split; [lia|].
    by rewrite list_lookup_fmap, Hk; simpl; rewrite Hx.
  - intros Hnd. rewrite Hag, fmap_app, Hor. apply NoDup_app. split_and!.
    + done.
    + intros idx Hin [Hout _]%list_elem_of_filter. done.
    + apply NoDup_filter, where_from_NoDup.
  - rewrite Hun, Hse. fold l.
    destruct (v8_emerge_loop (V8.origin <$> V8.agi_entities (fst w1)) l w1)
      as (w2 & news2 & -> & _ & _ & _ & _ & Hor2 & _ & Hnil).
    rewrite Hnil; [done|].
    apply (fmap_nil_inv V8.origin). rewrite Hor2.
    match goal with
    | |- ?f = [] => destruct f as [|idx rest] eqn:Ef; [done|]
    end.
    exfalso.
    assert (idx ∈ filter (fun idx => idx ∉ V8.origin <$> V8.agi_entities (fst w1)) l)
      as [Hout Hin]%list_elem_of_filter by (rewrite Ef; left).
    by apply Hout, Hcover.
Qed.

Lemma v8_alignment_never_blocks_witness :
  (forall action,
     (V8.get_alignment_score (V8.value_aligner ref_entity8) action <? 0.5)%float
     = false) /\
  match V8._propose_action ref_entity8 with
  | Raise e => V8.update (ref_entity8, ref_sim8) = (Raise e, (ref_entity8, ref_sim8))
  | Ok (_, adj) =>
      match V8._is_harmful ref_entity8 adj ref_sim8 with
      | Raise e =>
          V8.update (ref_entity8, ref_sim8) = (Raise e, (ref_entity8, ref_sim8))
      | Ok true =>
          V8.update (ref_entity8, ref_sim8)
          = (Ok tt,
             (ref_entity8,
              V8.set_event_log
                (deque_append 20
                   (Simulation.event_line (V8.cycle ref_sim8) "CED"
                      ("AGI " +:+ String.substring 0 4 (V8.id ref_entity8)
                       +:+ " blocked harmful action."))
                   (V8.event_log ref_sim8)) ref_sim8))
      | Ok false =>
          exists x e2 st,
            getitem (V8.stability ref_sim8) (V8.origin ref_entity8) = Ok x /\
            getitem (V8.ethical_state ref_entity8) 2 = Ok e2 /\
            setitem (V8.stability ref_sim8) (V8.origin ref_entity8)
              (np_clip1 (x + adj) 0 1) = Ok st /\
            V8.update (ref_entity8, ref_sim8)
            = (Ok tt,
               (V8.set_strength
                  (if (V8.strength ref_entity8 + 0.001 * (1 + e2) <? 1)%float
                   then (V8.strength ref_entity8 + 0.001 * (1 + e2))%float
                   else 1%float) ref_entity8,
                V8.set_stability st ref_sim8))
      end
  end.
Proof.
  apply (@v8_alignment_never_blocks ref_types ref_entity8 ref_sim8).
  reflexivity.
Defined.

(** The reference simulation: nodes 0, 1 and 3 are above the threshold
    and node 1 has its entity, so entities are born from nodes 0 and 3,
    and each birth is logged. *)
Example v8_emergence_example :
  let w' := snd (@V8.update_emergence ref_types ref_runtime (ref_sim8, 41)) in
  V8.origin <$> V8.agi_entities (fst w') = [1; 0; 3] /\
  V8.id <$> V8.agi_entities (fst w') = ["AGI-1-1234"; "AGI-0-41"; "AGI-3-42"] /\
  V8.event_log (fst w')
  = ["[C0003] Emergence: AGI born from Node 0";
     "[C0003] Emergence: AGI born from Node 3"].
Proof. vm_compute. done. Qed.
